(** * petVet_doc_bot: booking flow, slot manager and response cache

    A shallow embedding of the three services the chat backend is built
    from (AppointmentService, AppointmentSlotManager, CacheService) and of
    the controller that drives them (ChatController.handleMessage), with
    the properties of the specification stated and settled on it.

    Conventions of the embedding.
    - An instant (a JavaScript [Date], or the number [Date.now()] returns)
      is an integer number of milliseconds since the epoch.  An ISO-8601
      string produced by [toISOString] stands for the instant it denotes,
      so a slot key is an instant too.
    - Local time is UTC shifted by a fixed offset [tz] (milliseconds to add
      to UTC); daylight-saving changes are outside the model.
    - Strings are sequences of 8-bit code units read as Latin-1.
    - [Date.now()] is read once per synchronous block of code. *)

From Stdlib Require Import ZArith QArith Lia Ascii String List Bool.
From stdpp Require Import gmap strings list.

Close Scope Q_scope.
Local Open Scope Z_scope.

(* ===================================================================== *)
(** ** JavaScript strings *)
(* ===================================================================== *)

Module JsString.

Definition code (c : ascii) : Z := Z.of_N (N_of_ascii c).

(** [\s] of a regular expression and the characters [trim] removes,
    restricted to Latin-1: TAB, LF, VT, FF, CR, SPACE, NBSP. *)
Definition isWhiteSpace (c : ascii) : bool :=
  let n := code c in
  ((9 <=? n) && (n <=? 13)) || (n =? 32) || (n =? 160).

Definition isDigit (c : ascii) : bool :=
  let n := code c in (48 <=? n) && (n <=? 57).

(** [String.prototype.toLowerCase] on one Latin-1 code unit. *)
Definition lowerChar (c : ascii) : ascii :=
  let n := code c in
  if ((65 <=? n) && (n <=? 90))
     || ((192 <=? n) && (n <=? 222) && negb (n =? 215))
  then ascii_of_N (Z.to_N (n + 32))
  else c.

Fixpoint toLowerCase (s : string) : string :=
  match s with
  | EmptyString => EmptyString
  | String c s' => String (lowerChar c) (toLowerCase s')
  end.

Fixpoint trimStart (s : string) : string :=
  match s with
  | EmptyString => EmptyString
  | String c s' => if isWhiteSpace c then trimStart s' else s
  end.

(** [trimEnd] keeps a character when it is not white space or when
    something that is kept follows it. *)
Fixpoint trimEnd (s : string) : string :=
  match s with
  | EmptyString => EmptyString
  | String c s' =>
      match trimEnd s' with
      | EmptyString => if isWhiteSpace c then EmptyString else String c EmptyString
      | r => String c r
      end
  end.

Definition trim (s : string) : string := trimEnd (trimStart s).

Fixpoint startsWith (s p : string) : bool :=
  match p with
  | EmptyString => true
  | String a p' =>
      match s with
      | EmptyString => false
      | String b s' => if Ascii.eqb a b then startsWith s' p' else false
      end
  end.

(** [s.includes(p)]: [p] occurs in [s] at some position. *)
Fixpoint includes (s p : string) : bool :=
  startsWith s p ||
  match s with
  | EmptyString => false
  | String _ s' => includes s' p
  end.

(** [phrases.some(p => s.includes(p))] *)
Definition includesSome (s : string) (phrases : list string) : bool :=
  existsb (includes s) phrases.

Definition length (s : string) : Z := Z.of_nat (String.length s).

(** [parseInt] on a string of decimal digits. *)
Fixpoint parseDigits (acc : Z) (ds : list ascii) : Z :=
  match ds with
  | [] => acc
  | d :: ds' => parseDigits (10 * acc + (code d - 48)) ds'
  end.

(** [s.replace(/\D/g, '')] *)
Fixpoint digitsOnly (s : string) : string :=
  match s with
  | EmptyString => EmptyString
  | String c s' => if isDigit c then String c (digitsOnly s') else digitsOnly s'
  end.

End JsString.

(* ===================================================================== *)
(** ** JavaScript dates *)
(* ===================================================================== *)

Module JsDate.

Definition msPerSecond : Z := 1000.
Definition msPerMinute : Z := 60000.
Definition msPerHour : Z := 3600000.
Definition msPerDay : Z := 86400000.

Section Local.
(** Offset of the server's zone: local time is [t + tz]. *)
Variable tz : Z.

Definition localTime (t : Z) : Z := t + tz.
Definition utc (l : Z) : Z := l - tz.

Definition Day (l : Z) : Z := l / msPerDay.
Definition TimeWithinDay (l : Z) : Z := l mod msPerDay.

Definition getHours (t : Z) : Z := TimeWithinDay (localTime t) / msPerHour.
Definition getMinutes (t : Z) : Z := (localTime t mod msPerHour) / msPerMinute.
Definition getSeconds (t : Z) : Z := (localTime t mod msPerMinute) / msPerSecond.
Definition getMilliseconds (t : Z) : Z := localTime t mod msPerSecond.

(** 0 is Sunday; the epoch day was a Thursday. *)
Definition getDay (t : Z) : Z := (Day (localTime t) + 4) mod 7.

(** [d.setHours(h, m, s, ms)] *)
Definition setHours (t h m s ms : Z) : Z :=
  utc (Day (localTime t) * msPerDay
       + h * msPerHour + m * msPerMinute + s * msPerSecond + ms).

(** [d.setMinutes(m)]: hour, seconds and milliseconds are kept. *)
Definition setMinutes (t m : Z) : Z :=
  setHours t (getHours t) m (getSeconds t) (getMilliseconds t).

Definition setSeconds (t s : Z) : Z :=
  setHours t (getHours t) (getMinutes t) s (getMilliseconds t).

Definition setMilliseconds (t ms : Z) : Z :=
  setHours t (getHours t) (getMinutes t) (getSeconds t) ms.

(** [d.setDate(d.getDate() + k)]: the day of the month overflows into
    the following months, so the result is [k] days later at the same
    local time. *)
Definition addDays (t k : Z) : Z := t + k * msPerDay.

(** Civil calendar (proleptic Gregorian), months numbered from 0 as
    [getMonth] does. *)
Definition civilFromDays (z0 : Z) : Z * Z * Z :=
  let z := z0 + 719468 in
  let era := z / 146097 in
  let doe := z - era * 146097 in
  let yoe := (doe - doe / 1460 + doe / 36524 - doe / 146096) / 365 in
  let doy := doe - (365 * yoe + yoe / 4 - yoe / 100) in
  let mp := (5 * doy + 2) / 153 in
  let d := doy - (153 * mp + 2) / 5 + 1 in
  let m := if mp <? 10 then mp + 3 else mp - 9 in
  let y := yoe + era * 400 + (if m <=? 2 then 1 else 0) in
  (y, m - 1, d).

(** [MakeDay(year, month, date)]: [month] may lie outside 0..11 and
    [date] outside the month. *)
Definition daysFromCivil (year month date : Z) : Z :=
  let ym := year + month / 12 in
  let m := month mod 12 + 1 in
  let y := if m <=? 2 then ym - 1 else ym in
  let era := y / 400 in
  let yoe := y - era * 400 in
  let mp := if 2 <? m then m - 3 else m + 9 in
  let doy := (153 * mp + 2) / 5 in
  let doe := yoe * 365 + yoe / 4 - yoe / 100 + doy in
  era * 146097 + doe - 719468 + (date - 1).

Definition getFullYear (t : Z) : Z := fst (fst (civilFromDays (Day (localTime t)))).
Definition getMonth (t : Z) : Z := snd (fst (civilFromDays (Day (localTime t)))).
Definition getDate (t : Z) : Z := snd (civilFromDays (Day (localTime t))).

(** [d.setMonth(m)] *)
Definition setMonth (t m : Z) : Z :=
  utc (daysFromCivil (getFullYear t) m (getDate t) * msPerDay
       + TimeWithinDay (localTime t)).
End Local.

End JsDate.

(* ===================================================================== *)
(** ** AppointmentSlotManager *)
(* ===================================================================== *)

Module AppointmentSlotManager.
Import JsDate.

(** A time of day written ['HH:MM'] in the configuration. *)
Record HHMM := { hh : Z; mm : Z }.

Inductive DayHours :=
| closed
| hours (open close : HHMM) (breaks : list (HHMM * HHMM)).

Inductive Weekday :=
| sunday | monday | tuesday | wednesday | thursday | friday | saturday.

Definition noon : HHMM := {| hh := 12; mm := 0 |}.
Definition one : HHMM := {| hh := 13; mm := 0 |}.

Definition businessHours (d : Weekday) : DayHours :=
  match d with
  | monday | tuesday | wednesday | thursday =>
      hours {| hh := 9; mm := 0 |} {| hh := 18; mm := 0 |} [(noon, one)]
  | friday => hours {| hh := 9; mm := 0 |} {| hh := 17; mm := 0 |} [(noon, one)]
  | saturday => hours {| hh := 10; mm := 0 |} {| hh := 14; mm := 0 |} []
  | sunday => closed
  end.

Definition slotDuration : Z := 30.
Definition bufferTime : Z := 10.

(** An entry of the [bookedSlots] map.  [date] is the requested instant
    as given to [reserveSlot], not the rounded slot start. *)
Inductive Booking :=
| reserved (sessionId : string) (expiresAt : Z) (date : Z)
| confirmed (sessionId : string) (date : Z) (confirmedAt : Z).

Definition bookingDate (b : Booking) : Z :=
  match b with
  | reserved _ _ d => d
  | confirmed _ d _ => d
  end.

Definition bookingSession (b : Booking) : string :=
  match b with
  | reserved s _ _ => s
  | confirmed s _ _ => s
  end.

Abbreviation BookedSlots := (gmap Z Booking).

Inductive Veterinarian := DrSmith | DrJohnson | DrWilliams.

Inductive DisplayTime :=
| TodayAt (date : Z)
| TomorrowAt (date : Z)
| OnDate (date : Z).

Record Slot := {
  slotDate : Z;
  displayTime : DisplayTime;
  offsetFromRequested : option Z
}.

Inductive Reason :=
| outside_business_hours
| slot_taken
| too_close_to_existing
| day_fully_booked.

Inductive Message :=
| WeAreClosed (nextOpen : option (Weekday * HHMM * HHMM))
| AlreadyBooked
| TooClose
| FullyBooked.

(** The object [checkAvailability] resolves to. *)
Inductive Availability :=
| Unavailable (reason : Reason) (message : Message) (suggestedSlots : list Slot)
| AvailableAt (date : Z) (duration : Z) (veterinarian : Veterinarian).

(** An [async] method hands its caller a promise; [await] takes the
    settled value out of it, and reading a property off the promise
    itself finds nothing ([undefined]). *)
Inductive JsValue (A : Type) :=
| Obj (a : A)
| PromiseOf (settled : A).
Arguments Obj {A} a.
Arguments PromiseOf {A} settled.

Definition await {A} (v : JsValue A) : A :=
  match v with
  | Obj a => a
  | PromiseOf a => a
  end.

Definition available (r : Availability) : bool :=
  match r with
  | AvailableAt _ _ _ => true
  | Unavailable _ _ _ => false
  end.

(** [v.available]; [None] is [undefined]. *)
Definition prop_available (v : JsValue Availability) : option bool :=
  match v with
  | Obj r => Some (available r)
  | PromiseOf _ => None
  end.

Definition truthy (v : option bool) : bool :=
  match v with
  | Some b => b
  | None => false
  end.

(** The callback [reserveSlot] hands to [setTimeout]. *)
Record Timer := { delay : Z; timerSlotKey : Z; timerSessionId : string }.

Section Zone.
Variable tz : Z.

Definition getDayName (date : Z) : Weekday :=
  match getDay tz date with
  | 0 => sunday
  | 1 => monday
  | 2 => tuesday
  | 3 => wednesday
  | 4 => thursday
  | 5 => friday
  | _ => saturday
  end.

Definition getTimeString (date : Z) : HHMM :=
  {| hh := getHours tz date; mm := getMinutes tz date |}.

Definition timeToMinutes (timeStr : HHMM) : Z := hh timeStr * 60 + mm timeStr.

Definition isBusinessHour (dayName : Weekday) (timeStr : HHMM) : bool :=
  match businessHours dayName with
  | closed => false
  | hours open close breaks =>
      let requestedMinutes := timeToMinutes timeStr in
      let openMinutes := timeToMinutes open in
      let closeMinutes := timeToMinutes close in
      if (requestedMinutes <? openMinutes) || (closeMinutes <=? requestedMinutes)
      then false
      else
        if existsb (fun breakPeriod : HHMM * HHMM =>
                      (timeToMinutes (fst breakPeriod) <=? requestedMinutes)
                      && (requestedMinutes <? timeToMinutes (snd breakPeriod)))
                   breaks
        then false
        else true
  end.

Definition getSlotKey (date : Z) : Z :=
  let roundedDate := setMinutes tz date (getMinutes tz date / 30 * 30) in
  let roundedDate := setSeconds tz roundedDate 0 in
  setMilliseconds tz roundedDate 0.

(** [isSlotBooked] forgets a reservation it finds expired. *)
Definition isSlotBooked (now : Z) (bookedSlots : BookedSlots) (slotKey : Z)
  : bool * BookedSlots :=
  match bookedSlots !! slotKey with
  | None => (false, bookedSlots)
  | Some (reserved _ expiresAt _) =>
      if expiresAt <? now then (false, delete slotKey bookedSlots)
      else (true, bookedSlots)
  | Some (confirmed _ _ _) => (true, bookedSlots)
  end.

(** Both kinds of entry count; the expiry of a reservation is not
    looked at here. *)
Definition overlaps (date : Z) (booking : Booking) : bool :=
  let checkStart := date - bufferTime * 60000 in
  let checkEnd := date + (slotDuration + bufferTime) * 60000 in
  let bookedDate := bookingDate booking in
  let bookedEnd := bookedDate + slotDuration * 60000 in
  (checkStart <? bookedEnd) && (bookedDate <? checkEnd).

Definition hasConflictWithBuffer (bookedSlots : BookedSlots) (date : Z) : bool :=
  existsb (fun kb : Z * Booking => overlaps date (snd kb)) (map_to_list bookedSlots).

Definition getDailyAppointmentCount (bookedSlots : BookedSlots) (date : Z) : Z :=
  let dayStart := setHours tz date 0 0 0 0 in
  let dayEnd := setHours tz date 23 59 59 999 in
  Z.of_nat (length (filter (fun kb : Z * Booking =>
               dayStart <= bookingDate (snd kb) /\ bookingDate (snd kb) <= dayEnd)
             (map_to_list bookedSlots))).

Definition assignVeterinarian (date : Z) : Veterinarian :=
  match getDate tz date mod 3 with
  | 0 => DrSmith
  | 1 => DrJohnson
  | _ => DrWilliams
  end.

Definition formatDisplayTime (now date : Z) : DisplayTime :=
  let diffDays := (date - now) / (1000 * 60 * 60 * 24) in
  if diffDays =? 0 then TodayAt date
  else if diffDays =? 1 then TomorrowAt date
  else OnDate date.

(** The text after "We're closed at that time.": the next open day
    when the day itself is closed, the day's own hours otherwise
    ([None]). *)
Definition getSuggestedTimes (date : Z) : option (Weekday * HHMM * HHMM) :=
  match businessHours (getDayName date) with
  | closed =>
      let openDay (i : Z) :=
        let nextDay := getDayName (addDays date i) in
        match businessHours nextDay with
        | closed => None
        | hours open close _ => Some (nextDay, open, close)
        end in
      head (omap openDay [1; 2; 3; 4; 5; 6; 7])
  | hours open close _ => Some (getDayName date, open, close)
  end.

(** The four checks of [checkAvailability], in source order, with the
    map as [isSlotBooked] leaves it. *)
Inductive Check := closedThen | taken | tooClose | dayFull | free.

Definition checks (now : Z) (bookedSlots : BookedSlots) (date : Z)
  : Check * BookedSlots :=
  let dayName := getDayName date in
  let timeStr := getTimeString date in
  if negb (isBusinessHour dayName timeStr) then (closedThen, bookedSlots)
  else
    let slotKey := getSlotKey date in
    let (booked, bookedSlots) := isSlotBooked now bookedSlots slotKey in
    if booked then (taken, bookedSlots)
    else if hasConflictWithBuffer bookedSlots date then (tooClose, bookedSlots)
    else
      let dailyCount := getDailyAppointmentCount bookedSlots date in
      if 20 <=? dailyCount then (dayFull, bookedSlots)
      else (free, bookedSlots).

Definition searchOffsets : list Z :=
  [30; -30; 60; -60; 90; -90; 120; -120;
   24 * 60; -24 * 60; 48 * 60; -48 * 60].

Section Probing.
(** The availability check the two suggestion loops call.  It may
    fail to return ([None]). *)
Variable check : BookedSlots -> Z -> option (JsValue Availability * BookedSlots).
Variable now : Z.

(** The [for] loop of [getNearbyAvailableSlots].  The value of
    [this.checkAvailability(testDate)] is used as it comes, without
    [await]. *)
Fixpoint nearbyLoop (count : nat) (baseDate : Z) (offsets : list Z)
         (slots : list Slot) (bookedSlots : BookedSlots)
  : option (list Slot * BookedSlots) :=
  match offsets with
  | [] => Some (slots, bookedSlots)
  | offsetMinutes :: rest =>
      if (count <=? length slots)%nat then Some (slots, bookedSlots)
      else
        let testDate := baseDate + offsetMinutes * 60000 in
        match check bookedSlots testDate with
        | None => None
        | Some (availability, bookedSlots) =>
            if truthy (prop_available availability)
            then nearbyLoop count baseDate rest
                   (slots ++ [{| slotDate := testDate;
                                 displayTime := formatDisplayTime now testDate;
                                 offsetFromRequested := Some offsetMinutes |}])
                   bookedSlots
            else nearbyLoop count baseDate rest slots bookedSlots
        end
  end.

Definition getNearbyAvailableSlots (requestedDate : Z) (count : nat)
           (bookedSlots : BookedSlots) : option (list Slot * BookedSlots) :=
  nearbyLoop count requestedDate searchOffsets [] bookedSlots.

(** The [while] loop of [getNextAvailableSlots]; [turns] bounds the
    number of iterations the model follows. *)
Fixpoint nextLoop (turns : nat) (count : nat) (testDate : Z)
         (slots : list Slot) (bookedSlots : BookedSlots)
  : option (list Slot * BookedSlots) :=
  match turns with
  | O => None
  | S turns =>
      if (count <=? length slots)%nat then Some (slots, bookedSlots)
      else
        let testDate := setMinutes tz testDate (getMinutes tz testDate + 30) in
        let testDate :=
          if 18 <=? getHours tz testDate
          then setHours tz (addDays testDate 1) 9 0 0 0
          else testDate in
        match check bookedSlots testDate with
        | None => None
        | Some (availability, bookedSlots) =>
            if truthy (prop_available availability)
            then nextLoop turns count testDate
                   (slots ++ [{| slotDate := testDate;
                                 displayTime := formatDisplayTime now testDate;
                                 offsetFromRequested := None |}])
                   bookedSlots
            else nextLoop turns count testDate slots bookedSlots
        end
  end.

Definition getNextAvailableSlots (turns : nat) (date : Z) (count : nat)
           (bookedSlots : BookedSlots) : option (list Slot * BookedSlots) :=
  nextLoop turns count date [] bookedSlots.

Definition getNextDaySlots (turns : nat) (date : Z) (bookedSlots : BookedSlots)
  : option (list Slot * BookedSlots) :=
  let nextDay := setHours tz (addDays date 1) 9 0 0 0 in
  getNextAvailableSlots turns nextDay 3 bookedSlots.
End Probing.

(** [checkAvailability].  [fuel] bounds the depth of calls (an
    unavailable instant makes the method call itself through the
    suggestion loops) and the turns of a [while] loop; [None] is a
    run that has not returned within it. *)
Fixpoint checkAvailability (fuel : nat) (now : Z) (bookedSlots : BookedSlots)
         (requestedDate : Z) : option (JsValue Availability * BookedSlots) :=
  match fuel with
  | O => None
  | S fuel =>
      let date := requestedDate in
      let unavailable reason message suggested :=
        match suggested with
        | None => None
        | Some (suggestedSlots, bookedSlots) =>
            Some (PromiseOf (Unavailable reason message suggestedSlots), bookedSlots)
        end in
      match checks now bookedSlots date with
      | (closedThen, bookedSlots) =>
          unavailable outside_business_hours (WeAreClosed (getSuggestedTimes date))
            (getNextAvailableSlots (checkAvailability fuel now) now fuel date 3 bookedSlots)
      | (taken, bookedSlots) =>
          unavailable slot_taken AlreadyBooked
            (getNearbyAvailableSlots (checkAvailability fuel now) now date 3 bookedSlots)
      | (tooClose, bookedSlots) =>
          unavailable too_close_to_existing TooClose
            (getNearbyAvailableSlots (checkAvailability fuel now) now date 3 bookedSlots)
      | (dayFull, bookedSlots) =>
          unavailable day_fully_booked FullyBooked
            (getNextDaySlots (checkAvailability fuel now) now fuel date bookedSlots)
      | (free, bookedSlots) =>
          Some (PromiseOf (AvailableAt date slotDuration (assignVeterinarian date)),
                bookedSlots)
      end
  end.

Definition reserveSlot (now : Z) (bookedSlots : BookedSlots) (date : Z)
           (sessionId : string) : Z * BookedSlots * Timer :=
  let slotKey := getSlotKey date in
  (slotKey,
   <[slotKey := reserved sessionId (now + 5 * 60 * 1000) date]> bookedSlots,
   {| delay := 5 * 60 * 1000; timerSlotKey := slotKey; timerSessionId := sessionId |}).

(** [None] is the thrown [Error('Invalid or expired reservation')]. *)
Definition confirmReservation (now : Z) (bookedSlots : BookedSlots) (slotKey : Z)
           (sessionId : string) : option BookedSlots :=
  match bookedSlots !! slotKey with
  | None => None
  | Some reservation =>
      if negb (String.eqb (bookingSession reservation) sessionId) then None
      else Some (<[slotKey := confirmed sessionId (bookingDate reservation) now]>
                   bookedSlots)
  end.

Definition releaseReservation (bookedSlots : BookedSlots) (slotKey : Z)
           (sessionId : string) : BookedSlots :=
  match bookedSlots !! slotKey with
  | Some (reserved owner _ _) =>
      if String.eqb owner sessionId then delete slotKey bookedSlots else bookedSlots
  | _ => bookedSlots
  end.

Definition fire (t : Timer) (bookedSlots : BookedSlots) : BookedSlots :=
  releaseReservation bookedSlots (timerSlotKey t) (timerSessionId t).

(** One run of the hourly callback of [startCleanupInterval]. *)
Definition removedBySweep (now : Z) (booking : Booking) : bool :=
  let oneDayAgo := now - 24 * 60 * 60 * 1000 in
  (bookingDate booking <? oneDayAgo)
  || match booking with
     | reserved _ expiresAt _ => expiresAt <? now
     | confirmed _ _ _ => false
     end.

Definition startCleanupInterval (now : Z) (bookedSlots : BookedSlots) : BookedSlots :=
  filter (fun kb : Z * Booking => removedBySweep now (snd kb) = false) bookedSlots.

(** [getStatistics()] *)
Record Statistics := {
  totalSlots : Z;
  confirmedCount : Z;
  reservedCount : Z;
  todayCount : Z
}.

Definition isConfirmed (booking : Booking) : bool :=
  match booking with
  | confirmed _ _ _ => true
  | reserved _ _ _ => false
  end.

Definition isReserved (booking : Booking) : bool :=
  match booking with
  | reserved _ _ _ => true
  | confirmed _ _ _ => false
  end.

Definition countWhere (p : Booking -> bool) (bookedSlots : BookedSlots) : Z :=
  Z.of_nat (length (List.filter (fun kb : Z * Booking => p (snd kb))
                                (map_to_list bookedSlots))).

Definition getStatistics (now : Z) (bookedSlots : BookedSlots) : Statistics :=
  let today := setHours tz now 0 0 0 0 in
  let tomorrow := addDays today 1 in
  {| totalSlots := Z.of_nat (size bookedSlots);
     confirmedCount := countWhere isConfirmed bookedSlots;
     reservedCount := countWhere isReserved bookedSlots;
     todayCount :=
       countWhere (fun booking => (today <=? bookingDate booking)
                                  && (bookingDate booking <? tomorrow))
                  bookedSlots |}.
End Zone.

End AppointmentSlotManager.

(* ===================================================================== *)
(** ** AppointmentService *)
(* ===================================================================== *)

Module AppointmentService.
Import JsString JsDate.
Local Open Scope string_scope.
Local Open Scope Z_scope.

Inductive AppointmentState :=
| NONE | ASK_OWNER_NAME | ASK_PET_NAME | ASK_PHONE | ASK_DATE_TIME
| CONFIRMATION | COMPLETED.

(** [conversation.appointmentData]; an absent property is [None]. *)
Record AppointmentData := {
  ownerName : option string;
  petName : option string;
  phone : option string;
  preferredDateTime : option string;
  appointmentDate : option Z;
  slotKey : option Z
}.

(** The object [{}]. *)
Definition noData : AppointmentData :=
  {| ownerName := None; petName := None; phone := None;
     preferredDateTime := None; appointmentDate := None; slotKey := None |}.

Definition bookingPhrases : list string :=
  [ "book an appointment"; "book appointment"; "schedule appointment";
    "make appointment"; "book a visit"; "schedule a visit"; "see a vet";
    "visit vet"; "need appointment"; "want appointment"; "appointment please";
    "book consultation"; "schedule consultation"; "need to see vet";
    "want to see vet"; "i want to book"; "i need to book"; "can i book";
    "like to book"; "make a booking"; "schedule vet" ].

Definition detectBookingIntent (message : string) : bool :=
  let lowerMessage := toLowerCase message in
  includesSome lowerMessage bookingPhrases.

Definition cancelPhrases : list string :=
  [ "cancel"; "stop"; "nevermind"; "forget it"; "exit" ].

Definition detectCancelIntent (message : string) : bool :=
  let lowerMessage := toLowerCase message in
  includesSome lowerMessage cancelPhrases.

(** The fixed texts of the service, by what they say. *)
Inductive Question :=
| MayIHaveYourFullName
| WhatIsYourPetsName
| BestPhoneNumber
| WhenWouldYouPrefer
| ConfirmDetails (data : AppointmentData)
| SuccessfullyBooked.

Inductive ErrorMessage :=
| ProvideValidName
| ProvidePetName
| ProvideTenDigitPhone
| ProvideDateAndTime
| ProvideValidDate
| SelectFutureDate
| UpToSixMonths
| TypeYesOrNo.

Definition getNextQuestion (state : AppointmentState) (appointmentData : AppointmentData)
  : option (Question * AppointmentState) :=
  match state with
  | ASK_OWNER_NAME => Some (MayIHaveYourFullName, ASK_PET_NAME)
  | ASK_PET_NAME => Some (WhatIsYourPetsName, ASK_PHONE)
  | ASK_PHONE => Some (BestPhoneNumber, ASK_DATE_TIME)
  | ASK_DATE_TIME => Some (WhenWouldYouPrefer, CONFIRMATION)
  | CONFIRMATION => Some (ConfirmDetails appointmentData, COMPLETED)
  | COMPLETED => Some (SuccessfullyBooked, NONE)
  | NONE => None
  end.

(** [inl cleaned] when valid, [inr message] otherwise. *)
Definition validatePhone (phone : string) : string + ErrorMessage :=
  let cleaned := digitsOnly phone in
  if negb (length cleaned =? 10) then inr ProvideTenDigitPhone
  else inl cleaned.

(** *** The time pattern [/(\d{1,2})(?::(\d{2}))?\s*(am|pm)/i] *)

Fixpoint skipWhiteSpace (l : list ascii) : list ascii :=
  match l with
  | c :: l' => if isWhiteSpace c then skipWhiteSpace l' else l
  | [] => []
  end.

(** [(am|pm)] at the head of [l], ignoring case; [true] is pm. *)
Definition meridiemAt (l : list ascii) : option bool :=
  match l with
  | c1 :: c2 :: _ =>
      if (code c2 =? 109) || (code c2 =? 77) then
        if (code c1 =? 97) || (code c1 =? 65) then Some false
        else if (code c1 =? 112) || (code c1 =? 80) then Some true
        else None
      else None
  | _ => None
  end.

(** What may follow the hour digits: the minutes group is tried first
    and given up when the rest fails with it. *)
Definition afterHour (hourDigits : list ascii) (rest : list ascii)
  : option (Z * option Z * bool) :=
  let withMinutes :=
    match rest with
    | colon :: m1 :: m2 :: rest' =>
        if (code colon =? 58) && isDigit m1 && isDigit m2 then
          match meridiemAt (skipWhiteSpace rest') with
          | Some pm => Some (parseDigits 0 hourDigits, Some (parseDigits 0 [m1; m2]), pm)
          | None => None
          end
        else None
    | _ => None
    end in
  match withMinutes with
  | Some r => Some r
  | None =>
      match meridiemAt (skipWhiteSpace rest) with
      | Some pm => Some (parseDigits 0 hourDigits, None, pm)
      | None => None
      end
  end.

(** A match starting at the head of [l]: two hour digits are tried
    before one. *)
Definition matchTimeAt (l : list ascii) : option (Z * option Z * bool) :=
  match l with
  | d1 :: rest =>
      if isDigit d1 then
        match rest with
        | d2 :: rest' =>
            if isDigit d2 then
              match afterHour [d1; d2] rest' with
              | Some r => Some r
              | None => afterHour [d1] rest
              end
            else afterHour [d1] rest
        | [] => None
        end
      else None
  | [] => None
  end.

(** The leftmost match. *)
Fixpoint searchTime (l : list ascii) : option (Z * option Z * bool) :=
  match matchTimeAt l with
  | Some r => Some r
  | None =>
      match l with
      | [] => None
      | _ :: l' => searchTime l'
      end
  end.

Definition timeMatch (lowerStr : string) : option (Z * option Z * bool) :=
  searchTime (list_ascii_of_string lowerStr).

Definition days : list string :=
  [ "sunday"; "monday"; "tuesday"; "wednesday"; "thursday"; "friday"; "saturday" ].

(** The first day of [days] the text mentions. *)
Fixpoint findTargetDay (lowerStr : string) (i : Z) (names : list string) : option Z :=
  match names with
  | [] => None
  | name :: rest =>
      if includes lowerStr name then Some i
      else findTargetDay lowerStr (i + 1) rest
  end.

Inductive DateValidation :=
| invalid (message : ErrorMessage)
| valid (date : Z) (formatted : string).

Section Zone.
Variable tz : Z.
(** [new Date(text)] for free text, [None] being an invalid date, and
    [toLocaleDateString('en-US', options)]: both belong to the
    JavaScript runtime. *)
Variable parseDate : string -> option Z.
Variable toLocaleDateString : Z -> string.

(** The "extract time if provided" block the three branches share. *)
Definition withTime (lowerStr : string) (inputDate : Z) (otherwise : Z) : Z :=
  match timeMatch lowerStr with
  | Some (hours, minutes, pm) =>
      let minutes := match minutes with Some m => m | None => 0 end in
      let hours := if pm && negb (hours =? 12) then hours + 12 else hours in
      let hours := if negb pm && (hours =? 12) then 0 else hours in
      setHours tz inputDate hours minutes 0 0
  | None => otherwise
  end.

Definition validateDateTime (now : Z) (dateTimeStr : string) : DateValidation :=
  let lowerStr := trim (toLowerCase dateTimeStr) in
  let inputDate : option Z :=
    if includes lowerStr "tomorrow" then
      let inputDate := addDays now 1 in
      Some (withTime lowerStr inputDate (setHours tz inputDate 10 0 0 0))
    else if includes lowerStr "next" then
      match findTargetDay lowerStr 0 days with
      | Some targetDay =>
          let currentDay := getDay tz now in
          let daysToAdd := targetDay - currentDay in
          let daysToAdd := if daysToAdd <=? 0 then daysToAdd + 7 else daysToAdd in
          let inputDate := addDays now daysToAdd in
          Some (withTime lowerStr inputDate (setHours tz inputDate 10 0 0 0))
      | None => parseDate dateTimeStr
      end
    else if includes lowerStr "today" then
      let inputDate := now in
      Some (withTime lowerStr inputDate
              (setHours tz inputDate (getHours tz inputDate + 2) 0 0 0))
    else parseDate dateTimeStr in
  match inputDate with
  | None => invalid ProvideValidDate
  | Some inputDate =>
      if inputDate <=? now then invalid SelectFutureDate
      else
        let sixMonthsFromNow := setMonth tz now (getMonth tz now + 6) in
        if sixMonthsFromNow <? inputDate then invalid UpToSixMonths
        else valid inputDate (toLocaleDateString inputDate)
  end.

Record BookingResponse := {
  data : AppointmentData;
  isValid : bool;
  errorMessage : option ErrorMessage;
  confirmedFlag : bool;
  cancelledFlag : bool
}.

Definition accepted (d : AppointmentData) : BookingResponse :=
  {| data := d; isValid := true; errorMessage := None;
     confirmedFlag := false; cancelledFlag := false |}.

Definition rejected (d : AppointmentData) (m : ErrorMessage) : BookingResponse :=
  {| data := d; isValid := false; errorMessage := Some m;
     confirmedFlag := false; cancelledFlag := false |}.

Definition processBookingResponse (now : Z) (state : AppointmentState)
           (userMessage : string) (appointmentData : AppointmentData)
  : BookingResponse :=
  let d := appointmentData in
  match state with
  | ASK_PET_NAME =>
      if length (trim userMessage) <? 2 then rejected d ProvideValidName
      else accepted {| ownerName := Some (trim userMessage); petName := petName d;
                       phone := phone d; preferredDateTime := preferredDateTime d;
                       appointmentDate := appointmentDate d; slotKey := slotKey d |}
  | ASK_PHONE =>
      if length (trim userMessage) <? 1 then rejected d ProvidePetName
      else accepted {| ownerName := ownerName d; petName := Some (trim userMessage);
                       phone := phone d; preferredDateTime := preferredDateTime d;
                       appointmentDate := appointmentDate d; slotKey := slotKey d |}
  | ASK_DATE_TIME =>
      match validatePhone userMessage with
      | inr message => rejected d message
      | inl cleaned =>
          accepted {| ownerName := ownerName d; petName := petName d;
                      phone := Some cleaned; preferredDateTime := preferredDateTime d;
                      appointmentDate := appointmentDate d; slotKey := slotKey d |}
      end
  | CONFIRMATION =>
      let dateTimeInput := trim userMessage in
      if length dateTimeInput <? 3 then rejected d ProvideDateAndTime
      else
        match validateDateTime now dateTimeInput with
        | invalid message => rejected d message
        | valid date formatted =>
            accepted {| ownerName := ownerName d; petName := petName d;
                        phone := phone d; preferredDateTime := Some formatted;
                        appointmentDate := Some date; slotKey := slotKey d |}
        end
  | COMPLETED =>
      let lowerMessage := trim (toLowerCase userMessage) in
      if String.eqb lowerMessage "yes" || String.eqb lowerMessage "confirm"
         || String.eqb lowerMessage "y"
      then {| data := d; isValid := true; errorMessage := None;
              confirmedFlag := true; cancelledFlag := false |}
      else if String.eqb lowerMessage "no" || String.eqb lowerMessage "cancel"
              || String.eqb lowerMessage "n"
      then {| data := noData; isValid := true; errorMessage := None;
              confirmedFlag := false; cancelledFlag := true |}
      else rejected d TypeYesOrNo
  | _ => accepted d
  end.
End Zone.

End AppointmentService.

(* ===================================================================== *)
(** ** ChatController *)
(* ===================================================================== *)

Module ChatController.
Import JsString JsDate AppointmentService.
Module SlotManager := AppointmentSlotManager.
Local Open Scope string_scope.
Local Open Scope Z_scope.

(** What the bot says, by which text of the handler it is. *)
Inductive BotResponse :=
| BookingCancelled
| BookingCancelledAtConfirmation
| AppointmentBooked
| PleaseTypeYesOrNo
| Invalid (message : option ErrorMessage)
| Ask (question : Question)
| Suggest (message : SlotManager.Message) (suggestedSlots : list SlotManager.Slot)
| Answer (text : string).

Inductive ChatMessage :=
| user (content : string)
| bot (content : BotResponse).

Record Conversation := {
  sessionId : string;
  messages : list ChatMessage;
  appointmentState : AppointmentState;
  appointmentData : AppointmentData
}.

(** The [Appointment] document; its status defaults to pending. *)
Record Appointment := {
  apptSessionId : string;
  apptOwnerName : string;
  apptPetName : string;
  apptPhone : string;
  apptPreferredDateTime : string
}.

(** What the process shares between requests: the slot manager's map,
    the releases it has scheduled (with the time of scheduling), and the
    appointments collection. *)
Record World := {
  bookedSlots : gmap Z SlotManager.Booking;
  timers : list (Z * SlotManager.Timer);
  appointments : list Appointment
}.

Inductive Response :=
| json (sessionId : string) (message : BotResponse) (appointmentState : AppointmentState)
| status400
| status500.

(** [saved] is the conversation handed to [conversation.save()], if the
    handler got that far. *)
Record Outcome := {
  response : Response;
  saved : option Conversation;
  world : World
}.

Definition setState (c : Conversation) (s : AppointmentState) : Conversation :=
  {| sessionId := sessionId c; messages := messages c;
     appointmentState := s; appointmentData := appointmentData c |}.

Definition setData (c : Conversation) (d : AppointmentData) : Conversation :=
  {| sessionId := sessionId c; messages := messages c;
     appointmentState := appointmentState c; appointmentData := d |}.

Definition push (c : Conversation) (m : ChatMessage) : Conversation :=
  {| sessionId := sessionId c; messages := messages c ++ [m];
     appointmentState := appointmentState c; appointmentData := appointmentData c |}.

Definition setSlotKey (d : AppointmentData) (k : Z) : AppointmentData :=
  {| ownerName := ownerName d; petName := petName d; phone := phone d;
     preferredDateTime := preferredDateTime d;
     appointmentDate := appointmentDate d; slotKey := Some k |}.

Definition setBookedSlots (w : World) (b : gmap Z SlotManager.Booking) : World :=
  {| bookedSlots := b; timers := timers w; appointments := appointments w |}.

(** [messages.slice(-10)] *)
Definition lastTen (l : list ChatMessage) : list ChatMessage :=
  skipn (List.length l - 10) l.

(** [new Appointment({sessionId, ...appointmentData})] followed by
    [save()]: the schema requires the four texts, and a required text
    may not be empty. *)
Definition newAppointment (sid : string) (d : AppointmentData) : option Appointment :=
  match ownerName d, petName d, phone d, preferredDateTime d with
  | Some o, Some p, Some ph, Some w =>
      if String.eqb sid "" || String.eqb o "" || String.eqb p ""
         || String.eqb ph "" || String.eqb w ""
      then None
      else Some {| apptSessionId := sid; apptOwnerName := o; apptPetName := p;
                   apptPhone := ph; apptPreferredDateTime := w |}
  | _, _, _, _ => None
  end.

(** How the middle of the handler ends: with a reply to send, with an
    exception (answered 500 by the [catch]), or not at all. *)
Inductive Handled :=
| replied (botResponse : BotResponse) (newAppointmentState : AppointmentState)
          (conversation : Conversation) (w : World)
| threw (w : World)
| running.

Definition isNone (s : AppointmentState) : bool :=
  match s with NONE => true | _ => false end.

Definition isCompleted (s : AppointmentState) : bool :=
  match s with COMPLETED => true | _ => false end.

Definition isConfirmation (s : AppointmentState) : bool :=
  match s with CONFIRMATION => true | _ => false end.

Section Handler.
Variable tz : Z.
Variable parseDate : string -> option Z.
Variable toLocaleDateString : Z -> string.
(** [uuidv4()] *)
Variable uuidv4 : string.
(** The question-and-answer path ([CacheService.findSimilar], then
    [CacheService.get] around the text generator) as the handler sees
    it: the reply text, or a failure. *)
Variable answerQuestion : string -> list ChatMessage -> option string.

(** The [COMPLETED] step: waiting for yes or no. *)
Definition handleCompleted (now : Z) (sid : string) (message : string)
           (conversation : Conversation) (w : World) : Handled :=
  let lowerMessage := trim (toLowerCase message) in
  if String.eqb lowerMessage "yes" || String.eqb lowerMessage "confirm"
     || String.eqb lowerMessage "y"
  then
    let confirmation :=
      match slotKey (appointmentData conversation) with
      | Some key =>
          SlotManager.confirmReservation now (bookedSlots w) key sid
      | None => Some (bookedSlots w)
      end in
    match confirmation with
    | None => threw w
    | Some booked =>
        let w := setBookedSlots w booked in
        match newAppointment sid (appointmentData conversation) with
        | None => threw w
        | Some appointment =>
            let w := {| bookedSlots := bookedSlots w; timers := timers w;
                        appointments := appointments w ++ [appointment] |} in
            replied AppointmentBooked (appointmentState conversation)
                    (setState conversation NONE) w
        end
    end
  else if String.eqb lowerMessage "no" || String.eqb lowerMessage "cancel"
          || String.eqb lowerMessage "n"
  then
    replied BookingCancelledAtConfirmation (appointmentState conversation)
            (setData (setState conversation NONE) noData) w
  else
    replied PleaseTypeYesOrNo (appointmentState conversation) conversation w.

Definition askNext (conversation : Conversation) (w : World) : Handled :=
  match getNextQuestion (appointmentState conversation) (appointmentData conversation) with
  | None => threw w
  | Some (question, nextState) =>
      replied (Ask question) nextState (setState conversation nextState) w
  end.

(** The other steps of the flow. *)
Definition handleBooking (fuel : nat) (now : Z) (sid : string) (message : string)
           (conversation : Conversation) (w : World) : Handled :=
  let bookingResponse :=
    processBookingResponse tz parseDate toLocaleDateString now
      (appointmentState conversation) message (appointmentData conversation) in
  if negb (isValid bookingResponse) then
    replied (Invalid (errorMessage bookingResponse))
            (appointmentState conversation) conversation w
  else
    let conversation := setData conversation (data bookingResponse) in
    match isConfirmation (appointmentState conversation),
          appointmentDate (data bookingResponse) with
    | true, Some date =>
        match SlotManager.checkAvailability tz fuel now (bookedSlots w) date with
        | None => running
        | Some (promise, booked) =>
            let w := setBookedSlots w booked in
            match SlotManager.await promise with
            | SlotManager.Unavailable _ text suggestedSlots =>
                replied (Suggest text suggestedSlots)
                        (appointmentState conversation) conversation w
            | SlotManager.AvailableAt _ _ _ =>
                let '(key, booked, timer) :=
                  SlotManager.reserveSlot tz now (bookedSlots w) date sid in
                let w := {| bookedSlots := booked;
                            timers := timers w ++ [(now, timer)];
                            appointments := appointments w |} in
                let conversation :=
                  setData conversation (setSlotKey (appointmentData conversation) key) in
                askNext conversation w
            end
        end
    | _, _ => askNext conversation w
    end.

Definition handleMessage (fuel : nat) (now : Z) (found : option Conversation)
           (message : string) (providedSessionId : option string) (w : World)
  : option Outcome :=
  if String.eqb message "" || (length (trim message) =? 0) then
    Some {| response := status400; saved := None; world := w |}
  else
    let sid :=
      match providedSessionId with
      | Some s => if String.eqb s "" then uuidv4 else s
      | None => uuidv4
      end in
    let conversation :=
      match found with
      | Some c => c
      | None => {| sessionId := sid; messages := [];
                   appointmentState := NONE; appointmentData := noData |}
      end in
    let conversation := push conversation (user message) in
    if negb (isNone (appointmentState conversation))
       && negb (isCompleted (appointmentState conversation))
       && detectCancelIntent message
    then
      let conversation := setData (setState conversation NONE) noData in
      let conversation := push conversation (bot BookingCancelled) in
      Some {| response := json sid BookingCancelled NONE;
              saved := Some conversation; world := w |}
    else
      let handled :=
        if negb (isNone (appointmentState conversation)) then
          if isCompleted (appointmentState conversation)
          then handleCompleted now sid message conversation w
          else handleBooking fuel now sid message conversation w
        else if detectBookingIntent message then
          match getNextQuestion ASK_OWNER_NAME noData with
          | None => threw w
          | Some (question, nextState) =>
              replied (Ask question) nextState (setState conversation nextState) w
          end
        else
          match answerQuestion message (lastTen (messages conversation)) with
          | None => threw w
          | Some text =>
              replied (Answer text) (appointmentState conversation) conversation w
          end in
      match handled with
      | running => None
      | threw w => Some {| response := status500; saved := None; world := w |}
      | replied botResponse newAppointmentState conversation w =>
          let conversation := push conversation (bot botResponse) in
          Some {| response := json sid botResponse newAppointmentState;
                  saved := Some conversation; world := w |}
      end.

(** What [conversation.save()] keeps: the schema of the Conversation
    model lists four texts under [appointmentData]; [appointmentDate]
    and [slotKey] are not paths of the schema and are not stored. *)
Definition stored (c : Conversation) : Conversation :=
  setData c {| ownerName := ownerName (appointmentData c);
               petName := petName (appointmentData c);
               phone := phone (appointmentData c);
               preferredDateTime := preferredDateTime (appointmentData c);
               appointmentDate := None; slotKey := None |}.

(** A session talking to the server: each turn is a time and a
    message; the conversation found at a turn is what the turn before
    it stored. *)
Fixpoint converse (fuel : nat) (sid : string) (turns : list (Z * string))
         (found : option Conversation) (w : World)
  : option (option Conversation * World) :=
  match turns with
  | [] => Some (found, w)
  | (now, message) :: rest =>
      match handleMessage fuel now found message (Some sid) w with
      | None => None
      | Some o =>
          converse fuel sid rest
            (match saved o with Some c => Some (stored c) | None => found end)
            (world o)
      end
  end.
End Handler.

End ChatController.

(* ===================================================================== *)
(** ** CacheService *)
(* ===================================================================== *)

Module CacheService.
Import JsString.

(** *** String similarity *)

(** [row[j] = v] on a JavaScript array: an index inside the array is
    overwritten, the index just past its end extends it.  (Indices
    further out, which would leave holes, do not occur below; they are
    padded with 0 here.) *)
Definition arraySet (row : list nat) (j : nat) (v : nat) : list nat :=
  if (j <? List.length row)%nat then <[j := v]> row
  else row ++ repeat 0%nat (j - List.length row) ++ [v].

Definition matrixGet (matrix : list (list nat)) (i j : nat) : nat :=
  nth j (nth i matrix []) 0%nat.

Definition matrixSet (matrix : list (list nat)) (i j : nat) (v : nat)
  : list (list nat) :=
  <[i := arraySet (nth i matrix []) j v]> matrix.

(** [s.charAt(k)]; [None] is the empty string an index outside [s]
    gives. *)
Definition charAt (s : list ascii) (k : nat) : option ascii := nth_error s k.

Definition sameChar (a b : option ascii) : bool :=
  match a, b with
  | Some x, Some y => Ascii.eqb x y
  | None, None => true
  | _, _ => false
  end.

Definition min3 (a b c : nat) : nat := Nat.min (Nat.min a b) c.

Section Distance.
Variables str1 str2 : list ascii.

Definition len1 : nat := List.length str1.
Definition len2 : nat := List.length str2.

(** "Initialize matrix" *)
Definition initialMatrix : list (list nat) :=
  let matrix := map (fun i => [i]) (seq 0 (S len2)) in
  fold_left (fun matrix j => matrixSet matrix 0 j j) (seq 0 (S len1)) matrix.

(** The body of the inner loop. *)
Definition step (i : nat) (matrix : list (list nat)) (j : nat) : list (list nat) :=
  if sameChar (charAt str2 (i - 1)) (charAt str1 (j - 1))
  then matrixSet matrix i j (matrixGet matrix (i - 1) (j - 1))
  else matrixSet matrix i j
         (min3 (matrixGet matrix (i - 1) (j - 1) + 1)
               (matrixGet matrix i (j - 1) + 1)
               (matrixGet matrix (i - 1) j + 1)).

(** "Calculate distances" *)
Definition filledMatrix : list (list nat) :=
  fold_left (fun matrix i => fold_left (step i) (seq 1 len1) matrix)
            (seq 1 len2) initialMatrix.

Definition distance : nat := matrixGet filledMatrix len2 len1.
End Distance.

(** The number returned is the rational [1 - distance / maxLen] in
    lowest terms; JavaScript delivers its nearest double. *)
Definition calculateSimilarity (str1 str2 : string) : Q :=
  let s1 := list_ascii_of_string str1 in
  let s2 := list_ascii_of_string str2 in
  if (len1 s1 =? 0)%nat then 0%Q
  else if (len2 s2 =? 0)%nat then 0%Q
  else
    let maxLen := Nat.max (len1 s1) (len2 s2) in
    Qred (1 - (Z.of_nat (distance s1 s2) # Pos.of_nat maxLen))%Q.

(** *** The tiers *)

Section Tiers.
(** Cached payloads, generator failures, and cache keys with their
    digest ([generateKey], an MD5 of the normalised input). *)
Variable Value : Type.
Variable Failure : Type.
Variable Key : Type.
Variable generateKey : Key -> string.

Record Entry := {
  value : Value;
  timestamp : Z;
  ttl : Z;
  hits : Z;
  lastAccessed : Z
}.

(** A JavaScript [Map] keeps its keys in insertion order. *)
Definition Layer := list (string * Entry).

Fixpoint mapGet (m : Layer) (key : string) : option Entry :=
  match m with
  | [] => None
  | (k, e) :: m' => if String.eqb k key then Some e else mapGet m' key
  end.

(** [set] keeps the place of a key already present and appends a new
    one. *)
Fixpoint mapSet (m : Layer) (key : string) (entry : Entry) : Layer :=
  match m with
  | [] => [(key, entry)]
  | (k, e) :: m' =>
      if String.eqb k key then (k, entry) :: m'
      else (k, e) :: mapSet m' key entry
  end.

Fixpoint mapDelete (m : Layer) (key : string) : Layer :=
  match m with
  | [] => []
  | (k, e) :: m' =>
      if String.eqb k key then m' else (k, e) :: mapDelete m' key
  end.

Definition mapHas (m : Layer) (key : string) : bool :=
  match mapGet m key with Some _ => true | None => false end.

Definition mapSize (m : Layer) : Z := Z.of_nat (List.length m).

Record Stats := {
  statHits : Z;
  statMisses : Z;
  statEvictions : Z;
  statApiCalls : Z;
  statSavedApiCalls : Z
}.

Record Cache := {
  l1 : Layer;
  l2 : Layer;
  stats : Stats
}.

Definition l1MaxSize : Z := 100.
Definition l2MaxSize : Z := 500.
(** [config.ttl] *)
Definition defaultTtl : Z := 3600000.

Definition countHit (s : Stats) : Stats :=
  {| statHits := statHits s + 1; statMisses := statMisses s;
     statEvictions := statEvictions s; statApiCalls := statApiCalls s;
     statSavedApiCalls := statSavedApiCalls s + 1 |}.

Definition countMiss (s : Stats) : Stats :=
  {| statHits := statHits s; statMisses := statMisses s + 1;
     statEvictions := statEvictions s; statApiCalls := statApiCalls s + 1;
     statSavedApiCalls := statSavedApiCalls s |}.

Definition countEviction (s : Stats) : Stats :=
  {| statHits := statHits s; statMisses := statMisses s;
     statEvictions := statEvictions s + 1; statApiCalls := statApiCalls s;
     statSavedApiCalls := statSavedApiCalls s |}.

Definition isExpired (now : Z) (entry : Entry) : bool :=
  ttl entry <? now - timestamp entry.

(** The scan of [evictLRU]: the first entry whose [lastAccessed] is
    below everything before it.  [lruTime = None] is [Infinity]. *)
Fixpoint scanLRU (cache : Layer) (lruKey : option string) (lruTime : option Z)
  : option string :=
  match cache with
  | [] => lruKey
  | (key, entry) :: rest =>
      let below :=
        match lruTime with
        | None => true
        | Some t => lastAccessed entry <? t
        end in
      if below then scanLRU rest (Some key) (Some (lastAccessed entry))
      else scanLRU rest lruKey lruTime
  end.

(** [if (lruKey)]: [null] and the empty string are falsy. *)
Definition truthyKey (k : option string) : option string :=
  match k with
  | Some s => if String.eqb s "" then None else Some s
  | None => None
  end.

Inductive LayerName := L1 | L2.

(** [evictLRU('l2')] *)
Definition evictLRU2 (c : Cache) : Cache :=
  match truthyKey (scanLRU (l2 c) None None) with
  | Some lruKey =>
      {| l1 := l1 c; l2 := mapDelete (l2 c) lruKey;
         stats := countEviction (stats c) |}
  | None => c
  end.

(** [evictLRU(layer)]; the victim of the hot tier moves to the warm
    tier, which may then evict in turn. *)
Definition evictLRU (layer : LayerName) (c : Cache) : Cache :=
  match layer with
  | L2 => evictLRU2 c
  | L1 =>
      match truthyKey (scanLRU (l1 c) None None) with
      | Some lruKey =>
          let c :=
            match mapGet (l1 c) lruKey with
            | Some entry =>
                let c := {| l1 := l1 c; l2 := mapSet (l2 c) lruKey entry;
                            stats := stats c |} in
                if l2MaxSize <? mapSize (l2 c) then evictLRU2 c else c
            | None => c
            end in
          {| l1 := mapDelete (l1 c) lruKey; l2 := l2 c;
             stats := countEviction (stats c) |}
      | None => c
      end
  end.

Definition set (key : string) (v : Value) (ttl' : Z) (now : Z) (c : Cache) : Cache :=
  let entry := {| value := v; timestamp := now; ttl := ttl';
                  hits := 0; lastAccessed := now |} in
  let c := {| l1 := mapSet (l1 c) key entry; l2 := l2 c; stats := stats c |} in
  if l1MaxSize <? mapSize (l1 c) then evictLRU L1 c else c.

Definition touch (now : Z) (entry : Entry) : Entry :=
  {| value := value entry; timestamp := timestamp entry; ttl := ttl entry;
     hits := hits entry + 1; lastAccessed := now |}.

(** [checkLayers] updates the entry it finds where it lies and
    returns it. *)
Definition checkLayers (key : string) (now : Z) (c : Cache) : option Entry * Cache :=
  match mapGet (l1 c) key with
  | Some entry =>
      let entry := touch now entry in
      (Some entry, {| l1 := mapSet (l1 c) key entry; l2 := l2 c; stats := stats c |})
  | None =>
      match mapGet (l2 c) key with
      | Some entry =>
          let entry := touch now entry in
          (Some entry, {| l1 := l1 c; l2 := mapSet (l2 c) key entry; stats := stats c |})
      | None => (None, c)
      end
  end.

Definition promote (key : string) (entry : Entry) (c : Cache) : Cache :=
  if (5 <? hits entry) && negb (mapHas (l1 c) key) then
    let c := {| l1 := mapSet (l1 c) key entry; l2 := mapDelete (l2 c) key;
                stats := stats c |} in
    if l1MaxSize <? mapSize (l1 c) then evictLRU L1 c else c
  else c.

(** How the awaited [generator()] settles. *)
Inductive Settled :=
| fulfilled (v : Value)
| rejectedWith (error : Failure).

(** [get] either returns at once, or calls the generator and waits:
    [resume] is the rest of the method, run when the generator has
    settled, on the cache as it is then.  The generator is called
    exactly when the step is [awaitGenerator]. *)
Inductive GetStep :=
| returned (v : Value) (c : Cache)
| awaitGenerator (c : Cache)
                 (resume : Cache -> Z -> Settled -> (Value + Failure) * Cache).

(** [options.ttl || this.config.ttl] *)
Definition ttlOption (optionsTtl : option Z) : Z :=
  match optionsTtl with
  | Some t => if t =? 0 then defaultTtl else t
  | None => defaultTtl
  end.

Definition get (c : Cache) (key : Key) (optionsTtl : option Z) (now : Z) : GetStep :=
  let cacheKey := generateKey key in
  let ttl' := ttlOption optionsTtl in
  let (cached, c) := checkLayers cacheKey now c in
  let hit :=
    match cached with
    | Some entry => if isExpired now entry then None else Some entry
    | None => None
    end in
  match hit with
  | Some entry =>
      let c := {| l1 := l1 c; l2 := l2 c; stats := countHit (stats c) |} in
      let c := promote cacheKey entry c in
      returned (value entry) c
  | None =>
      let c := {| l1 := l1 c; l2 := l2 c; stats := countMiss (stats c) |} in
      awaitGenerator c
        (fun c now settled =>
           match settled with
           | fulfilled v => (inl v, set cacheKey v ttl' now c)
           | rejectedWith error =>
               match cached with
               | Some entry => (inl (value entry), c)
               | None => (inr error, c)
               end
           end)
  end.
(** [cleanup()]: both tiers lose their expired entries. *)
Definition cleanup (now : Z) (c : Cache) : Cache :=
  let live (m : Layer) :=
    List.filter (fun ke : string * Entry => negb (isExpired now (snd ke))) m in
  {| l1 := live (l1 c); l2 := live (l2 c); stats := stats c |}.

(** [clear()] *)
Definition clear (c : Cache) : Cache :=
  {| l1 := []; l2 := [];
     stats := {| statHits := 0; statMisses := 0; statEvictions := 0;
                 statApiCalls := 0; statSavedApiCalls := 0 |} |}.
End Tiers.

Arguments value {Value}.
Arguments timestamp {Value}.
Arguments ttl {Value}.
Arguments hits {Value}.
Arguments lastAccessed {Value}.
Arguments mapGet {Value}.
Arguments mapSet {Value}.
Arguments mapDelete {Value}.
Arguments mapHas {Value}.
Arguments mapSize {Value}.
Arguments l1 {Value}.
Arguments l2 {Value}.
Arguments stats {Value}.
Arguments isExpired {Value}.
Arguments scanLRU {Value}.
Arguments evictLRU2 {Value}.
Arguments evictLRU {Value}.
Arguments set {Value}.
Arguments touch {Value}.
Arguments checkLayers {Value}.
Arguments promote {Value}.
Arguments fulfilled {Value Failure}.
Arguments rejectedWith {Value Failure}.
Arguments returned {Value Failure}.
Arguments awaitGenerator {Value Failure}.
Arguments get {Value Failure Key}.
Arguments cleanup {Value}.
Arguments clear {Value}.

(** *** Cache keys *)

(** [s.replace(/\s+/g, ' ')]: every run of white space becomes one
    space.  [inRun] tells that the character before was white space. *)
Fixpoint collapseFrom (inRun : bool) (s : string) : string :=
  match s with
  | EmptyString => EmptyString
  | String c s' =>
      if isWhiteSpace c
      then if inRun then collapseFrom true s' else String " " (collapseFrom true s')
      else String c (collapseFrom false s')
  end.

Definition collapseWhiteSpace (s : string) : string := collapseFrom false s.

(** [input.toLowerCase().trim().replace(/\s+/g, ' ')] *)
Definition normalizeInput (input : string) : string :=
  collapseWhiteSpace (trim (toLowerCase input)).

(** What [get] is given as a key: a string, or anything else, which
    stands here for its [JSON.stringify] text. *)
Inductive KeyInput :=
| textKey (input : string)
| objectKey (json : string).

Section Digest.
(** [crypto.createHash('md5').update(text).digest('hex')] *)
Variable md5 : string -> string.

Definition generateKey (input : KeyInput) : string :=
  match input with
  | textKey text => md5 (normalizeInput text)
  | objectKey json => md5 json
  end.
End Digest.

(** *** Similar questions *)

(** [preloadedResponses], in insertion order: key and response. *)
Definition preloadedResponses : list (string * string) :=
  [ ("vaccination schedule",
     "Puppies need vaccines at 6-8 weeks, 10-12 weeks, and 14-16 weeks...");
    ("emergency signs",
     "Seek immediate vet care for: difficulty breathing, seizures, unconsciousness...");
    ("toxic foods",
     "Never feed dogs: chocolate, grapes, onions, garlic, xylitol...") ]%string.

(** [.] of a regular expression stops at a line terminator. *)
Definition isLineTerminator (c : ascii) : bool :=
  (code c =? 10) || (code c =? 13).

(** [/food/] reached from the head of [s] through [.*]. *)
Fixpoint foodOnLine (s : string) : bool :=
  startsWith s "food" ||
  match s with
  | EmptyString => false
  | String c s' => if isLineTerminator c then false else foodOnLine s'
  end.

(** [/dangerous.*food/] *)
Fixpoint dangerousFood (s : string) : bool :=
  (startsWith s "dangerous" && foodOnLine (String.substring 9 (String.length s - 9) s)) ||
  match s with
  | EmptyString => false
  | String _ s' => dangerousFood s'
  end.

(** [patterns]: the test of each regular expression on lower-case text,
    and its key. *)
Definition patterns : list ((string -> bool) * string) :=
  [ (fun s => includes s "vaccin" || includes s "shot" || includes s "immuniz",
     "vaccination");
    (fun s => includes s "emergency" || includes s "urgent" || includes s "asap",
     "emergency");
    (fun s => includes s "poison" || includes s "toxic" || dangerousFood s,
     "toxic");
    (fun s => includes s "flea" || includes s "tick" || includes s "parasite",
     "parasites");
    (fun s => includes s "spay" || includes s "neuter" || includes s "fix",
     "spay-neuter") ]%string.

Section Similar.
Variable Value : Type.
(** [value.question] when it is a non-empty string, that is, truthy. *)
Variable questionOf : Value -> option string.

(** What [findSimilar] returns: a preloaded response, the value of a
    cached entry, the [response] of a cached value, or [null]. *)
Inductive Similar :=
| preloaded (response : string)
| cachedValue (v : Value)
| responseOf (v : Value)
| noneSimilar.

Definition firstPreloaded (normalized : string) : option string :=
  option_map snd
    (List.find (fun kr : string * string => includes normalized (fst kr))
               preloadedResponses).

Definition patternHit (now : Z) (c : Cache Value) (normalized : string)
           (pattern : (string -> bool) * string) : option Value :=
  if fst pattern normalized then
    let cached :=
      match mapGet (l1 c) (snd pattern) with
      | Some e => Some e
      | None => mapGet (l2 c) (snd pattern)
      end in
    match cached with
    | Some e => if isExpired now e then None else Some (value e)
    | None => None
    end
  else None.

Definition threshold : Q := (8 # 10)%Q.

Definition fuzzyHit (normalized : string) (ke : string * Entry Value) : option Value :=
  match questionOf (value (snd ke)) with
  | Some question =>
      let similarity := calculateSimilarity normalized (toLowerCase question) in
      if Qle_bool similarity threshold then None else Some (value (snd ke))
  | None => None
  end.

(** The first element of [l] on which [f] answers. *)
Fixpoint firstSome {A B : Type} (f : A -> option B) (l : list A) : option B :=
  match l with
  | [] => None
  | a :: l' =>
      match f a with
      | Some b => Some b
      | None => firstSome f l'
      end
  end.

Definition findSimilar (now : Z) (c : Cache Value) (question : string)
  : Similar * Cache Value :=
  let normalized := trim (toLowerCase question) in
  let hit := {| l1 := l1 c; l2 := l2 c; stats := countHit (stats c) |} in
  match firstPreloaded normalized with
  | Some response => (preloaded response, hit)
  | None =>
      match firstSome (patternHit now c normalized) patterns with
      | Some v => (cachedValue v, hit)
      | None =>
          match firstSome (fuzzyHit normalized) (l1 c) with
          | Some v => (responseOf v, hit)
          | None => (noneSimilar, c)
          end
      end
  end.
End Similar.

Arguments preloaded {Value}.
Arguments cachedValue {Value}.
Arguments responseOf {Value}.
Arguments noneSimilar {Value}.
Arguments findSimilar {Value}.
Arguments fuzzyHit {Value}.
Arguments patternHit {Value}.

End CacheService.


(* ===================================================================== *)
(** ** Terms of the specification *)
(* ===================================================================== *)

Module Levenshtein.
Local Open Scope nat_scope.

(** The standard edit distance, by its recurrence: deleting the head of
    [s], inserting the head of [t], or substituting one for the other
    (free when they are equal), each at cost 1. *)
Fixpoint levenshtein_distance (s t : list ascii) : nat :=
  match s with
  | [] => length t
  | a :: s' =>
      (fix inner (t : list ascii) : nat :=
         match t with
         | [] => length s
         | b :: t' =>
             Nat.min (Nat.min (levenshtein_distance s' t + 1) (inner t' + 1))
                     (levenshtein_distance s' t' + (if Ascii.eqb a b then 0 else 1))
         end) t
  end.

(** [edits s t n]: [s] is turned into [t] by [n] single-character
    insertions, deletions and substitutions, read off an alignment of
    the two. *)
Inductive edits : list ascii -> list ascii -> nat -> Prop :=
| edits_nil : edits [] [] 0
| edits_keep a s t n : edits s t n -> edits (a :: s) (a :: t) n
| edits_substitute a b s t n : edits s t n -> edits (a :: s) (b :: t) (S n)
| edits_delete a s t n : edits s t n -> edits (a :: s) t (S n)
| edits_insert b s t n : edits s t n -> edits s (b :: t) (S n).
End Levenshtein.

(** Words the properties below are stated with. *)
Module Terms.
Import JsString AppointmentSlotManager CacheService Levenshtein.

(** An entry is live when it is a confirmation or a reservation whose
    expiry has not passed. *)
Definition live (now : Z) (b : Booking) : bool :=
  match b with
  | reserved _ expiresAt _ => negb (expiresAt <? now)
  | confirmed _ _ _ => true
  end.

(** A check that never drops a live entry. *)
Definition keeps (now : Z)
           (check : gmap Z Booking -> Z -> option (JsValue Availability * gmap Z Booking))
  : Prop :=
  forall s d v s', check s d = Some (v, s') ->
  forall k b, s !! k = Some b -> live now b = true -> s' !! k = Some b.

(** The branch of the checks an answer stands for. *)
Definition branchOf (r : Availability) : Check :=
  match r with
  | Unavailable outside_business_hours _ _ => closedThen
  | Unavailable slot_taken _ _ => taken
  | Unavailable too_close_to_existing _ _ => tooClose
  | Unavailable day_fully_booked _ _ => dayFull
  | AvailableAt _ _ _ => free
  end.

(** The dates of the entries are pairwise at least forty minutes
    (a slot and a buffer) apart. *)
Definition spaced (s : gmap Z Booking) : Prop :=
  forall k1 k2 b1 b2, k1 <> k2 -> s !! k1 = Some b1 -> s !! k2 = Some b2 ->
  40 * 60000 <= Z.abs (bookingDate b1 - bookingDate b2).

(** The string is empty or starts with a character that is not white
    space. *)
Definition headKept (s : string) : Prop :=
  match s with
  | EmptyString => True
  | String c _ => isWhiteSpace c = false
  end.

(** Made of white space only. *)
Fixpoint blank (s : string) : bool :=
  match s with
  | EmptyString => true
  | String c s' => isWhiteSpace c && blank s'
  end.

Section Tiers.
Variable Value : Type.

(** The entry [checkLayers] finds for a key: the hot tier's, else the
    warm tier's. *)
Definition cachedEntry (c : Cache Value) (key : string) : option (Entry Value) :=
  match mapGet (l1 c) key with
  | Some e => Some e
  | None => mapGet (l2 c) key
  end.

(** The hot tier is within its capacity. *)
Definition withinCapacity (c : Cache Value) : Prop := mapSize (l1 c) <= l1MaxSize.

(** No entry of the hot tier was accessed after [now]. *)
Definition accessedBy (now : Z) (c : Cache Value) : Prop :=
  forall k e, In (k, e) (l1 c) -> lastAccessed e <= now.

(** No key of the layer is the empty string. *)
Definition keysTruthy (m : Layer Value) : Prop :=
  forall k e, In (k, e) m -> k <> EmptyString.

(** Both tiers are within their capacity and hold no empty key. *)
Definition inBounds (c : Cache Value) : Prop :=
  mapSize (l1 c) <= l1MaxSize /\ mapSize (l2 c) <= l2MaxSize
  /\ keysTruthy (l1 c) /\ keysTruthy (l2 c).

(** The keys of the layer are pairwise different, as in a [Map]. *)
Definition distinctKeys (m : Layer Value) : Prop := List.NoDup (List.map fst m).
End Tiers.

Arguments cachedEntry {Value}.
Arguments withinCapacity {Value}.
Arguments accessedBy {Value}.
Arguments keysTruthy {Value}.
Arguments inBounds {Value}.
Arguments distinctKeys {Value}.

Section Matrix.
Variables str1 str2 : list ascii.

(** The distance between the first [i] characters of [str2] and the
    first [j] of [str1], each read backwards: what cell [i], [j] of
    the matrix is to hold. *)
Definition cell (i j : nat) : nat :=
  levenshtein_distance (rev (firstn i str2)) (rev (firstn j str1)).

Definition rowUpTo (i k : nat) : list nat := map (cell i) (seq 0 (S k)).

(** The matrix once rows 0 to [r] are filled. *)
Definition filledTo (r : nat) : list (list nat) :=
  map (fun i => rowUpTo i (len1 str1)) (seq 0 (S r))
  ++ map (fun i => [i]) (seq (S r) (len2 str2 - r)).
End Matrix.
End Terms.

(** Words for the steps of a conversation. *)
Module FlowTerms.
Import AppointmentService ChatController.

(** How the handler ends once its middle part is done: the reply is
    pushed, the conversation saved and the response sent; an exception
    is answered 500; a call that has not returned gives nothing. *)
Definition finish (sid : string) (h : Handled) : option Outcome :=
  match h with
  | running => None
  | threw w => Some {| response := status500; saved := None; world := w |}
  | replied botResponse newAppointmentState conversation w =>
      Some {| response := json sid botResponse newAppointmentState;
              saved := Some (push conversation (bot botResponse)); world := w |}
  end.

(** The draft once a date is accepted. *)
Definition dated (d : AppointmentData) (date : Z) (formatted : string) : AppointmentData :=
  {| ownerName := ownerName d; petName := petName d; phone := phone d;
     preferredDateTime := Some formatted;
     appointmentDate := Some date; slotKey := slotKey d |}.
End FlowTerms.

(** The concrete situations the examples are run on. *)
Module Scenarios.
Import AppointmentSlotManager AppointmentService ChatController CacheService.
Local Open Scope string_scope.
Local Open Scope list_scope.
Local Open Scope Z_scope.

(** Wednesday 4 November 2026, UTC. *)
Definition wednesday_4_nov : Z := 20761 * 86400000.
Definition clock (h m : Z) : Z := wednesday_4_nov + h * 3600000 + m * 60000.

(** A hold on the 15:30 slot (asked for 15:35) that ran out at 14:00
    and is still in the map. *)
Definition staleHold : gmap Z Booking :=
  {[ clock 15 30 := reserved "s1" (clock 14 0) (clock 15 35) ]}.

(** A confirmed booking at 10:00. *)
Definition bookedAtTen : gmap Z Booking :=
  {[ clock 10 0 := confirmed "s1" (clock 10 0) (clock 8 0) ]}.

(** Tuesday 3 November 2026, 09:00 UTC. *)
Definition tuesday_nine : Z := 20760 * 86400000 + 9 * 3600000.

Definition emptyWorld : World :=
  {| bookedSlots := ∅; timers := []; appointments := [] |}.

(** A session that books tomorrow 15:00, declines at the confirmation,
    and starts booking again. *)
Definition declinedThenRestarted : list (Z * string) :=
  [ (tuesday_nine, "I want to book an appointment");
    (tuesday_nine + 1000, "Jane Doe");
    (tuesday_nine + 2000, "Rex");
    (tuesday_nine + 3000, "555-123-4567");
    (tuesday_nine + 4000, "tomorrow at 3pm");
    (tuesday_nine + 5000, "no");
    (tuesday_nine + 6000, "book appointment") ].

Definition talk :=
  converse 0 (fun _ => None) (fun _ => "Wednesday, November 4, 2026 at 3:00 PM")
           "fresh" (fun _ _ => Some "answer") 3 "s1".

Definition emptyCache : Cache string :=
  {| l1 := []; l2 := [];
     stats := {| statHits := 0; statMisses := 0; statEvictions := 0;
                 statApiCalls := 0; statSavedApiCalls := 0 |} |}.

Definition identity (key : string) : string := key.

(** A cache whose hot tier holds an answer stored at time 0 with a ttl
    of one second. *)
Definition agedCache : Cache string :=
  {| l1 := [("k", {| value := "old"; timestamp := 0; ttl := 1000;
                     hits := 0; lastAccessed := 0 |})];
     l2 := [];
     stats := stats emptyCache |}.

(** A confirmed booking at 10:00 and a hold on 11:00. *)
Definition twoBookings : gmap Z Booking :=
  <[ clock 10 0 := confirmed "s1" (clock 10 0) (clock 8 0) ]>
    {[ clock 11 0 := reserved "s2" (clock 9 3) (clock 11 0) ]}.

(** A cache whose warm tier holds an answer read five times. *)
Definition warmCache : Cache string :=
  {| l1 := [];
     l2 := [("k", {| value := "warm"; timestamp := 0; ttl := 1000;
                     hits := 5; lastAccessed := 400 |})];
     stats := stats emptyCache |}.

(** The key of the [n]-th other question: two code units. *)
Definition otherKey (n : nat) : string :=
  String (ascii_of_nat (n / 200)) (String (ascii_of_nat (n mod 200)) EmptyString).

(** [n] other answers stored one after the other, a millisecond apart
    from [start] on. *)
Definition storeOthers (start : Z) (n : nat) (c : Cache string) : Cache string :=
  fold_left (fun c i => set (otherKey i) "other" 3600000 (start + Z.of_nat i) c)
            (seq 1 n) c.
End Scenarios.

(* ===================================================================== *)
(** ** Properties *)
(* ===================================================================== *)

Module SlotManagerFacts.
Import JsDate AppointmentSlotManager Terms Scenarios.


Lemma isSlotBooked_spec now (slots : gmap Z Booking) key :
  isSlotBooked now slots key =
    match slots !! key with
    | Some b => if live now b then (true, slots) else (false, delete key slots)
    | None => (false, slots)
    end.
Proof.
  unfold isSlotBooked. destruct (slots !! key) as [[s e d|s d c]|]; simpl; auto.
  destruct (e <? now); reflexivity.
Qed.

Lemma isSlotBooked_keeps now (slots : gmap Z Booking) key k b :
  slots !! k = Some b -> live now b = true ->
  snd (isSlotBooked now slots key) !! k = Some b.
Proof.
  intros Hk Hl. rewrite isSlotBooked_spec.
  destruct (slots !! key) as [b'|] eqn:E; simpl; auto.
  destruct (live now b') eqn:L; simpl; auto.
  destruct (decide (key = k)) as [->|Hne].
  - congruence.
  - rewrite lookup_delete_ne; auto.
Qed.


Lemma checks_map tz now (slots : gmap Z Booking) date :
  snd (checks tz now slots date) = slots \/
  snd (checks tz now slots date) = snd (isSlotBooked now slots (getSlotKey tz date)).
Proof.
  unfold checks.
  destruct (negb _); [left; reflexivity|].
  destruct (isSlotBooked now slots (getSlotKey tz date)) as [booked slots1].
  right. destruct booked; simpl; auto.
  destruct (hasConflictWithBuffer slots1 date); simpl; auto.
  destruct (20 <=? _); reflexivity.
Qed.

Lemma checks_keeps tz now (slots : gmap Z Booking) date k b :
  slots !! k = Some b -> live now b = true ->
  snd (checks tz now slots date) !! k = Some b.
Proof.
  intros Hk Hl. destruct (checks_map tz now slots date) as [-> | ->]; auto.
  apply isSlotBooked_keeps; auto.
Qed.


Lemma nearbyLoop_keeps check now count base offsets :
  keeps now check ->
  forall acc (s : gmap Z Booking) l s',
    nearbyLoop check now count base offsets acc s = Some (l, s') ->
    forall k b, s !! k = Some b -> live now b = true -> s' !! k = Some b.
Proof.
  intros Hc. induction offsets as [|off rest IH]; simpl; intros acc s l s' H k b Hk Hl.
  - congruence.
  - destruct (count <=? length acc)%nat; [congruence|].
    destruct (check s (base + off * 60000)) as [[v s1]|] eqn:E; [|discriminate].
    pose proof (Hc _ _ _ _ E _ _ Hk Hl) as Hk1.
    destruct (truthy (prop_available v)); eapply IH; eauto.
Qed.

Lemma nextLoop_keeps tz check now turns count :
  keeps now check ->
  forall date acc (s : gmap Z Booking) l s',
    nextLoop tz check now turns count date acc s = Some (l, s') ->
    forall k b, s !! k = Some b -> live now b = true -> s' !! k = Some b.
Proof.
  intros Hc. induction turns as [|turns IH]; simpl; intros date acc s l s' H k b Hk Hl.
  - discriminate.
  - destruct (count <=? length acc)%nat; [congruence|].
    match type of H with
    | context [check s ?d] => destruct (check s d) as [[v s1]|] eqn:E; [|discriminate]
    end.
    pose proof (Hc _ _ _ _ E _ _ Hk Hl) as Hk1.
    destruct (truthy (prop_available v)); eapply IH; eauto.
Qed.

(** Taking [checkAvailability] apart by the branch its checks chose. *)
Lemma checkAvailability_unfold tz fuel now (slots : gmap Z Booking) date :
  checkAvailability tz (S fuel) now slots date =
    let wrap reason message suggested :=
      match suggested with
      | None => None
      | Some (suggestedSlots, s) =>
          Some (PromiseOf (Unavailable reason message suggestedSlots), s)
      end in
    match checks tz now slots date with
    | (closedThen, s) =>
        wrap outside_business_hours (WeAreClosed (getSuggestedTimes tz date))
          (getNextAvailableSlots tz (checkAvailability tz fuel now) now fuel date 3 s)
    | (taken, s) =>
        wrap slot_taken AlreadyBooked
          (getNearbyAvailableSlots (checkAvailability tz fuel now) now date 3 s)
    | (tooClose, s) =>
        wrap too_close_to_existing TooClose
          (getNearbyAvailableSlots (checkAvailability tz fuel now) now date 3 s)
    | (dayFull, s) =>
        wrap day_fully_booked FullyBooked
          (getNextDaySlots tz (checkAvailability tz fuel now) now fuel date s)
    | (free, s) =>
        Some (PromiseOf (AvailableAt date slotDuration (assignVeterinarian tz date)), s)
    end.
Proof. reflexivity. Qed.

Lemma checkAvailability_keeps tz now fuel : keeps now (checkAvailability tz fuel now).
Proof.
  induction fuel as [|fuel IH]; intros s d v s' H k b Hk Hl.
  - discriminate.
  - rewrite checkAvailability_unfold in H. cbv zeta in H.
    pose proof (checks_keeps tz now s d k b Hk Hl) as Hc.
    destruct (checks tz now s d) as [c s1]. simpl in Hc.
    destruct c.
    + destruct (getNextAvailableSlots _ _ _ _ _ _ _) as [[l s2]|] eqn:E; [|discriminate].
      inversion H; subst. eapply nextLoop_keeps; eauto.
    + destruct (getNearbyAvailableSlots _ _ _ _ _) as [[l s2]|] eqn:E; [|discriminate].
      inversion H; subst. eapply nearbyLoop_keeps; eauto.
    + destruct (getNearbyAvailableSlots _ _ _ _ _) as [[l s2]|] eqn:E; [|discriminate].
      inversion H; subst. eapply nearbyLoop_keeps; eauto.
    + destruct (getNextDaySlots _ _ _ _ _ _) as [[l s2]|] eqn:E; [|discriminate].
      inversion H; subst. eapply nextLoop_keeps; eauto.
    + inversion H; subst. exact Hc.
Qed.

(** What an [async] method returns is a promise. *)
Lemma checkAvailability_promise tz fuel now (slots : gmap Z Booking) date v s' :
  checkAvailability tz fuel now slots date = Some (v, s') ->
  prop_available v = None.
Proof.
  destruct fuel as [|fuel]; [discriminate|].
  rewrite checkAvailability_unfold. cbv zeta.
  destruct (checks tz now slots date) as [c s1].
  destruct c;
    repeat match goal with
      | |- context [match ?x with Some _ => _ | None => _ end] => destruct x as [[? ?]|]
      end; intros H; inversion H; reflexivity.
Qed.

Lemma nearbyLoop_promises check now count base offsets :
  (forall s d v s', check s d = Some (v, s') -> prop_available v = None) ->
  forall acc (s : gmap Z Booking) l s',
    nearbyLoop check now count base offsets acc s = Some (l, s') -> l = acc.
Proof.
  intros Hp. induction offsets as [|off rest IH]; simpl; intros acc s l s' H.
  - congruence.
  - destruct (count <=? length acc)%nat; [congruence|].
    destruct (check s (base + off * 60000)) as [[v s1]|] eqn:E; [|discriminate].
    rewrite (Hp _ _ _ _ E) in H. simpl in H. eauto.
Qed.



Lemma checkAvailability_branch tz fuel now (slots : gmap Z Booking) date v s' :
  checkAvailability tz fuel now slots date = Some (v, s') ->
  branchOf (await v) = fst (checks tz now slots date).
Proof.
  destruct fuel as [|fuel]; [discriminate|].
  rewrite checkAvailability_unfold. cbv zeta.
  destruct (checks tz now slots date) as [c s1].
  destruct c;
    repeat match goal with
      | |- context [match ?x with Some _ => _ | None => _ end] => destruct x as [[? ?]|]
      end; intros H; inversion H; reflexivity.
Qed.

Lemma checkAvailability_free tz fuel now (slots : gmap Z Booking) date :
  fst (checks tz now slots date) = free ->
  checkAvailability tz (S fuel) now slots date =
    Some (PromiseOf (AvailableAt date slotDuration (assignVeterinarian tz date)),
          snd (checks tz now slots date)).
Proof.
  intros H. rewrite checkAvailability_unfold. cbv zeta.
  destruct (checks tz now slots date) as [c s1]. simpl in H. subst c. reflexivity.
Qed.

Lemma overlaps_iff date b :
  overlaps date b = true <->
  bookingDate b - 40 * 60000 < date < bookingDate b + 40 * 60000.
Proof.
  unfold overlaps, bufferTime, slotDuration.
  rewrite andb_true_iff, !Z.ltb_lt. lia.
Qed.

Lemma hasConflictWithBuffer_iff (slots : gmap Z Booking) date :
  hasConflictWithBuffer slots date = true <->
  exists k b, slots !! k = Some b /\ overlaps date b = true.
Proof.
  unfold hasConflictWithBuffer. rewrite existsb_exists. split.
  - intros [[k b] [Hin Ho]]. exists k, b. split; auto.
    apply elem_of_map_to_list. apply list_elem_of_In. exact Hin.
  - intros (k & b & Hk & Ho). exists (k, b). split; auto.
    apply list_elem_of_In. apply elem_of_map_to_list. exact Hk.
Qed.

Lemma checks_tooClose tz now (slots : gmap Z Booking) date :
  isBusinessHour (getDayName tz date) (getTimeString tz date) = true ->
  fst (isSlotBooked now slots (getSlotKey tz date)) = false ->
  (fst (checks tz now slots date) = tooClose <->
   hasConflictWithBuffer (snd (isSlotBooked now slots (getSlotKey tz date))) date = true).
Proof.
  intros Hb Hs. unfold checks. rewrite Hb. simpl.
  destruct (isSlotBooked now slots (getSlotKey tz date)) as [booked s1].
  simpl in *. subst booked.
  destruct (hasConflictWithBuffer s1 date); simpl.
  - tauto.
  - destruct (20 <=? _); simpl; split; discriminate.
Qed.

Lemma free_bucket_lookup now (slots : gmap Z Booking) key k b :
  fst (isSlotBooked now slots key) = false ->
  (snd (isSlotBooked now slots key) !! k = Some b <->
   k <> key /\ slots !! k = Some b).
Proof.
  rewrite isSlotBooked_spec.
  destruct (slots !! key) as [b'|] eqn:E; simpl.
  - destruct (live now b'); simpl; [discriminate|]. intros _.
    rewrite lookup_delete_Some. split; intros [? ?]; split; auto.
  - intros _. split; [|tauto]. intros H. split; auto. congruence.
Qed.



(** C5. An expired reservation is never reported as booked: reading a
    slot key whose entry is a reservation with an expiry earlier than
    the time of the read answers false and drops the entry, whether or
    not the scheduled release has run before the read. *)
Theorem isSlotBooked_expired_is_free now (slots : gmap Z Booking) key sid exp date :
  slots !! key = Some (reserved sid exp date) ->
  exp < now ->
  isSlotBooked now slots key = (false, delete key slots)
  /\ forall t, fst (isSlotBooked now (fire t slots) key) = false.
Proof.
  intros Hk He. split.
  - unfold isSlotBooked. rewrite Hk.
    apply Z.ltb_lt in He. rewrite He. reflexivity.
  - intros t. unfold fire, releaseReservation.
    assert (Hdead : live now (reserved sid exp date) = false).
    { simpl. apply Z.ltb_lt in He. rewrite He. reflexivity. }
    destruct (slots !! timerSlotKey t) as [[o e d|o d c]|] eqn:E;
      try (rewrite isSlotBooked_spec, Hk, Hdead; reflexivity).
    destruct (String.eqb o (timerSessionId t));
      [|rewrite isSlotBooked_spec, Hk, Hdead; reflexivity].
    rewrite isSlotBooked_spec.
    destruct (decide (timerSlotKey t = key)) as [->|Hne].
    + rewrite lookup_delete_eq. reflexivity.
    + rewrite lookup_delete_ne, Hk, Hdead; auto.
Qed.

Lemma isSlotBooked_expired_is_free_witness :
  isSlotBooked (clock 15 0) staleHold (clock 15 30)
    = (false, delete (clock 15 30) staleHold)
  /\ forall t, fst (isSlotBooked (clock 15 0) (fire t staleHold) (clock 15 30)) = false.
Proof.
  apply (isSlotBooked_expired_is_free (clock 15 0) staleHold (clock 15 30)
           "s1" (clock 14 0) (clock 15 35)).
  - reflexivity.
  - reflexivity.
Defined.


Lemma reserveSlot_elsewhere tz now (slots : gmap Z Booking) d sid' k :
  getSlotKey tz d <> k ->
  snd (fst (reserveSlot tz now slots d sid')) !! k = slots !! k.
Proof.
  intros Hne. unfold reserveSlot. cbn [fst snd].
  apply lookup_insert_ne. exact Hne.
Qed.

Lemma sweep_lookup now (slots : gmap Z Booking) k b :
  startCleanupInterval now slots !! k = Some b <->
  slots !! k = Some b /\ removedBySweep now b = false.
Proof. unfold startCleanupInterval. apply map_lookup_filter_Some. Qed.

(** C6, as amended.  The map holds one entry per slot key, and a
    confirmed entry stays in place through every operation of the slot
    manager but one: an availability check that returns, a release, a
    confirmation (which keeps it confirmed for the same session and
    date) and the sweep (while its date is no older than 24 hours) all
    leave it; [reserveSlot] leaves the entries of every other key alone
    and writes its own key without looking, so it keeps a confirmed
    entry only when it follows a read that found its bucket free. *)
Theorem confirmed_entry_preserved tz now (slots : gmap Z Booking) key sid date at_ :
  slots !! key = Some (confirmed sid date at_) ->
  (forall s : gmap Z Booking, NoDup (fst <$> map_to_list s))
  /\ (forall fuel d v s',
        checkAvailability tz fuel now slots d = Some (v, s') ->
        s' !! key = Some (confirmed sid date at_))
  /\ (forall d sid',
        getSlotKey tz d <> key ->
        snd (fst (reserveSlot tz now slots d sid')) !! key
          = Some (confirmed sid date at_))
  /\ (forall d sid',
        fst (isSlotBooked now slots (getSlotKey tz d)) = false ->
        snd (fst (reserveSlot tz now (snd (isSlotBooked now slots (getSlotKey tz d)))
                    d sid')) !! key
          = Some (confirmed sid date at_))
  /\ (forall k sid' s',
        confirmReservation now slots k sid' = Some s' ->
        exists at', s' !! key = Some (confirmed sid date at'))
  /\ (forall k sid',
        releaseReservation slots k sid' !! key = Some (confirmed sid date at_))
  /\ (now - 24 * 60 * 60 * 1000 <= date ->
      startCleanupInterval now slots !! key = Some (confirmed sid date at_)).
Proof.
  intros Hk. repeat split.
  - intros s. apply NoDup_fst_map_to_list.
  - intros fuel d v s' H.
    eapply checkAvailability_keeps; eauto.
  - intros d sid' Hne. rewrite reserveSlot_elsewhere; auto.
  - intros d sid' Hfree.
    assert (Hne : getSlotKey tz d <> key).
    { intros E. rewrite E, isSlotBooked_spec, Hk in Hfree. discriminate. }
    rewrite reserveSlot_elsewhere; auto.
    apply isSlotBooked_keeps; auto.
  - intros k sid' s'. unfold confirmReservation.
    destruct (slots !! k) as [r|] eqn:E; [|discriminate].
    destruct (negb (String.eqb (bookingSession r) sid')) eqn:Es; [discriminate|].
    intros H. inversion H; subst s'; clear H.
    destruct (decide (k = key)) as [->|Hne].
    + rewrite lookup_insert_eq.
      assert (r = confirmed sid date at_) by congruence. subst r. simpl in *.
      apply negb_false_iff, String.eqb_eq in Es. subst sid'. eauto.
    + rewrite lookup_insert_ne; eauto.
  - intros k sid'. unfold releaseReservation.
    destruct (slots !! k) as [[o e d|o d c]|] eqn:E; auto.
    destruct (String.eqb o sid'); auto.
    rewrite lookup_delete_ne; auto. congruence.
  - intros Hd. apply sweep_lookup. split; auto.
    unfold removedBySweep. simpl. rewrite orb_false_r. apply Z.ltb_ge. exact Hd.
Qed.

Lemma confirmed_entry_preserved_witness :
  (forall s : gmap Z Booking, NoDup (fst <$> map_to_list s))
  /\ (forall fuel d v s',
        checkAvailability 0 fuel (clock 9 0) bookedAtTen d = Some (v, s') ->
        s' !! clock 10 0 = Some (confirmed "s1" (clock 10 0) (clock 8 0)))
  /\ (forall d sid',
        getSlotKey 0 d <> clock 10 0 ->
        snd (fst (reserveSlot 0 (clock 9 0) bookedAtTen d sid')) !! clock 10 0
          = Some (confirmed "s1" (clock 10 0) (clock 8 0)))
  /\ (forall d sid',
        fst (isSlotBooked (clock 9 0) bookedAtTen (getSlotKey 0 d)) = false ->
        snd (fst (reserveSlot 0 (clock 9 0)
                    (snd (isSlotBooked (clock 9 0) bookedAtTen (getSlotKey 0 d)))
                    d sid')) !! clock 10 0
          = Some (confirmed "s1" (clock 10 0) (clock 8 0)))
  /\ (forall k sid' s',
        confirmReservation (clock 9 0) bookedAtTen k sid' = Some s' ->
        exists at', s' !! clock 10 0 = Some (confirmed "s1" (clock 10 0) at'))
  /\ (forall k sid',
        releaseReservation bookedAtTen k sid' !! clock 10 0
          = Some (confirmed "s1" (clock 10 0) (clock 8 0)))
  /\ (clock 9 0 - 24 * 60 * 60 * 1000 <= clock 10 0 ->
      startCleanupInterval (clock 9 0) bookedAtTen !! clock 10 0
        = Some (confirmed "s1" (clock 10 0) (clock 8 0))).
Proof.
  apply (confirmed_entry_preserved 0 (clock 9 0) bookedAtTen (clock 10 0)
           "s1" (clock 10 0) (clock 8 0)).
  reflexivity.
Defined.

(** C6 as stated fails: a reservation made for 10:00 by another session
    replaces the confirmed booking held under that key. *)
Lemma reserveSlot_displaces_confirmed :
  bookedAtTen !! clock 10 0 = Some (confirmed "s1" (clock 10 0) (clock 8 0))
  /\ snd (fst (reserveSlot 0 (clock 9 0) bookedAtTen (clock 10 0) "s2")) !! clock 10 0
     = Some (reserved "s2" (clock 9 5) (clock 10 0)).
Proof. split; reflexivity. Qed.

(** Which entries make the conflict test answer true. *)
Lemma checks_tooClose_entries tz now (slots : gmap Z Booking) date :
  isBusinessHour (getDayName tz date) (getTimeString tz date) = true ->
  fst (isSlotBooked now slots (getSlotKey tz date)) = false ->
  (fst (checks tz now slots date) = tooClose <->
   exists k b, k <> getSlotKey tz date /\ slots !! k = Some b /\
               bookingDate b - 40 * 60000 < date < bookingDate b + 40 * 60000).
Proof.
  intros Hb Hs.
  rewrite (checks_tooClose tz now slots date Hb Hs), hasConflictWithBuffer_iff.
  split.
  - intros (k & b & Hk & Ho). exists k, b.
    apply (free_bucket_lookup now slots _ k b Hs) in Hk. destruct Hk.
    repeat split; auto; apply overlaps_iff; auto.
  - intros (k & b & Hne & Hk & Ho). exists k, b. split.
    + apply (free_bucket_lookup now slots _ k b Hs). auto.
    + apply overlaps_iff. exact Ho.
Qed.

(** The branch the checks take.  For an instant within business hours
    whose own bucket holds no live entry, and a map in which no expired
    reservation is still held under another key, the checks take the
    buffer-conflict branch exactly when the instant lies strictly less
    than 40 minutes (slot duration plus buffer) away, on either side,
    from the date of some live booking. *)
Lemma buffer_conflict_iff tz now (slots : gmap Z Booking) date :
  isBusinessHour (getDayName tz date) (getTimeString tz date) = true ->
  fst (isSlotBooked now slots (getSlotKey tz date)) = false ->
  (forall k b, k <> getSlotKey tz date -> slots !! k = Some b -> live now b = true) ->
  (fst (checks tz now slots date) = tooClose <->
   exists k b, slots !! k = Some b /\ live now b = true /\
               bookingDate b - 40 * 60000 < date < bookingDate b + 40 * 60000).
Proof.
  intros Hb Hs Hlive.
  rewrite (checks_tooClose_entries tz now slots date Hb Hs). split.
  - intros (k & b & Hne & Hk & Hi). exists k, b. eauto.
  - intros (k & b & Hk & Hl & Hi). exists k, b. repeat split; try tauto.
    intros ->. rewrite isSlotBooked_spec, Hk, Hl in Hs. discriminate.
Qed.

(** The branch is taken outside the interval from 10 minutes before a
    booking to 40 minutes after it, and for entries that are not live.
    At 15:00 the only entry is a hold for 15:35 that has expired: no
    live booking exists, and 15:00 lies outside [15:25, 16:15] in any
    case, yet the call returns [too_close_to_existing].  With a
    confirmed booking at 10:00 the checks take that branch for 09:25,
    outside [09:50, 10:40]. *)
Lemma buffer_conflict_outside_stated_interval :
  (isBusinessHour (getDayName 0 (clock 15 0)) (getTimeString 0 (clock 15 0)) = true
   /\ fst (isSlotBooked (clock 14 30) staleHold (getSlotKey 0 (clock 15 0))) = false
   /\ checkAvailability 0 2 (clock 14 30) staleHold (clock 15 0)
      = Some (PromiseOf (Unavailable too_close_to_existing TooClose []), ∅)
   /\ ~ (exists k b, staleHold !! k = Some b /\
                     bookingDate b - 10 * 60000 <= clock 15 0
                       <= bookingDate b + (30 + 10) * 60000))
  /\ (isBusinessHour (getDayName 0 (clock 9 25)) (getTimeString 0 (clock 9 25)) = true
      /\ fst (isSlotBooked (clock 9 0) bookedAtTen (getSlotKey 0 (clock 9 25))) = false
      /\ fst (checks 0 (clock 9 0) bookedAtTen (clock 9 25)) = tooClose
      /\ ~ (exists k b, bookedAtTen !! k = Some b /\
                        bookingDate b - 10 * 60000 <= clock 9 25
                          <= bookingDate b + (30 + 10) * 60000)).
Proof.
  split; (split; [reflexivity|]); (split; [reflexivity|]); (split; [vm_compute; reflexivity|]).
  - intros (k & b & Hk & Hi). unfold staleHold in Hk.
    apply lookup_singleton_Some in Hk. destruct Hk as [_ <-].
    vm_compute in Hi. destruct Hi as [Hi _]. apply Hi. reflexivity.
  - intros (k & b & Hk & Hi). unfold bookedAtTen in Hk.
    apply lookup_singleton_Some in Hk. destruct Hk as [_ <-].
    vm_compute in Hi. destruct Hi as [Hi _]. apply Hi. reflexivity.
Qed.

(** The suggestions of [getNearbyAvailableSlots] are always empty: the
    promise it gets from [checkAvailability] has no [available]. *)
Lemma getNearbyAvailableSlots_suggests_nothing tz fuel now date count
      (slots : gmap Z Booking) l s' :
  getNearbyAvailableSlots (checkAvailability tz fuel now) now date count slots
    = Some (l, s') ->
  l = [].
Proof.
  unfold getNearbyAvailableSlots. intros H.
  eapply nearbyLoop_promises; [|exact H].
  intros s d v s1 E. eapply checkAvailability_promise; eauto.
Qed.

(** A probe that does not return stops the loop of
    [getNearbyAvailableSlots] with it. *)
Lemma nearbyLoop_first_probe check now count base off rest acc
      (s : gmap Z Booking) :
  (length acc < count)%nat ->
  check s (base + off * 60000) = None ->
  nearbyLoop check now count base (off :: rest) acc s = None.
Proof.
  intros Hc H. cbn [nearbyLoop].
  apply Nat.leb_gt in Hc. rewrite Hc, H. reflexivity.
Qed.

Lemma nearbyLoop_second_probe check now count base off off' rest acc
      (s s1 : gmap Z Booking) r :
  (length acc < count)%nat ->
  check s (base + off * 60000) = Some (PromiseOf r, s1) ->
  check s1 (base + off' * 60000) = None ->
  nearbyLoop check now count base (off :: off' :: rest) acc s = None.
Proof.
  intros Hc H H'. cbn [nearbyLoop].
  apply Nat.leb_gt in Hc. rewrite Hc, H. cbn [prop_available truthy].
  rewrite H'. reflexivity.
Qed.

(** With a confirmed booking at 10:00, a check for 10:00 does not
    return: the slot is taken, the first probe (10:30) is too close, its
    own second probe is 10:00 again, and so on. *)
Lemma checkAvailability_at_ten_does_not_return fuel :
  checkAvailability 0 fuel (clock 9 0) bookedAtTen (clock 10 0) = None
  /\ checkAvailability 0 fuel (clock 9 0) bookedAtTen (clock 10 30) = None.
Proof.
  assert (E1 : clock 10 0 + 30 * 60000 = clock 10 30) by reflexivity.
  assert (E2 : clock 10 30 + 30 * 60000 = clock 11 0) by reflexivity.
  assert (E3 : clock 10 30 + -30 * 60000 = clock 10 0) by reflexivity.
  assert (C1 : checks 0 (clock 9 0) bookedAtTen (clock 10 0) = (taken, bookedAtTen))
    by (vm_compute; reflexivity).
  assert (C2 : checks 0 (clock 9 0) bookedAtTen (clock 10 30) = (tooClose, bookedAtTen))
    by (vm_compute; reflexivity).
  assert (C3 : checks 0 (clock 9 0) bookedAtTen (clock 11 0) = (free, bookedAtTen))
    by (vm_compute; reflexivity).
  induction fuel as [|fuel [IH1 IH2]]; [split; reflexivity|].
  split.
  - rewrite checkAvailability_unfold, C1. cbv zeta.
    unfold getNearbyAvailableSlots, searchOffsets.
    rewrite nearbyLoop_first_probe; [reflexivity|simpl; lia|].
    rewrite E1. exact IH2.
  - rewrite checkAvailability_unfold, C2. cbv zeta.
    unfold getNearbyAvailableSlots, searchOffsets.
    destruct fuel as [|fuel'].
    + rewrite nearbyLoop_first_probe; [reflexivity|simpl; lia|reflexivity].
    + erewrite nearbyLoop_second_probe; [reflexivity|simpl; lia| |].
      * rewrite E2, checkAvailability_free by (rewrite C3; reflexivity).
        rewrite C3. reflexivity.
      * rewrite E3. exact IH1.
Qed.

(** C3, on the code.  With the expired hold for 15:35 in the map, 15:00
    is answered [too_close_to_existing]; the probes at 15:30, 14:30 and
    16:00 (offsets +30, -30, +60) each check available, and the
    suggestions computed are nevertheless the empty list. *)
Theorem nearby_suggestions_at_three_pm :
  let now := clock 14 30 in
  checkAvailability 0 2 now staleHold (clock 15 0)
    = Some (PromiseOf (Unavailable too_close_to_existing TooClose []), ∅)
  /\ getNearbyAvailableSlots (checkAvailability 0 1 now) now (clock 15 0) 3 staleHold
     = Some ([], ∅)
  /\ (option_map (fun r => available (await (fst r)))
        (checkAvailability 0 1 now staleHold (clock 15 30)) = Some true
      /\ option_map (fun r => available (await (fst r)))
           (checkAvailability 0 1 now ∅ (clock 14 30)) = Some true
      /\ option_map (fun r => available (await (fst r)))
           (checkAvailability 0 1 now ∅ (clock 16 0)) = Some true).
Proof. repeat split; vm_compute; reflexivity. Qed.

End SlotManagerFacts.

Module StringFacts.
Import JsString Terms.
Local Open Scope string_scope.
Local Open Scope Z_scope.


Lemma lowerChar_whiteSpace c : isWhiteSpace (lowerChar c) = isWhiteSpace c.
Proof. destruct c as [[] [] [] [] [] [] [] []]; reflexivity. Qed.

Lemma blank_toLowerCase s : blank (toLowerCase s) = blank s.
Proof.
  induction s as [|c s IH]; simpl; [reflexivity|].
  rewrite lowerChar_whiteSpace, IH. reflexivity.
Qed.

Lemma blank_trimStart s : blank (trimStart s) = blank s.
Proof.
  induction s as [|c s IH]; simpl; [reflexivity|].
  destruct (isWhiteSpace c) eqn:E; simpl; [exact IH|].
  rewrite E. reflexivity.
Qed.

Lemma trimEnd_empty s : trimEnd s = "" <-> blank s = true.
Proof.
  induction s as [|c s IH]; simpl; [tauto|].
  destruct (trimEnd s) eqn:E.
  - destruct (isWhiteSpace c); simpl.
    + tauto.
    + split; discriminate.
  - split; [discriminate|]. intros H. apply andb_true_iff in H.
    destruct H as [_ H]. apply IH in H. discriminate.
Qed.

Lemma trim_empty s : trim s = "" <-> blank s = true.
Proof. unfold trim. rewrite trimEnd_empty, blank_trimStart. tauto. Qed.

Lemma includes_blank s c p :
  blank s = true -> isWhiteSpace c = false -> includes s (String c p) = false.
Proof.
  intros Hb Hc. induction s as [|a s IH]; simpl in *; [reflexivity|].
  apply andb_true_iff in Hb. destruct Hb as [Ha Hs].
  rewrite (IH Hs), orb_false_r.
  destruct (Ascii.eqb c a) eqn:E; [|reflexivity].
  apply Ascii.eqb_eq in E. congruence.
Qed.

(** A message that is not blank passes the first guard of the handler. *)
Lemma not_blank_admitted message :
  blank message = false ->
  String.eqb message "" || (length (trim message) =? 0) = false.
Proof.
  intros Hb. apply orb_false_iff. split.
  - destruct message; [discriminate|reflexivity].
  - apply Z.eqb_neq. unfold length. intros H.
    assert (E : trim message = "").
    { destruct (trim message); [reflexivity|simpl in H; lia]. }
    apply trim_empty in E. congruence.
Qed.

Lemma trim_lower_not_blank message t :
  trim (toLowerCase message) = t -> t <> "" -> blank message = false.
Proof.
  intros E Hne. destruct (blank message) eqn:Hb; [|reflexivity].
  exfalso. apply Hne. rewrite <- E. apply trim_empty.
  rewrite blank_toLowerCase. exact Hb.
Qed.
End StringFacts.

Module ChatControllerFacts.
Import JsString JsDate AppointmentService ChatController Terms Scenarios.
Import StringFacts SlotManagerFacts.
Local Open Scope string_scope.
Local Open Scope Z_scope.

Lemma cancel_intent_not_blank message :
  detectCancelIntent message = true -> blank message = false.
Proof.
  intros H. destruct (blank message) eqn:Hb; [|reflexivity].
  rewrite <- blank_toLowerCase in Hb.
  unfold detectCancelIntent, includesSome, cancelPhrases in H. simpl in H.
  rewrite !(includes_blank _ _ _ Hb) in H by reflexivity.
  discriminate.
Qed.


Section Handler.
Variable tz : Z.
Variable parseDate : string -> option Z.
Variable toLocaleDateString : Z -> string.
Variable uuidv4 : string.
Variable answerQuestion : string -> list ChatMessage -> option string.


(** C1, as amended.  In every booking state other than NONE and
    COMPLETED, a message matching the cancellation lexicon is
    answered with the cancellation text, and the conversation saved
    has state NONE and an empty draft; the slot manager is not
    called, so the map of booked slots and the scheduled releases are
    exactly as before. *)
Theorem cancel_resets_state_and_draft fuel now conversation message provided w :
  appointmentState conversation <> NONE ->
  appointmentState conversation <> COMPLETED ->
  detectCancelIntent message = true ->
  exists sid saved',
    handleMessage tz parseDate toLocaleDateString uuidv4 answerQuestion
      fuel now (Some conversation) message provided w
      = Some {| response := json sid BookingCancelled NONE;
                saved := Some saved'; world := w |}
    /\ appointmentState saved' = NONE
    /\ appointmentData saved' = noData.
Proof using Type.
  intros Hn Hc Hi. unfold handleMessage.
  rewrite (not_blank_admitted _ (cancel_intent_not_blank _ Hi)).
  cbn [push appointmentState]. rewrite Hi.
  destruct (appointmentState conversation); try congruence;
    cbn [isNone isCompleted negb andb];
    eexists; eexists; (split; [reflexivity|split; reflexivity]).
Qed.

(** C10.  In state COMPLETED, the answers "no", "cancel" and "n" get
    the cancellation text; the conversation saved has state NONE and
    an empty draft; the slot manager is not called, so its map and
    the scheduled releases are unchanged.  A reservation in that map
    therefore still reads as booked at every time up to its expiry,
    and no availability check for an instant of its bucket answers
    available, whichever session asks. *)
Theorem deny_at_confirmation_keeps_hold fuel now conversation message provided w :
  appointmentState conversation = COMPLETED ->
  (trim (toLowerCase message) = "no" \/ trim (toLowerCase message) = "cancel"
   \/ trim (toLowerCase message) = "n") ->
  exists sid saved',
    handleMessage tz parseDate toLocaleDateString uuidv4 answerQuestion
      fuel now (Some conversation) message provided w
      = Some {| response := json sid BookingCancelledAtConfirmation COMPLETED;
                saved := Some saved'; world := w |}
    /\ appointmentState saved' = NONE
    /\ appointmentData saved' = noData
    /\ forall key owner expiresAt date,
         bookedSlots w !! key = Some (SlotManager.reserved owner expiresAt date) ->
         forall later, later <= expiresAt ->
           SlotManager.isSlotBooked later (bookedSlots w) key = (true, bookedSlots w)
           /\ forall requested,
                SlotManager.getSlotKey tz requested = key ->
                (fst (SlotManager.checks tz later (bookedSlots w) requested)
                   = SlotManager.closedThen
                 \/ fst (SlotManager.checks tz later (bookedSlots w) requested)
                   = SlotManager.taken)
                /\ forall fuel' v s',
                     SlotManager.checkAvailability tz fuel' later (bookedSlots w) requested
                       = Some (v, s') ->
                     SlotManager.available (SlotManager.await v) = false.
Proof using Type.
  intros Hs Hm.
  assert (Hb : blank message = false).
  { destruct Hm as [H|[H|H]]; eapply trim_lower_not_blank; eauto; discriminate. }
  unfold handleMessage.
  rewrite (not_blank_admitted _ Hb).
  cbn [push appointmentState]. rewrite Hs.
  cbn [isNone isCompleted negb andb]. unfold handleCompleted.
  assert (Hno : (String.eqb (trim (toLowerCase message)) "yes"
                 || String.eqb (trim (toLowerCase message)) "confirm"
                 || String.eqb (trim (toLowerCase message)) "y" = false)
                /\ (String.eqb (trim (toLowerCase message)) "no"
                    || String.eqb (trim (toLowerCase message)) "cancel"
                    || String.eqb (trim (toLowerCase message)) "n" = true)).
  { destruct Hm as [->|[->| ->]]; split; reflexivity. }
  destruct Hno as [-> ->]. cbn [push setData setState appointmentState].
  rewrite Hs.
  eexists; eexists. split; [reflexivity|]. split; [reflexivity|].
  split; [reflexivity|].
  intros key owner expiresAt date Hk later Hl.
  assert (Hbooked : SlotManager.isSlotBooked later (bookedSlots w) key
                    = (true, bookedSlots w)).
  { unfold SlotManager.isSlotBooked. rewrite Hk.
    destruct (expiresAt <? later) eqn:E; [|reflexivity].
    apply Z.ltb_lt in E. lia. }
  split; [exact Hbooked|].
  intros requested Hreq.
  assert (Hbranch : fst (SlotManager.checks tz later (bookedSlots w) requested)
                      = SlotManager.closedThen
                    \/ fst (SlotManager.checks tz later (bookedSlots w) requested)
                      = SlotManager.taken).
  { unfold SlotManager.checks.
    destruct (negb _); [left; reflexivity|].
    rewrite Hreq, Hbooked. right. reflexivity. }
  split; [exact Hbranch|].
  intros fuel' v s' Hrun.
  apply checkAvailability_branch in Hrun.
  destruct (SlotManager.await v) as [[] ? ?|]; simpl in *;
    try reflexivity.
  destruct Hbranch as [Hbr|Hbr]; rewrite Hbr in Hrun; discriminate.
Qed.
End Handler.


(** C1 as stated fails.  After the turns above the session is in state
    ASK_PET_NAME and the slot manager still holds its reservation of
    tomorrow's 15:00 slot; "cancel" then resets the state and leaves
    that reservation in the map, four minutes and more before its
    expiry. *)
Lemma cancel_does_not_release_hold :
  let held := SlotManager.reserved "s1" (tuesday_nine + 4000 + 300000) (clock 15 0) in
  exists before after w,
    talk declinedThenRestarted None emptyWorld = Some (Some before, w)
    /\ appointmentState before = ASK_PET_NAME
    /\ bookedSlots w !! clock 15 0 = Some held
    /\ talk [(tuesday_nine + 7000, "cancel")] (Some before) w = Some (Some after, w)
    /\ appointmentState after = NONE
    /\ bookedSlots w !! clock 15 0 = Some held
    /\ tuesday_nine + 7000 < tuesday_nine + 4000 + 300000.
Proof.
  intros held. eexists; eexists; eexists.
  split; [vm_compute; reflexivity|].
  split; [reflexivity|].
  split; [vm_compute; reflexivity|].
  split; [vm_compute; reflexivity|].
  split; [reflexivity|].
  split; [vm_compute; reflexivity|].
  reflexivity.
Qed.

(** A conversation waiting for yes or no, holding tomorrow's 15:00. *)
Lemma deny_at_confirmation_keeps_hold_witness :
  let conversation :=
    {| sessionId := "s1"; messages := [];
       appointmentState := COMPLETED;
       appointmentData := setSlotKey noData (clock 15 0) |} in
  let w :=
    {| bookedSlots := {[ clock 15 0 := SlotManager.reserved "s1" (clock 9 5) (clock 15 0) ]};
       timers := []; appointments := [] |} in
  exists sid saved',
    handleMessage 0 (fun _ => None) (fun _ => "") "fresh" (fun _ _ => None)
      0 (clock 9 1) (Some conversation) " Cancel" (Some "s1") w
      = Some {| response := json sid BookingCancelledAtConfirmation COMPLETED;
                saved := Some saved'; world := w |}
    /\ appointmentState saved' = NONE
    /\ appointmentData saved' = noData
    /\ forall key owner expiresAt date,
         bookedSlots w !! key = Some (SlotManager.reserved owner expiresAt date) ->
         forall later, later <= expiresAt ->
           SlotManager.isSlotBooked later (bookedSlots w) key = (true, bookedSlots w)
           /\ forall requested,
                SlotManager.getSlotKey 0 requested = key ->
                (fst (SlotManager.checks 0 later (bookedSlots w) requested)
                   = SlotManager.closedThen
                 \/ fst (SlotManager.checks 0 later (bookedSlots w) requested)
                   = SlotManager.taken)
                /\ forall fuel' v s',
                     SlotManager.checkAvailability 0 fuel' later (bookedSlots w) requested
                       = Some (v, s') ->
                     SlotManager.available (SlotManager.await v) = false.
Proof.
  intros conversation w.
  apply (deny_at_confirmation_keeps_hold 0 (fun _ => None) (fun _ => "") "fresh"
           (fun _ _ => None) 0%nat (clock 9 1) conversation " Cancel" (Some "s1") w).
  - reflexivity.
  - right. left. reflexivity.
Defined.

Lemma cancel_resets_state_and_draft_witness :
  exists sid saved',
    handleMessage 0 (fun _ => None) (fun _ => "") "fresh" (fun _ _ => None)
      0 tuesday_nine
      (Some {| sessionId := "s1"; messages := [];
               appointmentState := ASK_PHONE; appointmentData := noData |})
      "please cancel" (Some "s1") emptyWorld
      = Some {| response := json sid BookingCancelled NONE;
                saved := Some saved'; world := emptyWorld |}
    /\ appointmentState saved' = NONE
    /\ appointmentData saved' = noData.
Proof.
  apply (cancel_resets_state_and_draft 0 (fun _ => None) (fun _ => "") "fresh"
           (fun _ _ => None) 0%nat tuesday_nine
           {| sessionId := "s1"; messages := [];
              appointmentState := ASK_PHONE; appointmentData := noData |}
           "please cancel" (Some "s1") emptyWorld).
  - discriminate.
  - discriminate.
  - reflexivity.
Defined.

End ChatControllerFacts.

Module DateFacts.
Import JsString JsDate AppointmentService Scenarios.
Local Open Scope string_scope.
Local Open Scope Z_scope.

Lemma setHours_local tz t h m s ms :
  localTime tz (setHours tz t h m s ms)
  = Day (localTime tz t) * msPerDay + h * msPerHour + m * msPerMinute
    + s * msPerSecond + ms.
Proof. unfold setHours, utc, localTime. lia. Qed.

Lemma ten_oclock tz t :
  TimeWithinDay (localTime tz (setHours tz t 10 0 0 0)) = 10 * msPerHour
  /\ Day (localTime tz (setHours tz t 10 0 0 0)) = Day (localTime tz t).
Proof.
  rewrite setHours_local. unfold TimeWithinDay, Day, msPerDay, msPerHour,
    msPerMinute, msPerSecond.
  generalize (localTime tz t / 86400000). intros D.
  split; Z.div_mod_to_equations; lia.
Qed.

Lemma addDays_day tz t k :
  Day (localTime tz (addDays t k)) = Day (localTime tz t) + k.
Proof.
  unfold addDays, localTime, Day, msPerDay.
  replace (t + k * 86400000 + tz) with (t + tz + k * 86400000) by lia.
  apply Z.div_add. lia.
Qed.

Lemma two_hours_on tz t :
  localTime tz (setHours tz t (getHours tz t + 2) 0 0 0)
  = localTime tz t - localTime tz t mod msPerHour + 2 * msPerHour.
Proof.
  rewrite setHours_local. unfold getHours, TimeWithinDay, Day, msPerDay, msPerHour,
    msPerMinute, msPerSecond.
  generalize (localTime tz t). intros l.
  Z.div_mod_to_equations. lia.
Qed.

Section Zone.
Variable tz : Z.
Variable parseDate : string -> option Z.
Variable toLocaleDateString : Z -> string.


(** The instant the date branches of [validateDateTime] settle on
    when the text carries no am/pm time. *)
Lemma validateDateTime_valid now text date formatted :
  validateDateTime tz parseDate toLocaleDateString now text = valid date formatted ->
  timeMatch (trim (toLowerCase text)) = None ->
  let lowerStr := trim (toLowerCase text) in
  (includes lowerStr "tomorrow" = true ->
   date = setHours tz (addDays now 1) 10 0 0 0)
  /\ (includes lowerStr "tomorrow" = false ->
      includes lowerStr "next" = true ->
      findTargetDay lowerStr 0 days <> None ->
      exists k, date = setHours tz (addDays now k) 10 0 0 0)
  /\ (includes lowerStr "tomorrow" = false ->
      includes lowerStr "next" = false ->
      includes lowerStr "today" = true ->
      date = setHours tz now (getHours tz now + 2) 0 0 0).
Proof using Type.
  intros Hv Hm lowerStr.
  unfold validateDateTime, withTime in Hv.
  fold lowerStr in Hv, Hm. rewrite Hm in Hv.
  assert (Hin : forall d, (if d <=? now then invalid SelectFutureDate
             else if setMonth tz now (getMonth tz now + 6) <? d
                  then invalid UpToSixMonths
                  else valid d (toLocaleDateString d)) = valid date formatted ->
             date = d).
  { intros d. destruct (d <=? now); [discriminate|].
    destruct (_ <? d); [discriminate|]. congruence. }
  repeat split.
  - intros Ht. rewrite Ht in Hv. apply Hin in Hv. exact Hv.
  - intros Ht Hn Hd. rewrite Ht, Hn in Hv.
    destruct (findTargetDay lowerStr 0 days) as [td|]; [|congruence].
    apply Hin in Hv. eexists. exact Hv.
  - intros Ht Hn Hd. rewrite Ht, Hn, Hd in Hv. apply Hin in Hv. exact Hv.
Qed.

(** C9.  The default time of day.  For a text [validateDateTime]
    accepts and that carries no am/pm time: if it contains "tomorrow",
    or "next" with a weekday, the resolved instant's time of day is
    exactly 10:00, and for "tomorrow" its date is the day after
    today's; if it contains "today" and neither "tomorrow" nor "next",
    the resolved instant is two hours after the start of the current
    hour. *)
Theorem default_time_of_day now text date formatted :
  validateDateTime tz parseDate toLocaleDateString now text = valid date formatted ->
  timeMatch (trim (toLowerCase text)) = None ->
  let lowerStr := trim (toLowerCase text) in
  ((includes lowerStr "tomorrow" = true
    \/ (includes lowerStr "next" = true /\ findTargetDay lowerStr 0 days <> None)) ->
   TimeWithinDay (localTime tz date) = 10 * msPerHour)
  /\ (includes lowerStr "tomorrow" = true ->
      Day (localTime tz date) = Day (localTime tz now) + 1)
  /\ (includes lowerStr "today" = true ->
      includes lowerStr "tomorrow" = false ->
      includes lowerStr "next" = false ->
      localTime tz date
      = localTime tz now - localTime tz now mod msPerHour + 2 * msPerHour).
Proof using Type.
  intros Hv Hm lowerStr.
  destruct (validateDateTime_valid now text date formatted Hv Hm) as (Ha & Hb & Hc).
  fold lowerStr in Ha, Hb, Hc.
  repeat split.
  - intros Hcase.
    destruct (includes lowerStr "tomorrow") eqn:Ht.
    + rewrite (Ha eq_refl). apply ten_oclock.
    + destruct Hcase as [Hcase|[Hn Hd]]; [discriminate|].
      destruct (Hb eq_refl Hn Hd) as [k ->]. apply ten_oclock.
  - intros Ht. rewrite (Ha Ht).
    rewrite (proj2 (ten_oclock tz (addDays now 1))). apply addDays_day.
  - intros Hd Ht Hn. rewrite (Hc Ht Hn Hd). apply two_hours_on.
Qed.
End Zone.

Lemma default_time_of_day_witness :
  let now := clock 14 37 in
  let text := "Tomorrow please" in
  let date := clock (24 + 10) 0 in
  let lowerStr := trim (toLowerCase text) in
  ((includes lowerStr "tomorrow" = true
    \/ (includes lowerStr "next" = true /\ findTargetDay lowerStr 0 days <> None)) ->
   TimeWithinDay (localTime 0 date) = 10 * msPerHour)
  /\ (includes lowerStr "tomorrow" = true ->
      Day (localTime 0 date) = Day (localTime 0 now) + 1)
  /\ (includes lowerStr "today" = true ->
      includes lowerStr "tomorrow" = false ->
      includes lowerStr "next" = false ->
      localTime 0 date
      = localTime 0 now - localTime 0 now mod msPerHour + 2 * msPerHour).
Proof.
  apply (default_time_of_day 0 (fun _ => None) (fun _ => "") (clock 14 37)
           "Tomorrow please" (clock (24 + 10) 0) "").
  - reflexivity.
  - reflexivity.
Defined.

(** At 14:37 the text "today" resolves to 16:00, not to 16:37, the two
    hours from now that the comment on that line of [validateDateTime]
    announces; and a text that names both today and tomorrow resolves
    to tomorrow 10:00. *)
Lemma today_is_not_two_hours_from_now :
  (validateDateTime 0 (fun _ => None) (fun _ => "") (clock 14 37) "today"
     = valid (clock 16 0) ""
   /\ timeMatch (trim (toLowerCase "today")) = None
   /\ clock 16 0 <> clock 14 37 + 2 * msPerHour)
  /\ (validateDateTime 0 (fun _ => None) (fun _ => "") (clock 14 37) "today or tomorrow"
        = valid (clock (24 + 10) 0) ""
      /\ includes (trim (toLowerCase "today or tomorrow")) "today" = true
      /\ timeMatch (trim (toLowerCase "today or tomorrow")) = None
      /\ clock (24 + 10) 0 <> clock 14 37 + 2 * msPerHour).
Proof.
  repeat split; try reflexivity; vm_compute; discriminate.
Qed.

End DateFacts.

Module CacheFacts.
Import CacheService Terms Scenarios.
Local Open Scope string_scope.
Local Open Scope list_scope.
Local Open Scope Z_scope.

Section Tiers.
Variable Value : Type.
Variable Failure : Type.
Variable Key : Type.
Variable generateKey : Key -> string.

Local Abbreviation Entry := (Entry Value).
Local Abbreviation Layer := (Layer Value).
Local Abbreviation Cache := (Cache Value).
Local Abbreviation Resume :=
  (Cache -> Z -> Settled Value Failure -> (Value + Failure) * Cache).


Lemma mapGet_mapSet_same (m : Layer) k e : mapGet (mapSet m k e) k = Some e.
Proof.
  induction m as [|[k' e'] m IH]; simpl.
  - rewrite String.eqb_refl. reflexivity.
  - destruct (String.eqb k' k) eqn:E; simpl; rewrite E; auto.
Qed.

Lemma mapGet_mapDelete_other (m : Layer) k k' :
  k' <> k -> mapGet (mapDelete m k') k = mapGet m k.
Proof.
  intros Hne. induction m as [|[a e] m IH]; simpl; [reflexivity|].
  destruct (String.eqb a k') eqn:E1.
  - apply String.eqb_eq in E1. subst a.
    destruct (String.eqb k' k) eqn:E2; [|reflexivity].
    apply String.eqb_eq in E2. contradiction.
  - simpl. rewrite IH. reflexivity.
Qed.

Lemma mapSet_present (m : Layer) k e e0 :
  mapGet m k = Some e0 -> List.length (mapSet m k e) = List.length m.
Proof.
  induction m as [|[a x] m IH]; simpl; [discriminate|].
  destruct (String.eqb a k); simpl; auto.
Qed.

Lemma mapSet_absent (m : Layer) k e :
  mapGet m k = None -> mapSet m k e = m ++ [(k, e)].
Proof.
  induction m as [|[a x] m IH]; simpl; [reflexivity|].
  destruct (String.eqb a k); [discriminate|]. intros H. rewrite IH; auto.
Qed.

Lemma mapGet_In (m : Layer) k e : In (k, e) m -> mapGet m k <> None.
Proof.
  induction m as [|[a x] m IH]; simpl; [tauto|].
  intros [H|H].
  - inversion H; subst. rewrite String.eqb_refl. discriminate.
  - destruct (String.eqb a k); [discriminate|auto].
Qed.

(** The scan settles on the key it started with or on a key of the
    layer. *)
Lemma scanLRU_from (m : Layer) k0 t0 r :
  scanLRU m (Some k0) (Some t0) = Some r ->
  r = k0 \/ exists e, In (r, e) m.
Proof.
  revert k0 t0. induction m as [|[a x] m IH]; simpl; intros k0 t0 H.
  - left. congruence.
  - destruct (lastAccessed x <? t0).
    + apply IH in H. destruct H as [->|[e He]]; right; eauto.
    + apply IH in H. destruct H as [->|[e He]]; [left|right]; eauto.
Qed.

(** An entry accessed last, placed last, is not the one the scan
    picks when something precedes it. *)
Lemma scanLRU_newest_last (m : Layer) k e k0 t0 :
  t0 <= lastAccessed e ->
  (forall a x, In (a, x) m -> lastAccessed x <= lastAccessed e) ->
  scanLRU (m ++ [(k, e)]) (Some k0) (Some t0) = scanLRU m (Some k0) (Some t0).
Proof.
  revert k0 t0. induction m as [|[a x] m IH]; simpl; intros k0 t0 Ht Hm.
  - destruct (lastAccessed e <? t0) eqn:E; [|reflexivity].
    apply Z.ltb_lt in E. lia.
  - destruct (lastAccessed x <? t0).
    + apply IH; [apply (Hm a x); auto|intros; eapply Hm; eauto].
    + apply IH; [exact Ht|intros; eapply Hm; eauto].
Qed.

Lemma evictLRU2_l1 (c : Cache) : l1 (evictLRU2 c) = l1 c.
Proof. unfold evictLRU2. destruct (truthyKey _); reflexivity. Qed.

(** [set] leaves the entry it wrote in the hot tier. *)
Lemma set_resident key v ttl' now (c : Cache) :
  withinCapacity c -> accessedBy now c ->
  mapGet (l1 (set key v ttl' now c)) key
  = Some {| value := v; timestamp := now; ttl := ttl'; hits := 0;
            lastAccessed := now |}.
Proof.
  intros Hcap Hacc. unfold set. cbn [l1 l2 stats].
  set (entry := {| value := v; timestamp := now; ttl := ttl'; hits := 0;
                   lastAccessed := now |}).
  destruct (l1MaxSize <? mapSize (mapSet (l1 c) key entry)) eqn:Hfull;
    [|apply mapGet_mapSet_same].
  apply Z.ltb_lt in Hfull. unfold withinCapacity, mapSize in *.
  destruct (mapGet (l1 c) key) as [e0|] eqn:Hget.
  { rewrite (mapSet_present _ _ _ _ Hget) in Hfull. lia. }
  unfold evictLRU. cbn [l1 l2 stats].
  destruct (truthyKey (scanLRU (mapSet (l1 c) key entry) None None))
    as [lruKey|] eqn:Hscan; [|apply mapGet_mapSet_same].
  assert (Hne : lruKey <> key).
  { unfold truthyKey in Hscan.
    destruct (scanLRU (mapSet (l1 c) key entry) None None) as [r|] eqn:Hr;
      [|discriminate].
    assert (r = lruKey) by (destruct (String.eqb r ""); congruence). subst r.
    rewrite (mapSet_absent _ _ _ Hget) in Hr.
    destruct (l1 c) as [|[a x] m] eqn:Hl.
    - simpl in Hfull. unfold l1MaxSize in Hfull. lia.
    - simpl in Hr.
      rewrite scanLRU_newest_last in Hr.
      + apply scanLRU_from in Hr.
        assert (Hin : exists e', In (lruKey, e') ((a, x) :: m)).
        { destruct Hr as [->|[e' He']]; [exists x; left; reflexivity|].
          exists e'. right. exact He'. }
        destruct Hin as [e' He']. intros ->.
        apply mapGet_In in He'. apply He'. exact Hget.
      + simpl. apply (Hacc a x). rewrite Hl. left. reflexivity.
      + intros b y Hb. simpl. apply (Hacc b y). rewrite Hl. right. exact Hb. }
  match goal with
  | |- mapGet (l1 ?c') key = _ =>
      assert (Hl1 : l1 c' = mapDelete (mapSet (l1 c) key entry) lruKey)
  end.
  { destruct (mapGet (mapSet (l1 c) key entry) lruKey); [|reflexivity].
    cbn [l1 l2 stats].
    destruct (l2MaxSize <? _); [rewrite evictLRU2_l1|]; reflexivity. }
  rewrite Hl1, mapGet_mapDelete_other by exact Hne.
  apply mapGet_mapSet_same.
Qed.

Lemma checkLayers_cached key now (c : Cache) :
  fst (checkLayers key now c) = option_map (touch now) (cachedEntry c key).
Proof.
  unfold checkLayers, cachedEntry.
  destruct (mapGet (l1 c) key); [reflexivity|].
  destruct (mapGet (l2 c) key); reflexivity.
Qed.

Lemma isExpired_touch now at_ (e : Entry) :
  isExpired now (touch at_ e) = isExpired now e.
Proof. reflexivity. Qed.

(** The three ways a [get] can go, by what the lookup finds. *)
Lemma get_fresh (c : Cache) key optionsTtl now e :
  cachedEntry c (generateKey key) = Some e ->
  isExpired now e = false ->
  exists c', get generateKey c key optionsTtl now
             = returned (Failure := Failure) (value e) c'.
Proof using Type.
  intros Hc He. unfold get.
  pose proof (checkLayers_cached (generateKey key) now c) as Hl.
  destruct (checkLayers (generateKey key) now c) as [cached c1].
  simpl in Hl. rewrite Hc in Hl. simpl in Hl. subst cached.
  rewrite isExpired_touch, He. eexists. reflexivity.
Qed.

Lemma get_stale (c : Cache) key optionsTtl now e :
  cachedEntry c (generateKey key) = Some e ->
  isExpired now e = true ->
  exists c' resume,
    get generateKey c key optionsTtl now = awaitGenerator c' resume
    /\ forall c2 later (error : Failure),
         resume c2 later (rejectedWith error) = (inl (value e), c2).
Proof using Type.
  intros Hc He. unfold get.
  pose proof (checkLayers_cached (generateKey key) now c) as Hl.
  destruct (checkLayers (generateKey key) now c) as [cached c1].
  simpl in Hl. rewrite Hc in Hl. simpl in Hl. subst cached.
  rewrite isExpired_touch, He. eexists. eexists. split; [reflexivity|].
  reflexivity.
Qed.

Lemma get_absent (c : Cache) key optionsTtl now :
  cachedEntry c (generateKey key) = None ->
  exists c' resume,
    get generateKey c key optionsTtl now = awaitGenerator c' resume
    /\ forall c2 later (error : Failure),
         resume c2 later (rejectedWith error) = (inr error, c2).
Proof using Type.
  intros Hc. unfold get.
  pose proof (checkLayers_cached (generateKey key) now c) as Hl.
  destruct (checkLayers (generateKey key) now c) as [cached c1].
  simpl in Hl. rewrite Hc in Hl. simpl in Hl. subst cached.
  eexists. eexists. split; reflexivity.
Qed.

Lemma get_stores (c : Cache) key optionsTtl now c1
      (resume : Resume) :
  get generateKey c key optionsTtl now = awaitGenerator c1 resume ->
  forall c2 later v,
    resume c2 later (fulfilled v)
    = (inl v, set (generateKey key) v (ttlOption optionsTtl) later c2).
Proof using Type.
  unfold get.
  destruct (checkLayers (generateKey key) now c) as [cached c0].
  destruct (match cached with
            | Some entry => if isExpired now entry then None else Some entry
            | None => None
            end); intros H; [discriminate|].
  inversion H; subst. reflexivity.
Qed.

(** C7.  When the lookup finds an expired entry (the hot tier's, else
    the warm tier's), [get] calls the generator, and if the generator
    fails [get] returns that entry's value instead of the failure;
    when neither tier has an entry for the key, the generator's
    failure is what [get] ends with. *)
Theorem stale_value_on_generator_failure (c : Cache) key optionsTtl now :
  (forall e, cachedEntry c (generateKey key) = Some e ->
             isExpired now e = true ->
             exists c' resume,
               get generateKey c key optionsTtl now = awaitGenerator c' resume
               /\ forall c2 later (error : Failure),
                    resume c2 later (rejectedWith error) = (inl (value e), c2))
  /\ (mapGet (l1 c) (generateKey key) = None ->
      mapGet (l2 c) (generateKey key) = None ->
      exists c' resume,
        get generateKey c key optionsTtl now = awaitGenerator c' resume
        /\ forall c2 later (error : Failure),
             resume c2 later (rejectedWith error) = (inr error, c2)).
Proof using Type.
  split.
  - intros e Hc He. apply get_stale; assumption.
  - intros H1 H2. apply get_absent. unfold cachedEntry. rewrite H1. exact H2.
Qed.

(** C4, as amended.  Once a [get] with ttl [T] has called its
    generator and stored the value it produced (in a hot tier within
    its capacity, none of whose entries was accessed later than the
    time of storing), the value is cached under the key with the time
    of storing and the ttl [T'], which is [T], or one hour when [T] is
    0.  On every later cache in which the key has not been stored
    again (what it holds under the key, if anything, is that value
    with that time and ttl), a [get] for the same key returns the
    stored value without calling its generator if the entry is still
    cached and [now - created <= T'], and calls the generator again
    once more than [T'] has elapsed. *)
Theorem get_again_within_and_after_ttl (c : Cache) key T now c1
        (resume : Resume) :
  get generateKey c key (Some T) now = awaitGenerator c1 resume ->
  let T' := if T =? 0 then 3600000 else T in
  forall c2 created v,
    withinCapacity c2 -> accessedBy created c2 ->
    fst (resume c2 created (fulfilled v)) = inl v
    /\ cachedEntry (snd (resume c2 created (fulfilled v))) (generateKey key)
       = Some {| value := v; timestamp := created; ttl := T';
                 hits := 0; lastAccessed := created |}
    /\ forall (c3 : Cache) optionsTtl later,
         (forall e : Entry,
            cachedEntry c3 (generateKey key) = Some e ->
            value e = v /\ timestamp e = created /\ ttl e = T') ->
         (cachedEntry c3 (generateKey key) <> None ->
          later - created <= T' ->
          exists c4, get generateKey c3 key optionsTtl later
                     = returned (Failure := Failure) v c4)
         /\ (T' < later - created ->
             exists c4 (resume' : Resume),
               get generateKey c3 key optionsTtl later
               = awaitGenerator c4 resume').
Proof using Type.
  intros Hget T' c2 created v Hcap Hacc.
  assert (HT : ttlOption (Some T) = T') by reflexivity.
  rewrite (get_stores _ _ _ _ _ _ Hget). cbn [fst snd]. rewrite HT.
  split; [reflexivity|]. split.
  - unfold cachedEntry.
    rewrite (set_resident (generateKey key) v T' created c2 Hcap Hacc). reflexivity.
  - intros c3 optionsTtl later Hsame.
    destruct (cachedEntry c3 (generateKey key)) as [e|] eqn:Hc.
    + destruct (Hsame e eq_refl) as (Hv & Ht & Httl). split.
      * intros _ Hin.
        destruct (get_fresh c3 key optionsTtl later e Hc) as [c4 H4].
        -- unfold isExpired. rewrite Ht, Httl. apply Z.ltb_ge. exact Hin.
        -- exists c4. rewrite <- Hv. exact H4.
      * intros Hout.
        destruct (get_stale c3 key optionsTtl later e Hc) as (c4 & r & H4 & _).
        -- unfold isExpired. rewrite Ht, Httl. apply Z.ltb_lt. exact Hout.
        -- exists c4, r. exact H4.
    + split.
      * intros Hne. destruct (Hne eq_refl).
      * intros _.
        destruct (get_absent c3 key optionsTtl later Hc) as (c4 & r & H4 & _).
        exists c4, r. exact H4.
Qed.
End Tiers.





Lemma stale_value_on_generator_failure_witness :
  (exists c' resume,
     get identity agedCache "k" None 5000 = awaitGenerator c' resume
     /\ forall c2 later (error : string),
          resume c2 later (rejectedWith error) = (inl "old", c2))
  /\ (exists c' resume,
        get identity emptyCache "k" None 5000 = awaitGenerator c' resume
        /\ forall c2 later (error : string),
             resume c2 later (rejectedWith error) = (inr error, c2)).
Proof.
  split.
  - apply (proj1 (stale_value_on_generator_failure string string string identity
                    agedCache "k" None 5000)
             {| value := "old"; timestamp := 0; ttl := 1000;
                hits := 0; lastAccessed := 0 |}).
    + reflexivity.
    + reflexivity.
  - apply (proj2 (stale_value_on_generator_failure string string string identity
                    emptyCache "k" None 5000)).
    + reflexivity.
    + reflexivity.
Defined.

Lemma get_again_within_and_after_ttl_witness :
  match get (Failure := string) identity emptyCache "k" (Some 5000) 1000 with
  | returned _ _ => False
  | awaitGenerator _ resume =>
      fst (resume emptyCache 1200 (fulfilled "answer")) = inl "answer"
      /\ cachedEntry (snd (resume emptyCache 1200 (fulfilled "answer"))) (identity "k")
         = Some {| value := "answer"; timestamp := 1200;
                   ttl := if 5000 =? 0 then 3600000 else 5000;
                   hits := 0; lastAccessed := 1200 |}
      /\ forall (c3 : Cache string) optionsTtl later,
           (forall e : Entry string,
              cachedEntry c3 (identity "k") = Some e ->
              value e = "answer" /\ timestamp e = 1200
              /\ ttl e = (if 5000 =? 0 then 3600000 else 5000)) ->
           (cachedEntry c3 (identity "k") <> None ->
            later - 1200 <= (if 5000 =? 0 then 3600000 else 5000) ->
            exists c4, get identity c3 "k" optionsTtl later
                       = returned (Failure := string) "answer" c4)
           /\ ((if 5000 =? 0 then 3600000 else 5000) < later - 1200 ->
               exists c4 (resume' : Cache string -> Z -> Settled string string
                                    -> (string + string) * Cache string),
                 get identity c3 "k" optionsTtl later = awaitGenerator c4 resume')
  end.
Proof.
  destruct (get (Failure := string) identity emptyCache "k" (Some 5000) 1000)
    as [v c|c1 resume] eqn:E.
  - discriminate E.
  - apply (get_again_within_and_after_ttl string string string identity
             emptyCache "k" 5000 1000 c1 resume E emptyCache 1200 "answer").
    + unfold withinCapacity, mapSize, l1MaxSize. simpl. lia.
    + intros k e H. destruct H.
Defined.

(** C4 as stated fails for a ttl of 0: the value stored at time 1000 is
    returned, without a call of the generator, one second later. *)
Lemma zero_ttl_outlives_its_time :
  match get (Failure := string) identity emptyCache "k" (Some 0) 1000 with
  | returned _ _ => False
  | awaitGenerator _ resume =>
      0 < 2000 - 1000
      /\ exists c4,
           get (Failure := string) identity
             (snd (resume emptyCache 1000 (fulfilled "answer"))) "k" (Some 0) 2000
           = returned "answer" c4
  end.
Proof. simpl. split; [lia|]. eexists. reflexivity. Qed.

(** Within its ttl an answer is generated again once it has been
    pushed out of both tiers: stored at time 1000 with a ttl of one
    hour, it is still cached after 599 other stores and gone after
    600, and the [get] at time 2000 calls the generator. *)
Lemma evicted_answer_is_generated_again :
  match get (Failure := string) identity emptyCache "k" (Some 3600000) 1000 with
  | returned _ _ => False
  | awaitGenerator _ resume =>
      let stored := snd (resume emptyCache 1000 (fulfilled "answer")) in
      option_map value (cachedEntry (storeOthers 1000 599 stored) "k") = Some "answer"
      /\ cachedEntry (storeOthers 1000 600 stored) "k" = None
      /\ 2000 - 1000 <= 3600000
      /\ match get (Failure := string) identity (storeOthers 1000 600 stored) "k"
                 (Some 3600000) 2000 with
         | returned _ _ => False
         | awaitGenerator _ _ => True
         end
  end.
Proof. vm_compute. repeat split; discriminate. Qed.

End CacheFacts.

Module LevenshteinFacts.
Import Levenshtein.
Local Open Scope nat_scope.

Local Abbreviation lev := levenshtein_distance.

Lemma lev_nil_l t : lev [] t = length t.
Proof. reflexivity. Qed.

Lemma lev_nil_r s : lev s [] = length s.
Proof. destruct s; reflexivity. Qed.

Lemma lev_cons a s b t :
  lev (a :: s) (b :: t)
  = Nat.min (Nat.min (lev s (b :: t) + 1) (lev (a :: s) t + 1))
            (lev s t + (if Ascii.eqb a b then 0 else 1)).
Proof. reflexivity. Qed.

Arguments levenshtein_distance : simpl never.

(** The distance is the cost of some alignment ... *)
Lemma lev_edits s t : edits s t (lev s t).
Proof.
  revert t. induction s as [|a s IHs]; intros t.
  - rewrite lev_nil_l. induction t as [|b t IHt]; simpl; constructor; auto.
  - induction t as [|b t IHt].
    + rewrite lev_nil_r. simpl. constructor.
      specialize (IHs []). rewrite lev_nil_r in IHs. exact IHs.
    + rewrite lev_cons.
      destruct (Nat.min_dec (Nat.min (lev s (b :: t) + 1) (lev (a :: s) t + 1))
                  (lev s t + (if Ascii.eqb a b then 0 else 1))) as [E|E]; rewrite E.
      * destruct (Nat.min_dec (lev s (b :: t) + 1) (lev (a :: s) t + 1)) as [F|F];
          rewrite F, Nat.add_1_r.
        -- apply edits_delete. apply IHs.
        -- apply edits_insert. exact IHt.
      * destruct (Ascii.eqb a b) eqn:Hab.
        -- apply Ascii.eqb_eq in Hab. subst b. rewrite Nat.add_0_r.
           apply edits_keep. apply IHs.
        -- rewrite Nat.add_1_r. apply edits_substitute. apply IHs.
Qed.

(** ... and no alignment costs less. *)
Lemma lev_least s t n : edits s t n -> lev s t <= n.
Proof.
  induction 1 as [|a s t n H IH|a b s t n H IH|a s t n H IH|b s t n H IH].
  - reflexivity.
  - rewrite lev_cons, Ascii.eqb_refl. lia.
  - rewrite lev_cons. destruct (Ascii.eqb a b); lia.
  - destruct t as [|b t].
    + rewrite lev_nil_r in *. simpl. lia.
    + rewrite lev_cons. lia.
  - destruct s as [|a s].
    + rewrite lev_nil_l in *. simpl. lia.
    + rewrite lev_cons. lia.
Qed.

Lemma edits_sym s t n : edits s t n -> edits t s n.
Proof. induction 1; constructor; assumption. Qed.

Lemma lev_sym s t : lev s t = lev t s.
Proof.
  apply Nat.le_antisymm; apply lev_least, edits_sym, lev_edits.
Qed.

(** Alignments extend at the far end as they do at the near end. *)
Lemma edits_app s t n s' t' n' :
  edits s t n -> edits s' t' n' -> edits (s ++ s') (t ++ t') (n + n').
Proof.
  intros H H'. induction H; simpl; try (constructor; assumption). exact H'.
Qed.

Lemma edits_rev s t n : edits s t n -> edits (rev s) (rev t) n.
Proof.
  induction 1 as [|a s t n H IH|a b s t n H IH|a s t n H IH|b s t n H IH]; simpl.
  - constructor.
  - replace n with (n + 0) by lia. apply edits_app; auto. repeat constructor.
  - replace (S n) with (n + 1) by lia. apply edits_app; auto.
    apply edits_substitute. constructor.
  - replace (S n) with (n + 1) by lia. rewrite <- (app_nil_r (rev t)).
    apply edits_app; auto. apply edits_delete. constructor.
  - replace (S n) with (n + 1) by lia. rewrite <- (app_nil_r (rev s)).
    apply edits_app; auto. apply edits_insert. constructor.
Qed.

Lemma lev_rev s t : lev (rev s) (rev t) = lev s t.
Proof.
  apply Nat.le_antisymm.
  - apply lev_least, edits_rev, lev_edits.
  - apply lev_least.
    pose proof (edits_rev _ _ _ (lev_edits (rev s) (rev t))) as H.
    rewrite !rev_involutive in H. exact H.
Qed.

(** Dropping the head of the target costs at most one edit more. *)
Lemma edits_drop s b t n : edits s (b :: t) n -> exists m, m <= S n /\ edits s t m.
Proof.
  intros H. remember (b :: t) as u eqn:Eu. revert b t Eu.
  induction H as [|a s u n H IH|a c s u n H IH|a s u n H IH|c s u n H IH];
    intros b t Eu.
  - discriminate.
  - inversion Eu; subst. exists (S n). split; [lia|]. apply edits_delete. exact H.
  - inversion Eu; subst. exists (S n). split; [lia|]. apply edits_delete. exact H.
  - destruct (IH _ _ Eu) as (m & Hm & He). exists (S m). split; [lia|].
    apply edits_delete. exact He.
  - inversion Eu; subst. exists n. split; [lia|]. exact H.
Qed.

Lemma lev_drop_r s b t : lev s t <= lev s (b :: t) + 1.
Proof.
  destruct (edits_drop s b t _ (lev_edits s (b :: t))) as (m & Hm & He).
  apply lev_least in He. lia.
Qed.

Lemma lev_drop_l a s t : lev s t <= lev (a :: s) t + 1.
Proof. rewrite (lev_sym s t), (lev_sym (a :: s) t). apply lev_drop_r. Qed.

Lemma lev_same_head a s t : lev (a :: s) (a :: t) = lev s t.
Proof.
  rewrite lev_cons, Ascii.eqb_refl.
  pose proof (lev_drop_r s a t). pose proof (lev_drop_l a s t).
  pose proof (lev_drop_r (a :: s) a t). pose proof (lev_drop_l a s (a :: t)).
  lia.
Qed.

Lemma lev_other_head a b s t :
  Ascii.eqb a b = false ->
  lev (a :: s) (b :: t)
  = Nat.min (Nat.min (lev s t + 1) (lev (a :: s) t + 1)) (lev s (b :: t) + 1).
Proof. intros H. rewrite lev_cons, H. lia. Qed.

Lemma lev_refl s : lev s s = 0.
Proof. induction s as [|a s IH]; [reflexivity|]. rewrite lev_same_head. exact IH. Qed.

End LevenshteinFacts.

Module SimilarityFacts.
Import CacheService Levenshtein Terms LevenshteinFacts.
Local Open Scope nat_scope.

Lemma nth_insert_same {A} (l : list A) i x d :
  i < length l -> nth i (<[i := x]> l) d = x.
Proof. intros H. rewrite nth_lookup, list_lookup_insert_eq; auto. Qed.

Lemma nth_insert_other {A} (l : list A) i j x d :
  i <> j -> nth j (<[i := x]> l) d = nth j l d.
Proof. intros H. rewrite !nth_lookup, list_lookup_insert_ne; auto. Qed.

Lemma insert_nth_id {A} (l : list A) i d :
  i < length l -> <[i := nth i l d]> l = l.
Proof.
  intros H. apply list_insert_id. rewrite nth_lookup.
  destruct (lookup_lt_is_Some_2 l i H) as [x Hx]. rewrite Hx. reflexivity.
Qed.

Lemma rev_firstn_S (s : list ascii) i a :
  nth_error s i = Some a -> rev (firstn (S i) s) = a :: rev (firstn i s).
Proof.
  revert i. induction s as [|b s IH]; intros i H.
  - destruct i; discriminate.
  - destruct i as [|i]; simpl in H.
    + inversion H; subst. reflexivity.
    + change (firstn (S (S i)) (b :: s)) with (b :: firstn (S i) s).
      change (firstn (S i) (b :: s)) with (b :: firstn i s).
      simpl rev. rewrite (IH i H). reflexivity.
Qed.

Section Distance.
Variables str1 str2 : list ascii.

Local Abbreviation n1 := (len1 str1).
Local Abbreviation n2 := (len2 str2).

Lemma cell_0_j j : j <= n1 -> cell str1 str2 0 j = j.
Proof using Type.
  intros H. unfold cell. simpl firstn. simpl rev. rewrite lev_nil_l.
  rewrite length_rev, length_firstn. unfold len1 in H. lia.
Qed.

Lemma cell_i_0 i : i <= n2 -> cell str1 str2 i 0 = i.
Proof using Type.
  intros H. unfold cell. simpl firstn. simpl rev. rewrite lev_nil_r.
  rewrite length_rev, length_firstn. unfold len2 in H. lia.
Qed.

Lemma cell_S_S i j :
  i < n2 -> j < n1 ->
  cell str1 str2 (S i) (S j)
  = if sameChar (charAt str2 i) (charAt str1 j)
    then cell str1 str2 i j
    else min3 (cell str1 str2 i j + 1) (cell str1 str2 (S i) j + 1) (cell str1 str2 i (S j) + 1).
Proof using Type.
  intros Hi Hj. unfold charAt, len1, len2 in *.
  destruct (nth_error str2 i) as [a|] eqn:Ea;
    [|apply nth_error_None in Ea; lia].
  destruct (nth_error str1 j) as [b|] eqn:Eb;
    [|apply nth_error_None in Eb; lia].
  unfold cell. rewrite (rev_firstn_S _ _ _ Ea), (rev_firstn_S _ _ _ Eb).
  simpl sameChar. destruct (Ascii.eqb a b) eqn:E.
  - apply Ascii.eqb_eq in E. subst b. apply lev_same_head.
  - unfold min3. apply lev_other_head. exact E.
Qed.

Lemma rowUpTo_length i k : length (rowUpTo str1 str2 i k) = S k.
Proof using Type. unfold rowUpTo. rewrite length_map, length_seq. reflexivity. Qed.

Lemma rowUpTo_nth i k j : j <= k -> nth j (rowUpTo str1 str2 i k) 0 = cell str1 str2 i j.
Proof using Type.
  intros H. unfold rowUpTo.
  rewrite (nth_indep _ 0 (cell str1 str2 i 0)) by (rewrite length_map, length_seq; lia).
  rewrite (map_nth (cell str1 str2 i)), seq_nth by lia. reflexivity.
Qed.

Lemma rowUpTo_S i k : rowUpTo str1 str2 i (S k) = rowUpTo str1 str2 i k ++ [cell str1 str2 i (S k)].
Proof using Type.
  unfold rowUpTo. rewrite (seq_S (S k) 0), map_app. reflexivity.
Qed.

Lemma arraySet_extend row v : arraySet row (length row) v = row ++ [v].
Proof using Type.
  unfold arraySet. rewrite Nat.ltb_irrefl, Nat.sub_diag. reflexivity.
Qed.

(** The inner loop fills row [i] from left to right. *)
Lemma inner_loop i k :
  k <= n1 -> 1 <= i <= n2 ->
  forall matrix : list (list nat),
    i < length matrix ->
    nth (i - 1) matrix [] = rowUpTo str1 str2 (i - 1) n1 ->
    nth i matrix [] = rowUpTo str1 str2 i 0 ->
    fold_left (step str1 str2 i) (seq 1 k) matrix = <[i := rowUpTo str1 str2 i k]> matrix.
Proof using Type.
  intros Hk Hi matrix Hlen Hprev Hrow.
  induction k as [|k IH].
  - simpl. rewrite <- Hrow. symmetry. apply insert_nth_id. exact Hlen.
  - rewrite seq_S, fold_left_app, IH by lia. simpl fold_left.
    assert (Hext : forall v, arraySet (rowUpTo str1 str2 i k) (S k) v = rowUpTo str1 str2 i k ++ [v]).
    { intros v. rewrite <- (rowUpTo_length i k). apply arraySet_extend. }
    assert (Hcell : cell str1 str2 (S (i - 1)) (S k)
                    = if sameChar (charAt str2 (i - 1)) (charAt str1 k)
                      then cell str1 str2 (i - 1) k
                      else min3 (cell str1 str2 (i - 1) k + 1) (cell str1 str2 i k + 1)
                                (cell str1 str2 (i - 1) (S k) + 1)).
    { rewrite (cell_S_S (i - 1) k) by lia.
      replace (S (i - 1)) with i by lia. reflexivity. }
    unfold step, matrixSet, matrixGet.
    rewrite nth_insert_same by exact Hlen.
    rewrite (nth_insert_other matrix i (i - 1)) by lia.
    rewrite Hprev, !list_insert_insert_eq, !Hext.
    change (1 + k) with (S k).
    replace (S k - 1) with k by lia.
    rewrite !rowUpTo_nth by lia.
    rewrite rowUpTo_S. replace (S (i - 1)) with i in Hcell by lia. rewrite Hcell.
    destruct (sameChar (charAt str2 (i - 1)) (charAt str1 k)); reflexivity.
Qed.


Lemma first_row k :
  forall rest, fold_left (fun matrix j => matrixSet matrix 0 j j) (seq 0 (S k))
                 ([0] :: rest)
               = seq 0 (S k) :: rest.
Proof using Type.
  induction k as [|k IH]; intros rest.
  - reflexivity.
  - rewrite seq_S, fold_left_app, IH. simpl fold_left.
    assert (Hext : arraySet (seq 0 (S k)) (S k) (S k) = seq 0 (S k) ++ [S k]).
    { pose proof (arraySet_extend (seq 0 (S k)) (S k)) as H.
      rewrite length_seq in H. exact H. }
    unfold matrixSet. cbn [nth]. change (0 + S k) with (S k).
    change (0 :: seq 1 k) with (seq 0 (S k)).
    rewrite Hext. reflexivity.
Qed.

Lemma first_row_cells : rowUpTo str1 str2 0 n1 = seq 0 (S n1).
Proof using Type.
  unfold rowUpTo. rewrite <- (map_id (seq 0 (S n1))) at 2.
  apply map_ext_in. intros j Hj. apply in_seq in Hj.
  apply cell_0_j. lia.
Qed.

Lemma initialMatrix_filled : initialMatrix str1 str2 = filledTo str1 str2 0.
Proof using Type.
  unfold initialMatrix, filledTo.
  change (seq 0 (S n2)) with (0 :: seq 1 n2). rewrite map_cons, first_row.
  rewrite Nat.sub_0_r. change (seq 0 1) with [0]. cbn [map app].
  rewrite first_row_cells. reflexivity.
Qed.

Lemma filledTo_length r : r <= n2 -> length (filledTo str1 str2 r) = S n2.
Proof using Type.
  intros H. unfold filledTo.
  rewrite length_app, !length_map, !length_seq. lia.
Qed.

Lemma filledTo_row r i : i <= r -> nth i (filledTo str1 str2 r) [] = rowUpTo str1 str2 i n1.
Proof using Type.
  intros H. unfold filledTo.
  rewrite app_nth1 by (rewrite length_map, length_seq; lia).
  rewrite (nth_indep _ [] (rowUpTo str1 str2 0 n1)) by (rewrite length_map, length_seq; lia).
  rewrite (map_nth (fun i => rowUpTo str1 str2 i n1)), seq_nth by lia. reflexivity.
Qed.

Lemma filledTo_S r :
  r < n2 -> <[S r := rowUpTo str1 str2 (S r) n1]> (filledTo str1 str2 r) = filledTo str1 str2 (S r).
Proof using Type.
  intros H. unfold filledTo.
  replace (n2 - r) with (S (n2 - S r)) by lia.
  rewrite (seq_S (S r) 0), map_app, <- app_assoc.
  rewrite insert_app_r_alt by (rewrite length_map, length_seq; lia).
  rewrite length_map, length_seq, Nat.sub_diag. reflexivity.
Qed.

Lemma outer_loop r :
  r <= n2 ->
  fold_left (fun matrix i => fold_left (step str1 str2 i) (seq 1 n1) matrix)
            (seq 1 r) (initialMatrix str1 str2)
  = filledTo str1 str2 r.
Proof using Type.
  induction r as [|r IH]; intros Hr.
  - apply initialMatrix_filled.
  - rewrite seq_S, fold_left_app, IH by lia. simpl fold_left.
    change (1 + r) with (S r).
    rewrite inner_loop.
    + apply filledTo_S. lia.
    + lia.
    + lia.
    + rewrite filledTo_length; lia.
    + replace (S r - 1) with r by lia. apply filledTo_row. lia.
    + unfold filledTo.
      rewrite app_nth2 by (rewrite length_map, length_seq; lia).
      rewrite length_map, length_seq, Nat.sub_diag.
      replace (n2 - r) with (S (n2 - S r)) by lia. simpl.
      unfold rowUpTo. simpl. rewrite cell_i_0 by lia. reflexivity.
Qed.

(** The number the matrix ends with is the edit distance. *)
Lemma distance_is_levenshtein :
  distance str1 str2 = levenshtein_distance str1 str2.
Proof using Type.
  unfold distance, filledMatrix, matrixGet.
  rewrite outer_loop, filledTo_row, rowUpTo_nth by lia.
  unfold cell, len1, len2. rewrite !firstn_all, lev_rev. apply lev_sym.
Qed.
End Distance.

Lemma empty_string_length (a : string) :
  a = EmptyString <-> length (list_ascii_of_string a) = 0.
Proof. destruct a; simpl; split; intros H; try reflexivity; discriminate. Qed.

Lemma calculateSimilarity_nonempty (a b : string) :
  a <> EmptyString -> b <> EmptyString ->
  calculateSimilarity a b
  = Qred (1 - (Z.of_nat (levenshtein_distance (list_ascii_of_string a)
                                              (list_ascii_of_string b))
               # Pos.of_nat (Nat.max (length (list_ascii_of_string a))
                                     (length (list_ascii_of_string b)))))%Q.
Proof.
  intros Ha Hb. unfold calculateSimilarity, len1, len2.
  rewrite empty_string_length in Ha, Hb.
  apply Nat.eqb_neq in Ha, Hb. rewrite Ha, Hb.
  rewrite distance_is_levenshtein. reflexivity.
Qed.

Lemma calculateSimilarity_empty (a b : string) :
  a = EmptyString \/ b = EmptyString -> calculateSimilarity a b = 0%Q.
Proof.
  unfold calculateSimilarity, len1, len2.
  intros [-> | ->]; simpl; [reflexivity|].
  destruct (length (list_ascii_of_string a) =? 0); reflexivity.
Qed.

Lemma quotient_of_naturals (d m : nat) :
  m <> 0 ->
  (Z.of_nat d # Pos.of_nat m == inject_Z (Z.of_nat d) / inject_Z (Z.of_nat m))%Q.
Proof.
  intros Hm. rewrite Qmake_Qdiv.
  replace (Z.pos (Pos.of_nat m)) with (Z.of_nat m) by lia. reflexivity.
Qed.

(** C8.  For strings that are not both empty, [calculateSimilarity]
    is [1 - levenshtein_distance / max (length a) (length b)], the
    distance being the standard unit-cost edit distance; it is
    symmetric, it is 1 on two equal non-empty strings, and it is 0 as
    soon as one of the strings is empty (two empty strings included,
    where the quotient would be 0/0). *)
Theorem calculateSimilarity_formula (a b : string) :
  let s := list_ascii_of_string a in
  let t := list_ascii_of_string b in
  ((a <> EmptyString \/ b <> EmptyString) ->
   (calculateSimilarity a b
    == 1 - inject_Z (Z.of_nat (levenshtein_distance s t))
           / inject_Z (Z.of_nat (Nat.max (length s) (length t))))%Q)
  /\ calculateSimilarity a b = calculateSimilarity b a
  /\ (a <> EmptyString -> calculateSimilarity a a = 1%Q)
  /\ (a = EmptyString \/ b = EmptyString -> calculateSimilarity a b = 0%Q).
Proof.
  intros s t. repeat split.
  - intros Hne.
    destruct (string_dec a EmptyString) as [Ha|Ha];
      [|destruct (string_dec b EmptyString) as [Hb|Hb]].
    + rewrite calculateSimilarity_empty by auto.
      assert (Hb : b <> EmptyString) by tauto.
      subst a s. simpl length. rewrite lev_nil_l, Nat.max_0_l.
      apply empty_string_length in Hb || idtac.
      assert (Hl : length t <> 0) by (intros E; apply Hb, empty_string_length, E).
      assert (Hq : ~ (inject_Z (Z.of_nat (length t)) == 0)%Q).
      { unfold Qeq. simpl. lia. }
      field. exact Hq.
    + rewrite calculateSimilarity_empty by auto.
      subst b t. simpl length. rewrite lev_nil_r, Nat.max_0_r.
      assert (Hl : length s <> 0) by (intros E; apply Ha, empty_string_length, E).
      assert (Hq : ~ (inject_Z (Z.of_nat (length s)) == 0)%Q).
      { unfold Qeq. simpl. lia. }
      field. exact Hq.
    + rewrite calculateSimilarity_nonempty by assumption.
      rewrite Qred_correct, quotient_of_naturals; [reflexivity|].
      intros E. apply Ha, empty_string_length. lia.
  - destruct (string_dec a EmptyString) as [Ha|Ha];
      [|destruct (string_dec b EmptyString) as [Hb|Hb]].
    + rewrite !calculateSimilarity_empty by auto. reflexivity.
    + rewrite !calculateSimilarity_empty by auto. reflexivity.
    + rewrite !calculateSimilarity_nonempty by assumption.
      rewrite lev_sym, Nat.max_comm. reflexivity.
  - intros Ha. rewrite calculateSimilarity_nonempty by assumption.
    rewrite lev_refl. change 1%Q with (Qred 1). apply Qred_complete.
    unfold Qeq. simpl. lia.
  - apply calculateSimilarity_empty.
Qed.

Lemma calculateSimilarity_formula_witness :
  let a := "kitten"%string in
  let b := "sitting"%string in
  let s := list_ascii_of_string a in
  let t := list_ascii_of_string b in
  ((a <> EmptyString \/ b <> EmptyString) ->
   (calculateSimilarity a b
    == 1 - inject_Z (Z.of_nat (levenshtein_distance s t))
           / inject_Z (Z.of_nat (Nat.max (length s) (length t))))%Q)
  /\ calculateSimilarity a b = calculateSimilarity b a
  /\ (a <> EmptyString -> calculateSimilarity a a = 1%Q)
  /\ (a = EmptyString \/ b = EmptyString -> calculateSimilarity a b = 0%Q).
Proof. apply (calculateSimilarity_formula "kitten" "sitting"). Defined.

Example similarity_examples :
  calculateSimilarity "vaccination schedule" "vaccination schedule" = 1%Q
  /\ calculateSimilarity "" "anything" = 0%Q
  /\ calculateSimilarity "kitten" "sitting" = (4 # 7)%Q
  /\ levenshtein_distance (list_ascii_of_string "kitten")
                          (list_ascii_of_string "sitting") = 3.
Proof. repeat split; vm_compute; reflexivity. Qed.
End SimilarityFacts.

(* ===================================================================== *)
(** ** Further properties of the slot manager *)
(* ===================================================================== *)

Module SlotManagerBehaviour.
Import JsDate AppointmentSlotManager Terms Scenarios SlotManagerFacts.

Lemma setHours_localTime tz u h mi s ms :
  localTime tz (setHours tz u h mi s ms)
  = Day (localTime tz u) * msPerDay + h * msPerHour + mi * msPerMinute
    + s * msPerSecond + ms.
Proof. unfold setHours, utc, localTime. lia. Qed.

Lemma mod_of_mod l n m : 0 < n -> 0 < m -> (n | m) -> (l mod m) mod n = l mod n.
Proof. intros. apply Z.mod_mod_divide; assumption. Qed.

Lemma fields_make_the_time tz t :
  localTime tz t
  = Day (localTime tz t) * msPerDay + getHours tz t * msPerHour
    + getMinutes tz t * msPerMinute + getSeconds tz t * msPerSecond
    + getMilliseconds tz t.
Proof.
  unfold getHours, getMinutes, getSeconds, getMilliseconds, TimeWithinDay, Day,
    msPerDay, msPerHour, msPerMinute, msPerSecond.
  generalize (localTime tz t). intros l.
  pose proof (Z_div_mod_eq_full l 86400000) as H1.
  pose proof (Z_div_mod_eq_full (l mod 86400000) 3600000) as H2.
  rewrite (mod_of_mod l 3600000 86400000) in H2
    by (try lia; exists 24; reflexivity).
  pose proof (Z_div_mod_eq_full (l mod 3600000) 60000) as H3.
  rewrite (mod_of_mod l 60000 3600000) in H3
    by (try lia; exists 60; reflexivity).
  pose proof (Z_div_mod_eq_full (l mod 60000) 1000) as H4.
  rewrite (mod_of_mod l 1000 60000) in H4
    by (try lia; exists 60; reflexivity).
  lia.
Qed.

Lemma setMinutes_localTime tz t m :
  localTime tz (setMinutes tz t m)
  = localTime tz t - getMinutes tz t * msPerMinute + m * msPerMinute.
Proof.
  unfold setMinutes. rewrite setHours_localTime.
  pose proof (fields_make_the_time tz t) as F.
  unfold msPerDay, msPerHour, msPerMinute, msPerSecond in *. lia.
Qed.

Lemma setSeconds_localTime tz t s :
  localTime tz (setSeconds tz t s)
  = localTime tz t - getSeconds tz t * msPerSecond + s * msPerSecond.
Proof.
  unfold setSeconds. rewrite setHours_localTime.
  pose proof (fields_make_the_time tz t) as F.
  unfold msPerDay, msPerHour, msPerMinute, msPerSecond in *. lia.
Qed.

Lemma setMilliseconds_localTime tz t ms :
  localTime tz (setMilliseconds tz t ms)
  = localTime tz t - getMilliseconds tz t + ms.
Proof.
  unfold setMilliseconds. rewrite setHours_localTime.
  pose proof (fields_make_the_time tz t) as F.
  unfold msPerDay, msPerHour, msPerMinute, msPerSecond in *. lia.
Qed.

Lemma getSlotKey_arith l :
  let m := (l mod 3600000) / 60000 in
  let l1 := l - m * 60000 + m / 30 * 30 * 60000 in
  let l2 := l1 - l1 mod 60000 / 1000 * 1000 + 0 * 1000 in
  l2 - l2 mod 1000 + 0 = l - l mod 1800000.
Proof.
  intros m l1 l2.
  pose proof (Z_div_mod_eq_full l 3600000) as H1.
  pose proof (Z.mod_pos_bound l 3600000 ltac:(lia)) as B1.
  remember (l mod 3600000) as r eqn:Er.
  remember (l / 3600000) as a eqn:Ea.
  pose proof (Z_div_mod_eq_full r 60000) as H2.
  pose proof (Z.mod_pos_bound r 60000 ltac:(lia)) as B2.
  fold m in H2.
  remember (r mod 60000) as r' eqn:Er'.
  pose proof (Z_div_mod_eq_full m 30) as H3.
  pose proof (Z.mod_pos_bound m 30 ltac:(lia)) as B3.
  remember (m / 30) as q eqn:Eq.
  remember (m mod 30) as p eqn:Ep.
  assert (E1 : l1 mod 60000 = r').
  { replace l1 with (r' + (60 * a + 30 * q) * 60000) by (subst l1; lia).
    rewrite Z.mod_add by lia. apply Z.mod_small. lia. }
  pose proof (Z_div_mod_eq_full r' 1000) as H4.
  pose proof (Z.mod_pos_bound r' 1000 ltac:(lia)) as B4.
  remember (r' / 1000) as s eqn:Es.
  remember (r' mod 1000) as u eqn:Eu.
  assert (E2 : l2 mod 1000 = u).
  { replace l2 with (u + (3600 * a + 1800 * q) * 1000)
      by (subst l2; rewrite E1, <- Es; lia).
    rewrite Z.mod_add by lia. apply Z.mod_small. lia. }
  assert (E3 : l mod 1800000 = p * 60000 + r').
  { replace l with ((p * 60000 + r') + (2 * a + q) * 1800000) by lia.
    rewrite Z.mod_add by lia. apply Z.mod_small. lia. }
  rewrite E2, E3. subst l2. rewrite E1, <- Es. lia.
Qed.

Lemma getMilliseconds_eq tz t : getMilliseconds tz t = localTime tz t mod 1000.
Proof. reflexivity. Qed.

Lemma getSeconds_eq tz t : getSeconds tz t = localTime tz t mod 60000 / 1000.
Proof. reflexivity. Qed.

Lemma getMinutes_eq tz t : getMinutes tz t = localTime tz t mod 3600000 / 60000.
Proof. reflexivity. Qed.

Lemma getSlotKey_local tz t :
  localTime tz (getSlotKey tz t) = localTime tz t - localTime tz t mod 1800000.
Proof.
  rewrite <- (getSlotKey_arith (localTime tz t)).
  cbv zeta.
  rewrite <- (getMinutes_eq tz t).
  change (getSlotKey tz t) with
    (setMilliseconds tz (setSeconds tz (setMinutes tz t (getMinutes tz t / 30 * 30)) 0) 0).
  generalize (getMinutes tz t / 30 * 30). intros m.
  rewrite setMilliseconds_localTime, getMilliseconds_eq.
  rewrite setSeconds_localTime, getSeconds_eq.
  rewrite setMinutes_localTime.
  reflexivity.
Qed.

Lemma localTime_eq tz t : localTime tz t = t + tz.
Proof. reflexivity. Qed.

Lemma getSlotKey_eq tz t : getSlotKey tz t = t - (t + tz) mod 1800000.
Proof.
  pose proof (getSlotKey_local tz t) as H.
  rewrite !localTime_eq in H.
  generalize dependent (getSlotKey tz t). intros k H.
  lia.
Qed.

(** X1. [getSlotKey] names the half hour of local time an instant lies
    in: the key is the start of that half hour, every instant of the
    half hour has the same key, and the key is its own key. *)
Theorem getSlotKey_half_hour tz t :
  getSlotKey tz t <= t < getSlotKey tz t + 30 * 60000
  /\ localTime tz (getSlotKey tz t) mod (30 * 60000) = 0
  /\ getSlotKey tz (getSlotKey tz t) = getSlotKey tz t
  /\ forall u, getSlotKey tz u = getSlotKey tz t
               <-> getSlotKey tz t <= u < getSlotKey tz t + 30 * 60000.
Proof.
  rewrite !getSlotKey_eq, localTime_eq.
  change (30 * 60000) with 1800000.
  pose proof (Z.mod_pos_bound (t + tz) 1800000 ltac:(lia)) as B.
  pose proof (Z_div_mod_eq_full (t + tz) 1800000) as D.
  remember ((t + tz) mod 1800000) as r eqn:Er.
  remember ((t + tz) / 1800000) as q eqn:Eq.
  assert (K : (t - r + tz) mod 1800000 = 0).
  { replace (t - r + tz) with (0 + q * 1800000) by lia.
    rewrite Z.mod_add by lia. reflexivity. }
  split; [lia|]. split; [exact K|]. split; [rewrite K; lia|].
  intros u. rewrite getSlotKey_eq.
  pose proof (Z.mod_pos_bound (u + tz) 1800000 ltac:(lia)) as B'.
  pose proof (Z_div_mod_eq_full (u + tz) 1800000) as D'.
  remember ((u + tz) mod 1800000) as r' eqn:Er'.
  remember ((u + tz) / 1800000) as q' eqn:Eq'.
  split; [lia|]. intros Hu.
  assert (q' = q) by nia. lia.
Qed.

Lemma nextLoop_never_gains tz check now count :
  (forall s d v s', check s d = Some (v, s') -> prop_available v = None) ->
  forall turns date acc (s : gmap Z Booking),
    (length acc < count)%nat ->
    nextLoop tz check now turns count date acc s = None.
Proof.
  intros Hc turns. induction turns as [|turns IH]; intros date acc s Hl; [reflexivity|].
  cbn [nextLoop].
  destruct (Nat.leb_spec count (length acc)) as [?|_]; [lia|].
  match goal with |- context [check s ?d] => destruct (check s d) as [[v s1]|] eqn:E end;
    [|reflexivity].
  rewrite (Hc _ _ _ _ E). cbn [truthy]. apply IH. exact Hl.
Qed.

Lemma checkAvailability_closed tz fuel now (slots : gmap Z Booking) date :
  fst (checks tz now slots date) = closedThen \/ fst (checks tz now slots date) = dayFull ->
  checkAvailability tz fuel now slots date = None.
Proof.
  intros H. destruct fuel as [|fuel]; [reflexivity|].
  rewrite checkAvailability_unfold. cbv zeta.
  destruct (checks tz now slots date) as [c s] eqn:E. cbn [fst] in H.
  destruct H as [-> | ->].
  - unfold getNextAvailableSlots.
    rewrite nextLoop_never_gains; [reflexivity| |cbn; lia].
    intros. eapply checkAvailability_promise; eassumption.
  - unfold getNextDaySlots, getNextAvailableSlots.
    rewrite nextLoop_never_gains; [reflexivity| |cbn; lia].
    intros. eapply checkAvailability_promise; eassumption.
Qed.

Lemma checks_closed tz now (slots : gmap Z Booking) date :
  isBusinessHour (getDayName tz date) (getTimeString tz date) = false ->
  checks tz now slots date = (closedThen, slots).
Proof. intros H. unfold checks. rewrite H. reflexivity. Qed.

Lemma checkAvailability_cases tz fuel now (slots : gmap Z Booking) date v s' :
  checkAvailability tz fuel now slots date = Some (v, s') ->
  (await v = AvailableAt date 30 (assignVeterinarian tz date)
   /\ fst (checks tz now slots date) = free)
  \/ (await v = Unavailable slot_taken AlreadyBooked []
      /\ fst (checks tz now slots date) = taken)
  \/ (await v = Unavailable too_close_to_existing TooClose []
      /\ fst (checks tz now slots date) = tooClose).
Proof.
  intros H. destruct fuel as [|fuel]; [discriminate|].
  pose proof (checkAvailability_closed tz (S fuel) now slots date) as Hn.
  rewrite checkAvailability_unfold in H. cbv zeta in H.
  destruct (checks tz now slots date) as [c s] eqn:E. cbn [fst] in *.
  destruct c.
  - rewrite checkAvailability_unfold in Hn. cbv zeta in Hn. rewrite E in Hn.
    rewrite Hn in H by (left; reflexivity). discriminate.
  - destruct (getNearbyAvailableSlots _ _ _ _ _) as [[l s1]|] eqn:G; [|discriminate].
    apply getNearbyAvailableSlots_suggests_nothing in G. subst l.
    injection H as <- <-. right. left. split; reflexivity.
  - destruct (getNearbyAvailableSlots _ _ _ _ _) as [[l s1]|] eqn:G; [|discriminate].
    apply getNearbyAvailableSlots_suggests_nothing in G. subst l.
    injection H as <- <-. right. right. split; reflexivity.
  - rewrite checkAvailability_unfold in Hn. cbv zeta in Hn. rewrite E in Hn.
    rewrite Hn in H by (right; reflexivity). discriminate.
  - injection H as <- <-. left. split; reflexivity.
Qed.

(** X2. The outcomes of [checkAvailability].  Asked about an instant
    outside the business hours, or on a day that already has twenty
    entries, the call does not return: the [while] loop of
    [getNextAvailableSlots] reads [available] off a promise and never
    gains a slot.  When it returns, the answer is either the available
    one, for the requested instant, thirty minutes and the
    veterinarian of that day of the month, or a refusal for a taken
    or too close slot that carries no suggestion at all. *)
Theorem checkAvailability_outcomes tz now (slots : gmap Z Booking) date :
  (isBusinessHour (getDayName tz date) (getTimeString tz date) = false
   \/ fst (checks tz now slots date) = dayFull ->
   forall fuel, checkAvailability tz fuel now slots date = None)
  /\ (forall fuel v s',
        checkAvailability tz fuel now slots date = Some (v, s') ->
        (await v = AvailableAt date 30 (assignVeterinarian tz date)
         /\ fst (checks tz now slots date) = free)
        \/ (await v = Unavailable slot_taken AlreadyBooked []
            /\ fst (checks tz now slots date) = taken)
        \/ (await v = Unavailable too_close_to_existing TooClose []
            /\ fst (checks tz now slots date) = tooClose)).
Proof.
  split.
  - intros H fuel. apply checkAvailability_closed.
    destruct H as [H|H]; [left|right; exact H].
    rewrite checks_closed by exact H. reflexivity.
  - intros fuel v s'. apply checkAvailability_cases.
Qed.


Lemma checks_free tz now (slots : gmap Z Booking) date :
  fst (checks tz now slots date) = free <->
  isBusinessHour (getDayName tz date) (getTimeString tz date) = true
  /\ fst (isSlotBooked now slots (getSlotKey tz date)) = false
  /\ hasConflictWithBuffer (snd (isSlotBooked now slots (getSlotKey tz date))) date = false
  /\ getDailyAppointmentCount tz (snd (isSlotBooked now slots (getSlotKey tz date))) date < 20.
Proof.
  unfold checks.
  destruct (isBusinessHour _ _); cbn [negb].
  2:{ cbn [fst]. split; [discriminate|]. intros [? _]. discriminate. }
  destruct (isSlotBooked now slots (getSlotKey tz date)) as [booked s1]. cbn [fst snd].
  destruct booked.
  { cbn [fst]. split; [discriminate|]. intros (_ & ? & _). discriminate. }
  destruct (hasConflictWithBuffer s1 date).
  { cbn [fst]. split; [discriminate|]. intros (_ & _ & ? & _). discriminate. }
  destruct (Z.leb_spec 20 (getDailyAppointmentCount tz s1 date)); cbn [fst].
  - split; [discriminate|]. intros (_ & _ & _ & ?). lia.
  - split; [intros _|reflexivity]. repeat split; lia.
Qed.

Lemma checks_free_map tz now (slots : gmap Z Booking) date :
  fst (checks tz now slots date) = free ->
  snd (checks tz now slots date) = snd (isSlotBooked now slots (getSlotKey tz date)).
Proof.
  unfold checks.
  destruct (isBusinessHour _ _); cbn [negb]; [|discriminate].
  destruct (isSlotBooked now slots (getSlotKey tz date)) as [booked s1]. cbn [fst snd].
  destruct booked; [discriminate|].
  destruct (hasConflictWithBuffer s1 date); [discriminate|].
  destruct (20 <=? _); [discriminate|reflexivity].
Qed.

Lemma no_conflict_iff (slots : gmap Z Booking) date :
  hasConflictWithBuffer slots date = false <->
  forall k b, slots !! k = Some b ->
              40 * 60000 <= Z.abs (date - bookingDate b).
Proof.
  split.
  - intros H k b Hk.
    destruct (Z_lt_le_dec (Z.abs (date - bookingDate b)) (40 * 60000)) as [Hlt|]; [|assumption].
    assert (hasConflictWithBuffer slots date = true); [|congruence].
    apply hasConflictWithBuffer_iff. exists k, b. split; [exact Hk|].
    apply overlaps_iff. lia.
  - intros H. destruct (hasConflictWithBuffer slots date) eqn:E; [|reflexivity].
    apply hasConflictWithBuffer_iff in E. destruct E as (k & b & Hk & Ho).
    apply overlaps_iff in Ho. specialize (H k b Hk). lia.
Qed.

(** X3. What an available answer means.  [checkAvailability] answers
    that an instant is available exactly when the instant lies within
    the business hours, its half hour holds no confirmed booking and
    no unexpired hold, no entry under another key has its date less
    than forty minutes away, and the day has fewer than twenty
    entries; the call then returns at once. *)
Theorem available_iff tz fuel now (slots : gmap Z Booking) date :
  (exists v s', checkAvailability tz (S fuel) now slots date = Some (v, s')
                /\ available (await v) = true)
  <->
  isBusinessHour (getDayName tz date) (getTimeString tz date) = true
  /\ (forall b, slots !! getSlotKey tz date = Some b -> live now b = false)
  /\ (forall k b, k <> getSlotKey tz date -> slots !! k = Some b ->
                  40 * 60000 <= Z.abs (date - bookingDate b))
  /\ getDailyAppointmentCount tz (delete (getSlotKey tz date) slots) date < 20.
Proof.
  assert (B : fst (isSlotBooked now slots (getSlotKey tz date)) = false
              <-> forall b, slots !! getSlotKey tz date = Some b -> live now b = false).
  { rewrite isSlotBooked_spec.
    destruct (slots !! getSlotKey tz date) as [b|] eqn:E.
    - destruct (live now b) eqn:L; cbn [fst]; split.
      + discriminate.
      + intros H. specialize (H b eq_refl). congruence.
      + intros _ b' [= <-]. exact L.
      + reflexivity.
    - cbn [fst]. split; [intros _ b' [=]|reflexivity]. }
  assert (D : fst (isSlotBooked now slots (getSlotKey tz date)) = false ->
              snd (isSlotBooked now slots (getSlotKey tz date))
              = delete (getSlotKey tz date) slots).
  { rewrite isSlotBooked_spec.
    destruct (slots !! getSlotKey tz date) as [b|] eqn:E.
    - destruct (live now b); cbn [fst snd]; [discriminate|reflexivity].
    - cbn [fst snd]. intros _. symmetry. apply delete_id. exact E. }
  assert (F : fst (checks tz now slots date) = free <->
              isBusinessHour (getDayName tz date) (getTimeString tz date) = true
              /\ (forall b, slots !! getSlotKey tz date = Some b -> live now b = false)
              /\ (forall k b, k <> getSlotKey tz date -> slots !! k = Some b ->
                              40 * 60000 <= Z.abs (date - bookingDate b))
              /\ getDailyAppointmentCount tz (delete (getSlotKey tz date) slots) date < 20).
  { rewrite checks_free. split.
    - intros (H1 & H2 & H3 & H4). rewrite (D H2) in H3, H4.
      split; [exact H1|]. split; [apply B; exact H2|]. split; [|exact H4].
      intros k b Hk Hs. rewrite no_conflict_iff in H3. apply (H3 k).
      rewrite lookup_delete_ne by congruence. exact Hs.
    - intros (H1 & H2 & H3 & H4). apply B in H2. rewrite (D H2).
      split; [exact H1|]. split; [exact H2|]. split; [|exact H4].
      apply no_conflict_iff. intros k b Hk.
      apply lookup_delete_Some in Hk. destruct Hk as [Hne Hk].
      apply (H3 k); [congruence|exact Hk]. }
  rewrite <- F. split.
  - intros (v & s' & H & Ha).
    pose proof (checkAvailability_branch _ _ _ _ _ _ _ H) as Hb.
    rewrite <- Hb. destruct (await v); [discriminate|reflexivity].
  - intros H. rewrite (checkAvailability_free _ _ _ _ _ H).
    eexists _, _. split; [reflexivity|reflexivity].
Qed.

(** X4. A hold blocks its half hour for everyone, the holder
    included, until five minutes after it was taken: up to that time
    every check of an instant of the half hour within the business
    hours finds the slot taken; later the first such check drops the
    entry. *)
Theorem hold_blocks_until_expiry tz now (slots : gmap Z Booking) date sid later u :
  getSlotKey tz u = getSlotKey tz date ->
  isBusinessHour (getDayName tz u) (getTimeString tz u) = true ->
  let held := snd (fst (reserveSlot tz now slots date sid)) in
  held !! getSlotKey tz date = Some (reserved sid (now + 300000) date)
  /\ (later <= now + 300000 -> checks tz later held u = (taken, held))
  /\ (now + 300000 < later ->
      fst (checks tz later held u) <> taken
      /\ snd (checks tz later held u) = delete (getSlotKey tz date) slots).
Proof.
  intros Hu Hb held.
  assert (Hk : held !! getSlotKey tz date = Some (reserved sid (now + 300000) date)).
  { subst held. unfold reserveSlot. cbn [fst snd].
    change (5 * 60 * 1000) with 300000. apply lookup_insert_eq. }
  split; [exact Hk|].
  unfold checks. rewrite Hb. cbn [negb]. rewrite Hu.
  unfold isSlotBooked. rewrite Hk.
  assert (Hd : delete (getSlotKey tz date) held = delete (getSlotKey tz date) slots).
  { subst held. unfold reserveSlot. cbn [fst snd]. apply delete_insert_eq. }
  split.
  - intros Hl. destruct (Z.ltb_spec (now + 300000) later); [lia|reflexivity].
  - intros Hl. destruct (Z.ltb_spec (now + 300000) later); [|lia].
    rewrite Hd.
    destruct (hasConflictWithBuffer _ _); [split; [discriminate|reflexivity]|].
    destruct (20 <=? _); split; try discriminate; reflexivity.
Qed.

Lemma hold_blocks_until_expiry_witness :
  let held := snd (fst (reserveSlot 0 (clock 9 0) ∅ (clock 10 0) "s1")) in
  held !! getSlotKey 0 (clock 10 0) = Some (reserved "s1" (clock 9 0 + 300000) (clock 10 0))
  /\ (clock 9 5 <= clock 9 0 + 300000 -> checks 0 (clock 9 5) held (clock 10 10) = (taken, held))
  /\ (clock 9 0 + 300000 < clock 9 5 ->
      fst (checks 0 (clock 9 5) held (clock 10 10)) <> taken
      /\ snd (checks 0 (clock 9 5) held (clock 10 10)) = delete (getSlotKey 0 (clock 10 0)) ∅).
Proof.
  apply (hold_blocks_until_expiry 0 (clock 9 0) ∅ (clock 10 0) "s1" (clock 9 5) (clock 10 10)).
  - vm_compute. reflexivity.
  - vm_compute. reflexivity.
Defined.

(** X5. From hold to booking.  The session that took a hold can
    confirm it at any later time, its expiry included, as long as the
    entry is still in the map; another session cannot; once the timer
    of the hold has fired, or a read has found it expired, nobody
    can.  The confirmed entry keeps the requested date, reads as
    booked at every time, and the timer of the hold leaves it alone. *)
Theorem hold_then_confirm tz now (slots : gmap Z Booking) date sid later :
  let key := fst (fst (reserveSlot tz now slots date sid)) in
  let held := snd (fst (reserveSlot tz now slots date sid)) in
  let timer := snd (reserveSlot tz now slots date sid) in
  let booked := <[key := confirmed sid date later]> held in
  confirmReservation later held key sid = Some booked
  /\ (forall other, other <> sid -> confirmReservation later held key other = None)
  /\ confirmReservation later (fire timer held) key sid = None
  /\ (now + 300000 < later ->
      confirmReservation later (snd (isSlotBooked later held key)) key sid = None)
  /\ (forall t, isSlotBooked t booked key = (true, booked))
  /\ fire timer booked = booked.
Proof.
  intros key held timer booked.
  assert (Hk : held !! key = Some (reserved sid (now + 300000) date)).
  { subst held key. unfold reserveSlot. cbn [fst snd].
    change (5 * 60 * 1000) with 300000. apply lookup_insert_eq. }
  assert (Hb : booked !! key = Some (confirmed sid date later)).
  { subst booked. apply lookup_insert_eq. }
  assert (Ht : timerSlotKey timer = key /\ timerSessionId timer = sid).
  { subst timer key. unfold reserveSlot. cbn. split; reflexivity. }
  destruct Ht as [Ht1 Ht2].
  repeat split.
  - unfold confirmReservation. rewrite Hk. cbn [bookingSession bookingDate].
    rewrite String.eqb_refl. reflexivity.
  - intros other Ho. unfold confirmReservation. rewrite Hk. cbn [bookingSession].
    destruct (String.eqb_spec sid other); [congruence|reflexivity].
  - unfold fire, releaseReservation. rewrite Ht1, Ht2, Hk, String.eqb_refl.
    unfold confirmReservation. rewrite lookup_delete_eq. reflexivity.
  - intros Hl. unfold isSlotBooked. rewrite Hk.
    destruct (Z.ltb_spec (now + 300000) later); [|lia]. cbn [snd].
    unfold confirmReservation. rewrite lookup_delete_eq. reflexivity.
  - intros t. unfold isSlotBooked. rewrite Hb. reflexivity.
  - unfold fire, releaseReservation. rewrite Ht1, Hb. reflexivity.
Qed.

Lemma releaseReservation_Some (slots : gmap Z Booking) key sid k b :
  releaseReservation slots key sid !! k = Some b <->
  slots !! k = Some b /\ ~ (k = key /\ exists e d, b = reserved sid e d).
Proof.
  unfold releaseReservation.
  destruct (slots !! key) as [[owner e d|owner d c]|] eqn:E.
  - destruct (String.eqb_spec owner sid) as [->|Hne].
    + rewrite lookup_delete_Some. split.
      * intros [Hk Hs]. split; [exact Hs|]. intros [Heq _]. congruence.
      * intros [Hs Hn]. split; [|exact Hs]. intros <-.
        apply Hn. split; [reflexivity|]. exists e, d. congruence.
    + split; [|tauto]. intros Hs. split; [exact Hs|].
      intros [-> (e' & d' & ->)]. congruence.
  - split; [|tauto]. intros Hs. split; [exact Hs|].
    intros [-> (e' & d' & ->)]. congruence.
  - split; [|tauto]. intros Hs. split; [exact Hs|].
    intros [-> (e' & d' & ->)]. congruence.
Qed.

(** X6. [releaseReservation] removes one thing only: a hold, under
    the given key, of the given session.  Every other entry stays, a
    confirmed booking and a hold of another session under that key
    included, and releasing twice is releasing once. *)
Theorem releaseReservation_lookup (slots : gmap Z Booking) key sid :
  (forall k b, releaseReservation slots key sid !! k = Some b <->
     slots !! k = Some b /\ ~ (k = key /\ exists e d, b = reserved sid e d))
  /\ releaseReservation (releaseReservation slots key sid) key sid
     = releaseReservation slots key sid.
Proof.
  split; [intros k b; apply releaseReservation_Some|].
  generalize (releaseReservation_Some slots key sid key).
  generalize (releaseReservation slots key sid). intros r Hr.
  unfold releaseReservation.
  destruct (r !! key) as [[owner e d|owner d c]|] eqn:E; try reflexivity.
  destruct (String.eqb_spec owner sid) as [->|Hne]; [|reflexivity].
  destruct (proj1 (Hr _) eq_refl) as [_ []]. split; [reflexivity|]. eauto.
Qed.

Lemma removedBySweep_false now b :
  removedBySweep now b = false <->
  now - 86400000 <= bookingDate b /\ live now b = true.
Proof.
  unfold removedBySweep, live. change (24 * 60 * 60 * 1000) with 86400000.
  rewrite orb_false_iff, Z.ltb_ge.
  destruct b as [s e d|s d c]; cbn [bookingDate].
  - rewrite negb_true_iff. tauto.
  - tauto.
Qed.

(** X7. After a run of the hourly sweep the map holds exactly the
    entries it held before whose date is at most 24 hours old and
    which are not expired holds; a second run at the same time
    changes nothing, and neither does any read of a slot. *)
Theorem sweep_result now (slots : gmap Z Booking) :
  let swept := startCleanupInterval now slots in
  (forall k b, swept !! k = Some b <->
               slots !! k = Some b /\ now - 86400000 <= bookingDate b /\ live now b = true)
  /\ startCleanupInterval now swept = swept
  /\ (forall key, snd (isSlotBooked now swept key) = swept).
Proof.
  intros swept.
  assert (L : forall k b, swept !! k = Some b <->
               slots !! k = Some b /\ now - 86400000 <= bookingDate b /\ live now b = true).
  { intros k b. subst swept. rewrite sweep_lookup, removedBySweep_false. reflexivity. }
  split; [exact L|]. split.
  - apply map_eq. intros k. apply option_eq. intros b.
    rewrite sweep_lookup, removedBySweep_false. split; [tauto|].
    intros H. split; [exact H|]. apply L in H. tauto.
  - intros key. rewrite isSlotBooked_spec.
    destruct (swept !! key) as [b|] eqn:E; [|reflexivity].
    apply L in E. destruct E as (_ & _ & ->). reflexivity.
Qed.

Lemma filter_length_split {A} (p q : A -> bool) (l : list A) :
  (forall a, q a = negb (p a)) ->
  (length (List.filter p l) + length (List.filter q l) = length l)%nat.
Proof.
  intros H. induction l as [|a l IH]; [reflexivity|].
  cbn [List.filter]. rewrite (H a). destruct (p a); cbn [negb length]; lia.
Qed.

Lemma filter_length_le {A} (p : A -> bool) (l : list A) :
  (length (List.filter p l) <= length l)%nat.
Proof.
  induction l as [|a l IH]; [reflexivity|].
  cbn [List.filter]. destruct (p a); cbn [length]; lia.
Qed.

Lemma filter_length_bool {A} (P : A -> Prop) `{forall a, Decision (P a)}
      (p : A -> bool) (l : list A) :
  (forall a, p a = true <-> P a) ->
  length (filter P l) = length (List.filter p l).
Proof.
  intros Hp. induction l as [|a l IH]; [reflexivity|].
  rewrite filter_cons. cbn [List.filter].
  destruct (decide (P a)) as [Ha|Ha].
  - apply Hp in Ha. rewrite Ha. cbn [length]. congruence.
  - destruct (p a) eqn:E; [apply Hp in E; contradiction|exact IH].
Qed.

(** X8. The figures of [getStatistics] fit together: every entry is
    counted once as confirmed or as reserved, so the two add up to the
    size of the map, and the count for today is the number
    [getDailyAppointmentCount] gives for the present instant. *)
Theorem getStatistics_figures tz now (slots : gmap Z Booking) :
  let stats := getStatistics tz now slots in
  totalSlots stats = confirmedCount stats + reservedCount stats
  /\ todayCount stats = getDailyAppointmentCount tz slots now
  /\ 0 <= todayCount stats <= totalSlots stats.
Proof.
  intros stats. subst stats. unfold getStatistics.
  cbn [totalSlots confirmedCount reservedCount todayCount].
  unfold countWhere. rewrite <- length_map_to_list.
  repeat split.
  - rewrite <- (filter_length_split (fun kb : Z * Booking => isConfirmed (snd kb))
                  (fun kb : Z * Booking => isReserved (snd kb)) (map_to_list slots)).
    + lia.
    + intros [k [s e d|s d c]]; reflexivity.
  - unfold getDailyAppointmentCount. f_equal. symmetry.
    apply filter_length_bool. intros [k b]. cbn [snd].
    rewrite andb_true_iff, Z.leb_le, Z.ltb_lt.
    unfold addDays, setHours, utc, msPerDay, msPerHour, msPerMinute, msPerSecond.
    lia.
  - lia.
  - pose proof (filter_length_le
      (fun kb : Z * Booking =>
         (setHours tz now 0 0 0 0 <=? bookingDate (snd kb))
         && (bookingDate (snd kb) <? addDays (setHours tz now 0 0 0 0) 1))
      (map_to_list slots)).
    lia.
Qed.

Lemma isSlotBooked_only_drops now (slots : gmap Z Booking) key k b :
  snd (isSlotBooked now slots key) !! k = Some b -> slots !! k = Some b.
Proof.
  rewrite isSlotBooked_spec.
  destruct (slots !! key) as [b'|] eqn:E; cbn [snd]; [|tauto].
  destruct (live now b'); cbn [snd]; [tauto|].
  rewrite lookup_delete_Some. tauto.
Qed.

Lemma checks_only_drops tz now (slots : gmap Z Booking) date k b :
  snd (checks tz now slots date) !! k = Some b -> slots !! k = Some b.
Proof.
  destruct (checks_map tz now slots date) as [-> | ->]; [tauto|].
  apply isSlotBooked_only_drops.
Qed.

Lemma nearbyLoop_only_drops
      (check : gmap Z Booking -> Z -> option (JsValue Availability * gmap Z Booking))
      now count base offsets :
  (forall s d v s', check s d = Some (v, s') ->
     forall k b, s' !! k = Some b -> s !! k = Some b) ->
  forall acc (s : gmap Z Booking) l s',
    nearbyLoop check now count base offsets acc s = Some (l, s') ->
    forall k b, s' !! k = Some b -> s !! k = Some b.
Proof.
  intros Hc. induction offsets as [|off rest IH]; cbn [nearbyLoop];
    intros acc s l s' H k b Hk.
  - congruence.
  - destruct (count <=? length acc)%nat; [congruence|].
    destruct (check s (base + off * 60000)) as [[v s1]|] eqn:E; [|discriminate].
    apply (Hc _ _ _ _ E).
    destruct (truthy (prop_available v)); eapply IH; eauto.
Qed.

Lemma nextLoop_only_drops tz
      (check : gmap Z Booking -> Z -> option (JsValue Availability * gmap Z Booking))
      now turns count :
  (forall s d v s', check s d = Some (v, s') ->
     forall k b, s' !! k = Some b -> s !! k = Some b) ->
  forall date acc (s : gmap Z Booking) l s',
    nextLoop tz check now turns count date acc s = Some (l, s') ->
    forall k b, s' !! k = Some b -> s !! k = Some b.
Proof.
  intros Hc. induction turns as [|turns IH]; cbn [nextLoop];
    intros date acc s l s' H k b Hk.
  - discriminate.
  - destruct (count <=? length acc)%nat; [congruence|].
    match type of H with
    | context [check s ?d] => destruct (check s d) as [[v s1]|] eqn:E; [|discriminate]
    end.
    apply (Hc _ _ _ _ E).
    destruct (truthy (prop_available v)); eapply IH; eauto.
Qed.

Lemma checkAvailability_only_drops tz now fuel :
  forall (s : gmap Z Booking) d v s',
    checkAvailability tz fuel now s d = Some (v, s') ->
    forall k b, s' !! k = Some b -> s !! k = Some b.
Proof.
  induction fuel as [|fuel IH]; intros s d v s' H k b Hk.
  - discriminate.
  - rewrite checkAvailability_unfold in H. cbv zeta in H.
    apply (checks_only_drops tz now s d).
    destruct (checks tz now s d) as [c s1]. cbn [snd].
    destruct c.
    + destruct (getNextAvailableSlots _ _ _ _ _ _ _) as [[l s2]|] eqn:E; [|discriminate].
      inversion H; subst. eapply nextLoop_only_drops; eauto.
    + destruct (getNearbyAvailableSlots _ _ _ _ _) as [[l s2]|] eqn:E; [|discriminate].
      inversion H; subst. eapply nearbyLoop_only_drops; eauto.
    + destruct (getNearbyAvailableSlots _ _ _ _ _) as [[l s2]|] eqn:E; [|discriminate].
      inversion H; subst. eapply nearbyLoop_only_drops; eauto.
    + destruct (getNextDaySlots _ _ _ _ _ _) as [[l s2]|] eqn:E; [|discriminate].
      inversion H; subst. eapply nextLoop_only_drops; eauto.
    + inversion H; subst. exact Hk.
Qed.

(** X9. All a call of [checkAvailability] does to the map of booked
    slots is to drop holds that have expired: every other entry is
    there afterwards as it was, and nothing is added. *)
Theorem checkAvailability_drops_expired_only tz fuel now (slots : gmap Z Booking)
        date v s' :
  checkAvailability tz fuel now slots date = Some (v, s') ->
  forall k,
    s' !! k = slots !! k
    \/ (s' !! k = None
        /\ exists sid e d, slots !! k = Some (reserved sid e d) /\ e < now).
Proof.
  intros H k.
  pose proof (checkAvailability_keeps tz now fuel _ _ _ _ H k) as Hkeep.
  pose proof (checkAvailability_only_drops tz now fuel _ _ _ _ H k) as Hdrop.
  destruct (s' !! k) as [b'|] eqn:E'.
  - left. symmetry. apply Hdrop. reflexivity.
  - destruct (slots !! k) as [b|] eqn:E; [|left; reflexivity].
    destruct (live now b) eqn:L.
    + specialize (Hkeep b eq_refl L). discriminate.
    + right. split; [reflexivity|].
      destruct b as [sid e d|sid d c]; [|discriminate].
      exists sid, e, d. split; [reflexivity|].
      cbn [live] in L. apply negb_false_iff, Z.ltb_lt in L. exact L.
Qed.

Lemma checkAvailability_drops_expired_only_witness :
  (∅ : gmap Z Booking) !! clock 15 30 = staleHold !! clock 15 30
  \/ ((∅ : gmap Z Booking) !! clock 15 30 = None
      /\ exists sid e d, staleHold !! clock 15 30 = Some (reserved sid e d)
                         /\ e < clock 14 30).
Proof.
  apply (checkAvailability_drops_expired_only 0 2 (clock 14 30) staleHold (clock 15 0)
           (PromiseOf (Unavailable too_close_to_existing TooClose [])) ∅).
  vm_compute. reflexivity.
Defined.

Lemma spaced_subset (s s' : gmap Z Booking) :
  (forall k b, s' !! k = Some b -> s !! k = Some b) -> spaced s -> spaced s'.
Proof. intros Hs H k1 k2 b1 b2 Hne H1 H2. apply (H k1 k2); auto. Qed.

(** X10. No two bookings closer than forty minutes.  If the dates of
    the entries of the map are pairwise at least forty minutes apart,
    they still are after a hold is taken for an instant that
    [checkAvailability] has just answered to be available, and after
    [confirmReservation], [releaseReservation], the sweep and
    [checkAvailability] itself. *)
Theorem spacing_is_kept tz now (slots : gmap Z Booking) :
  spaced slots ->
  (forall fuel date sid v s',
     checkAvailability tz fuel now slots date = Some (v, s') ->
     available (await v) = true ->
     spaced (snd (fst (reserveSlot tz now s' date sid))))
  /\ (forall key sid s', confirmReservation now slots key sid = Some s' -> spaced s')
  /\ (forall key sid, spaced (releaseReservation slots key sid))
  /\ spaced (startCleanupInterval now slots)
  /\ (forall fuel date v s',
        checkAvailability tz fuel now slots date = Some (v, s') -> spaced s').
Proof.
  intros Hsp. repeat split.
  - intros fuel date sid v s' H Ha.
    pose proof (checkAvailability_only_drops tz now fuel _ _ _ _ H) as Hdrop.
    pose proof (checkAvailability_branch _ _ _ _ _ _ _ H) as Hb.
    assert (Hf : fst (checks tz now slots date) = free).
    { rewrite <- Hb. destruct (await v); [discriminate|reflexivity]. }
    destruct fuel as [|fuel]; [discriminate|].
    rewrite (checkAvailability_free _ _ _ _ _ Hf) in H.
    injection H as _ <-. rewrite (checks_free_map _ _ _ _ Hf) in *.
    apply checks_free in Hf. destruct Hf as (_ & Hfree & Hno & _).
    rewrite no_conflict_iff in Hno.
    set (s1 := snd (isSlotBooked now slots (getSlotKey tz date))) in *.
    assert (Hs1 : spaced s1) by (apply (spaced_subset slots); assumption).
    unfold reserveSlot. cbn [fst snd].
    intros k1 k2 b1 b2 Hne H1 H2.
    rewrite lookup_insert_Some in H1. rewrite lookup_insert_Some in H2.
    destruct H1 as [[<- <-]|[Hn1 H1]]; destruct H2 as [[<- <-]|[Hn2 H2]].
    + congruence.
    + cbn [bookingDate]. apply (Hno k2). exact H2.
    + cbn [bookingDate]. specialize (Hno k1 b1 H1). lia.
    + apply (Hs1 k1 k2); assumption.
  - intros key sid s' H. unfold confirmReservation in H.
    destruct (slots !! key) as [r|] eqn:E; [|discriminate].
    destruct (negb _); [discriminate|]. injection H as <-.
    intros k1 k2 b1 b2 Hne H1 H2.
    rewrite lookup_insert_Some in H1. rewrite lookup_insert_Some in H2.
    destruct H1 as [[<- <-]|[Hn1 H1]]; destruct H2 as [[<- <-]|[Hn2 H2]].
    + congruence.
    + cbn [bookingDate]. apply (Hsp key k2); assumption.
    + cbn [bookingDate]. apply (Hsp k1 key); assumption.
    + apply (Hsp k1 k2); assumption.
  - intros key sid. apply (spaced_subset slots); [|exact Hsp].
    intros k b Hk. apply releaseReservation_Some in Hk. tauto.
  - apply (spaced_subset slots); [|exact Hsp].
    intros k b Hk. apply sweep_lookup in Hk. tauto.
  - intros fuel date v s' H. apply (spaced_subset slots); [|exact Hsp].
    apply (checkAvailability_only_drops tz now fuel _ _ _ _ H).
Qed.

Lemma spacing_is_kept_witness :
  (forall fuel date sid v s',
     checkAvailability 0 fuel (clock 9 0) twoBookings date = Some (v, s') ->
     available (await v) = true ->
     spaced (snd (fst (reserveSlot 0 (clock 9 0) s' date sid))))
  /\ (forall key sid s',
        confirmReservation (clock 9 0) twoBookings key sid = Some s' -> spaced s')
  /\ (forall key sid, spaced (releaseReservation twoBookings key sid))
  /\ spaced (startCleanupInterval (clock 9 0) twoBookings)
  /\ (forall fuel date v s',
        checkAvailability 0 fuel (clock 9 0) twoBookings date = Some (v, s') -> spaced s').
Proof.
  apply (spacing_is_kept 0 (clock 9 0) twoBookings).
  intros k1 k2 b1 b2 Hne H1 H2.
  unfold twoBookings in H1, H2.
  apply lookup_insert_Some in H1. apply lookup_insert_Some in H2.
  destruct H1 as [[<- <-]|[_ H1]]; destruct H2 as [[<- <-]|[_ H2]];
    try (apply lookup_singleton_Some in H1; destruct H1 as [<- <-]);
    try (apply lookup_singleton_Some in H2; destruct H2 as [<- <-]);
    try congruence; vm_compute; discriminate.
Defined.

(** An instant less than forty minutes away from a live entry is not
    found free. *)
Lemma checks_near_live_entry tz now (slots : gmap Z Booking) date k b :
  slots !! k = Some b -> live now b = true ->
  bookingDate b - 40 * 60000 < date < bookingDate b + 40 * 60000 ->
  fst (checks tz now slots date) <> free.
Proof.
  intros Hk Hl Hi Hf.
  apply checks_free in Hf. destruct Hf as (_ & _ & Hno & _).
  rewrite no_conflict_iff in Hno.
  pose proof (isSlotBooked_keeps now slots (getSlotKey tz date) k b Hk Hl) as Hk1.
  specialize (Hno k b Hk1). lia.
Qed.

(** A request less than forty minutes away from a live entry starts a
    search that comes back to such a request: of the probes half an
    hour later and half an hour earlier, one is again that close to
    the entry. *)
Lemma near_live_entry_does_not_return tz now fuel :
  forall (slots : gmap Z Booking) date k b,
    slots !! k = Some b -> live now b = true ->
    bookingDate b - 40 * 60000 < date < bookingDate b + 40 * 60000 ->
    checkAvailability tz fuel now slots date = None.
Proof.
  induction fuel as [|fuel IH]; intros slots date k b Hk Hl Hi; [reflexivity|].
  pose proof (checks_near_live_entry tz now slots date k b Hk Hl Hi) as Hnf.
  pose proof (checks_keeps tz now slots date k b Hk Hl) as Hk1.
  pose proof (checkAvailability_closed tz (S fuel) now slots date) as Hclosed.
  rewrite checkAvailability_unfold. rewrite checkAvailability_unfold in Hclosed.
  cbv zeta in *.
  destruct (checks tz now slots date) as [c s1]. cbn [fst snd] in *.
  assert (Hloop : getNearbyAvailableSlots (checkAvailability tz fuel now) now date 3 s1
                  = None).
  { unfold getNearbyAvailableSlots, searchOffsets.
    destruct (checkAvailability tz fuel now s1 (date + 30 * 60000))
      as [[v s2]|] eqn:E1.
    - assert (Hfar : ~ (bookingDate b - 40 * 60000 < date + 30 * 60000
                        < bookingDate b + 40 * 60000)).
      { intros Hnear. rewrite (IH s1 _ k b Hk1 Hl Hnear) in E1. discriminate. }
      pose proof (checkAvailability_keeps tz now fuel _ _ _ _ E1 k b Hk1 Hl) as Hk2.
      pose proof (checkAvailability_promise _ _ _ _ _ _ _ E1) as Hp.
      destruct v as [r|r]; [discriminate|].
      apply (nearbyLoop_second_probe _ now 3%nat date 30 (-30) _ [] s1 s2 r);
        [cbn; lia|exact E1|].
      apply (IH s2 _ k b Hk2 Hl). lia.
    - apply nearbyLoop_first_probe; [cbn; lia|exact E1]. }
  destruct c.
  - apply Hclosed. left. reflexivity.
  - rewrite Hloop. reflexivity.
  - rewrite Hloop. reflexivity.
  - apply Hclosed. right. reflexivity.
  - congruence.
Qed.

(** A call that returns was made at least forty minutes away from every
    live entry: what a returning call reports as a conflict is caused
    by expired holds only. *)
Lemma returning_call_is_far_from_live_entries tz now fuel
      (slots : gmap Z Booking) date r k b :
  checkAvailability tz fuel now slots date = Some r ->
  slots !! k = Some b -> live now b = true ->
  date <= bookingDate b - 40 * 60000 \/ bookingDate b + 40 * 60000 <= date.
Proof.
  intros Hr Hk Hl.
  destruct (Z_le_gt_dec date (bookingDate b - 40 * 60000)) as [H1|H1]; [left; exact H1|].
  destruct (Z_le_gt_dec (bookingDate b + 40 * 60000) date) as [H2|H2]; [right; exact H2|].
  rewrite (near_live_entry_does_not_return tz now fuel slots date k b Hk Hl) in Hr;
    [discriminate|lia].
Qed.

(** C2.  The buffer-conflict outcome is never reported for a live
    booking.  For an instant within the business hours whose own
    bucket holds no live entry and that lies strictly less than 40
    minutes (slot duration plus buffer) away from the date of some
    live booking, as every instant from 10 minutes before the booking
    to less than 40 minutes after it is, the checks take the
    buffer-conflict branch, and the call does not return, whatever
    the fuel: the search for nearby slots, made before the answer is
    built, calls [checkAvailability] for the instants half an hour
    later and earlier, one of which is again that close to the
    booking. *)
Theorem too_close_is_never_reported tz now (slots : gmap Z Booking) date k b :
  isBusinessHour (getDayName tz date) (getTimeString tz date) = true ->
  fst (isSlotBooked now slots (getSlotKey tz date)) = false ->
  slots !! k = Some b -> live now b = true ->
  bookingDate b - 40 * 60000 < date < bookingDate b + 40 * 60000 ->
  fst (checks tz now slots date) = tooClose
  /\ forall fuel, checkAvailability tz fuel now slots date = None.
Proof.
  intros Hb Hs Hk Hl Hi. split.
  - apply (checks_tooClose_entries tz now slots date Hb Hs).
    exists k, b. split; [|tauto].
    intros ->. rewrite isSlotBooked_spec, Hk, Hl in Hs. discriminate.
  - intros fuel. apply (near_live_entry_does_not_return tz now fuel slots date k b);
      assumption.
Qed.

Lemma too_close_is_never_reported_witness :
  fst (checks 0 (clock 9 0) bookedAtTen (clock 10 30)) = tooClose
  /\ forall fuel, checkAvailability 0 fuel (clock 9 0) bookedAtTen (clock 10 30) = None.
Proof.
  apply (too_close_is_never_reported 0 (clock 9 0) bookedAtTen (clock 10 30)
           (clock 10 0) (confirmed "s1" (clock 10 0) (clock 8 0))).
  - vm_compute. reflexivity.
  - vm_compute. reflexivity.
  - vm_compute. reflexivity.
  - reflexivity.
  - vm_compute. split; reflexivity.
Defined.
End SlotManagerBehaviour.

(* ===================================================================== *)
(** ** Further properties of the appointment service *)
(* ===================================================================== *)

Module AppointmentServiceFacts.
Import JsString JsDate AppointmentService Terms Scenarios.
Import StringFacts SlotManagerBehaviour.
Local Open Scope string_scope.
Local Open Scope list_scope.
Local Open Scope Z_scope.

Lemma digitsOnly_app a b : digitsOnly (a ++ b) = (digitsOnly a ++ digitsOnly b)%string.
Proof.
  induction a as [|c a IH]; [reflexivity|]. simpl.
  destruct (isDigit c); simpl; rewrite IH; reflexivity.
Qed.

Lemma digitsOnly_idem s : digitsOnly (digitsOnly s) = digitsOnly s.
Proof.
  induction s as [|c s IH]; [reflexivity|]. cbn [digitsOnly].
  destruct (isDigit c) eqn:E; [|exact IH].
  cbn [digitsOnly]. rewrite E, IH. reflexivity.
Qed.

(** X11. [validatePhone] looks at the digits only.  What it accepts
    is the string of the digits of the input, ten of them, and that
    string is accepted again unchanged; anything else is refused with
    the ten-digit message; a character that is not a digit, put
    anywhere, changes nothing. *)
Theorem validatePhone_digits phoneText :
  match validatePhone phoneText with
  | inl cleaned =>
      cleaned = digitsOnly phoneText /\ length cleaned = 10
      /\ validatePhone cleaned = inl cleaned
  | inr message =>
      message = ProvideTenDigitPhone /\ length (digitsOnly phoneText) <> 10
  end
  /\ forall before c after,
       phoneText = (before ++ after)%string -> isDigit c = false ->
       validatePhone (before ++ String c after) = validatePhone phoneText.
Proof.
  split.
  - unfold validatePhone.
    destruct (Z.eqb_spec (length (digitsOnly phoneText)) 10) as [E|E]; cbn [negb].
    + split; [reflexivity|]. split; [exact E|].
      rewrite digitsOnly_idem, E. reflexivity.
    + split; [reflexivity|exact E].
  - intros before c after -> Hc. unfold validatePhone.
    rewrite !digitsOnly_app. simpl. rewrite Hc. reflexivity.
Qed.

Lemma startsWith_app p rest : startsWith (p ++ rest) p = true.
Proof.
  induction p as [|c p IH]; [destruct rest; reflexivity|]. simpl.
  rewrite Ascii.eqb_refl. exact IH.
Qed.

Lemma includes_app pre p post : includes (pre ++ p ++ post) p = true.
Proof.
  induction pre as [|c pre IH].
  - change ("" ++ p ++ post)%string with (p ++ post)%string.
    pose proof (startsWith_app p post) as H.
    destruct (p ++ post)%string; simpl; simpl in H; rewrite H; reflexivity.
  - simpl. simpl in IH. rewrite IH. apply orb_true_r.
Qed.

Lemma toLowerCase_app a b :
  toLowerCase (a ++ b) = (toLowerCase a ++ toLowerCase b)%string.
Proof.
  induction a as [|c a IH]; [reflexivity|]. simpl.
  rewrite IH. reflexivity.
Qed.

Lemma includesSome_In s phrases p :
  In p phrases -> includes s p = true -> includesSome s phrases = true.
Proof.
  intros Hin Hi. unfold includesSome. apply existsb_exists. exists p. tauto.
Qed.

(** X12. The intent detectors look for their phrases anywhere in the
    message and in any letter case: a message that contains a
    cancellation phrase, inside a longer word as well, has the cancel
    intent, and likewise for the booking phrases. *)
Theorem intent_is_found_anywhere before text after phrase :
  toLowerCase text = phrase ->
  (In phrase cancelPhrases ->
   detectCancelIntent (before ++ text ++ after) = true)
  /\ (In phrase bookingPhrases ->
      detectBookingIntent (before ++ text ++ after) = true).
Proof.
  intros <-. split; intros Hin.
  - unfold detectCancelIntent. rewrite !toLowerCase_app.
    eapply includesSome_In; [exact Hin|apply includes_app].
  - unfold detectBookingIntent. rewrite !toLowerCase_app.
    eapply includesSome_In; [exact Hin|apply includes_app].
Qed.

Lemma intent_is_found_anywhere_witness :
  (In "stop" cancelPhrases ->
   detectCancelIntent ("Chri" ++ "Stop" ++ "her Robin") = true)
  /\ (In "stop" bookingPhrases ->
      detectBookingIntent ("Chri" ++ "Stop" ++ "her Robin") = true).
Proof.
  apply (intent_is_found_anywhere "Chri" "Stop" "her Robin" "stop").
  reflexivity.
Defined.

Lemma time_fields a D h m :
  a = D * 86400000 + h * 3600000 + m * 60000 ->
  0 <= h < 24 -> 0 <= m < 60 ->
  a / 86400000 = D /\ (a mod 86400000) / 3600000 = h
  /\ (a mod 3600000) / 60000 = m /\ (a mod 60000) / 1000 = 0 /\ a mod 1000 = 0.
Proof.
  intros -> Hh Hm.
  assert (E1 : (D * 86400000 + h * 3600000 + m * 60000) mod 86400000
               = h * 3600000 + m * 60000).
  { symmetry. apply (Z.mod_unique_pos _ _ D); lia. }
  assert (E2 : (D * 86400000 + h * 3600000 + m * 60000) mod 3600000 = m * 60000).
  { symmetry. apply (Z.mod_unique_pos _ _ (24 * D + h)); lia. }
  assert (E3 : (D * 86400000 + h * 3600000 + m * 60000) mod 60000 = 0).
  { symmetry. apply (Z.mod_unique_pos _ _ (1440 * D + 60 * h + m)); lia. }
  assert (E4 : (D * 86400000 + h * 3600000 + m * 60000) mod 1000 = 0).
  { symmetry. apply (Z.mod_unique_pos _ _ (86400 * D + 3600 * h + 60 * m)); lia. }
  rewrite E1, E2, E3, E4.
  split; [symmetry; apply (Z.div_unique_pos _ _ _ (h * 3600000 + m * 60000)); lia|].
  split; [symmetry; apply (Z.div_unique_pos _ _ _ (m * 60000)); lia|].
  split; [symmetry; apply (Z.div_unique_pos _ _ _ 0); lia|].
  split; reflexivity.
Qed.

Lemma getHours_eq tz t : getHours tz t = (localTime tz t mod 86400000) / 3600000.
Proof. reflexivity. Qed.

Lemma Day_eq l : Day l = l / 86400000.
Proof. reflexivity. Qed.

Lemma setHours_local_eq tz t h m :
  localTime tz (setHours tz t h m 0 0)
  = Day (localTime tz t) * 86400000 + h * 3600000 + m * 60000.
Proof.
  rewrite setHours_localTime.
  change msPerDay with 86400000. change msPerHour with 3600000.
  change msPerMinute with 60000. change msPerSecond with 1000. lia.
Qed.

Lemma setHours_fields tz t h m :
  0 <= h < 24 -> 0 <= m < 60 ->
  Day (localTime tz (setHours tz t h m 0 0)) = Day (localTime tz t)
  /\ getHours tz (setHours tz t h m 0 0) = h
  /\ getMinutes tz (setHours tz t h m 0 0) = m
  /\ getSeconds tz (setHours tz t h m 0 0) = 0
  /\ getMilliseconds tz (setHours tz t h m 0 0) = 0.
Proof.
  intros Hh Hm.
  rewrite getHours_eq, getMinutes_eq, getSeconds_eq, getMilliseconds_eq, Day_eq.
  apply time_fields; [apply setHours_local_eq|assumption|assumption].
Qed.

Lemma withTime_12_hour tz lowerStr inputDate otherwise h m pm :
  timeMatch lowerStr = Some (h, m, pm) ->
  0 <= h <= 12 ->
  withTime tz lowerStr inputDate otherwise
  = setHours tz inputDate (h mod 12 + (if pm then 12 else 0)) (default 0 m) 0 0.
Proof.
  intros Ht Hh. unfold withTime. rewrite Ht.
  assert (Hd : match m with Some m0 => m0 | None => 0 end = default 0 m)
    by (destruct m; reflexivity).
  rewrite Hd. f_equal.
  destruct pm; cbn [andb negb].
  - destruct (Z.eqb_spec h 12) as [->|Hne]; cbn [negb].
    + reflexivity.
    + rewrite Z.mod_small by lia. reflexivity.
  - destruct (Z.eqb_spec h 12) as [->|Hne].
    + reflexivity.
    + rewrite Z.mod_small by lia. lia.
Qed.

(** X13. A time given with am or pm is read on the twelve-hour
    clock.  When the text carries a time the pattern matches, with an
    hour up to 12 and minutes below 60, the resolved instant is on
    the day of the date it is applied to, at that hour (12 am being
    0 and 12 pm being 12) and minute, with seconds and milliseconds
    0; minutes left out are 0. *)
Theorem explicit_time_on_12_hour_clock tz lowerStr inputDate otherwise h m pm :
  timeMatch lowerStr = Some (h, m, pm) ->
  0 <= h <= 12 ->
  0 <= default 0 m < 60 ->
  let resolved := withTime tz lowerStr inputDate otherwise in
  Day (localTime tz resolved) = Day (localTime tz inputDate)
  /\ getHours tz resolved = h mod 12 + (if pm then 12 else 0)
  /\ getMinutes tz resolved = default 0 m
  /\ getSeconds tz resolved = 0
  /\ getMilliseconds tz resolved = 0.
Proof.
  intros Ht Hh Hm resolved. subst resolved.
  rewrite (withTime_12_hour tz lowerStr inputDate otherwise h m pm Ht Hh).
  apply setHours_fields; [|exact Hm].
  pose proof (Z.mod_pos_bound h 12 ltac:(lia)). destruct pm; lia.
Qed.

Lemma explicit_time_on_12_hour_clock_witness :
  let resolved := withTime 0 "tomorrow at 12:30 am" (clock 9 0) 0 in
  Day (localTime 0 resolved) = Day (localTime 0 (clock 9 0))
  /\ getHours 0 resolved = 12 mod 12 + (if false then 12 else 0)
  /\ getMinutes 0 resolved = default 0 (Some 30)
  /\ getSeconds 0 resolved = 0
  /\ getMilliseconds 0 resolved = 0.
Proof.
  apply (explicit_time_on_12_hour_clock 0 "tomorrow at 12:30 am" (clock 9 0) 0
           12 (Some 30) false).
  - vm_compute. reflexivity.
  - lia.
  - cbn. lia.
Defined.

Lemma findTargetDay_range lowerStr names :
  forall i k, findTargetDay lowerStr i names = Some k ->
              i <= k < i + Z.of_nat (List.length names).
Proof.
  induction names as [|name rest IH]; intros i k H; [discriminate|].
  cbn [findTargetDay] in H. cbn [List.length].
  destruct (includes lowerStr name).
  - injection H as <-. lia.
  - apply IH in H. lia.
Qed.

Lemma getDay_addDays tz t n :
  getDay tz (addDays t n) = (getDay tz t + n) mod 7.
Proof.
  unfold getDay, addDays, Day, localTime. change msPerDay with 86400000.
  replace (t + n * 86400000 + tz) with (t + tz + n * 86400000) by lia.
  rewrite Z.div_add by lia.
  rewrite Z.add_mod_idemp_l by lia. f_equal. lia.
Qed.

Lemma Day_addDays tz t n :
  Day (localTime tz (addDays t n)) = Day (localTime tz t) + n.
Proof.
  unfold addDays, Day, localTime. change msPerDay with 86400000.
  replace (t + n * 86400000 + tz) with (t + tz + n * 86400000) by lia.
  apply Z.div_add. lia.
Qed.

Lemma getDay_same_day tz t u :
  Day (localTime tz t) = Day (localTime tz u) -> getDay tz t = getDay tz u.
Proof. unfold getDay. intros ->. reflexivity. Qed.

(** X14. "next <weekday>" lands on that weekday, one to seven days
    ahead.  For a text without "tomorrow" that contains "next" and the
    name of a weekday, and whose time, if it gives one, is an hour up
    to 12 with minutes below 60, the instant [validateDateTime]
    accepts falls on the first weekday of the list Sunday to Saturday
    the text names, at least one and at most seven days after today:
    the same weekday as today means a week from now. *)
Theorem next_weekday_lands_on_it tz parseDate toLocaleDateString now text k date formatted :
  let lowerStr := trim (toLowerCase text) in
  includes lowerStr "tomorrow" = false ->
  includes lowerStr "next" = true ->
  findTargetDay lowerStr 0 days = Some k ->
  (forall h m pm, timeMatch lowerStr = Some (h, m, pm) ->
                  0 <= h <= 12 /\ 0 <= default 0 m < 60) ->
  validateDateTime tz parseDate toLocaleDateString now text = valid date formatted ->
  getDay tz date = k
  /\ 1 <= Day (localTime tz date) - Day (localTime tz now) <= 7.
Proof.
  intros lowerStr Htom Hnext Hk Htime Hv.
  unfold validateDateTime in Hv. fold lowerStr in Hv.
  rewrite Htom, Hnext, Hk in Hv. cbv zeta in Hv.
  set (n := if k - getDay tz now <=? 0 then k - getDay tz now + 7
            else k - getDay tz now) in *.
  set (inputDate := addDays now n) in *.
  set (d := withTime tz lowerStr inputDate (setHours tz inputDate 10 0 0 0)) in *.
  assert (Hdate : date = d).
  { destruct (d <=? now); [discriminate|].
    destruct (_ <? d); [discriminate|]. injection Hv as <- _. reflexivity. }
  clear Hv. subst date.
  pose proof (findTargetDay_range _ _ _ _ Hk) as Hr. cbn in Hr.
  assert (Hg : 0 <= getDay tz now < 7) by (apply Z.mod_pos_bound; lia).
  assert (Hn : 1 <= n <= 7) by (subst n; destruct (Z.leb_spec (k - getDay tz now) 0); lia).
  assert (Hday : Day (localTime tz d) = Day (localTime tz inputDate)).
  { subst d. unfold withTime.
    destruct (timeMatch lowerStr) as [[[h m] pm]|] eqn:Et.
    - destruct (Htime h m pm eq_refl) as [Hh Hm].
      pose proof (withTime_12_hour tz lowerStr inputDate (setHours tz inputDate 10 0 0 0)
                    h m pm Et Hh) as H.
      unfold withTime in H. rewrite Et in H. rewrite H.
      apply setHours_fields; [|exact Hm].
      pose proof (Z.mod_pos_bound h 12 ltac:(lia)). destruct pm; lia.
    - apply setHours_fields; lia. }
  split.
  - rewrite (getDay_same_day tz d inputDate Hday).
    subst inputDate. rewrite getDay_addDays.
    subst n. destruct (Z.leb_spec (k - getDay tz now) 0).
    + replace (getDay tz now + (k - getDay tz now + 7)) with (k + 1 * 7) by lia.
      rewrite Z.mod_add by lia. apply Z.mod_small. lia.
    + replace (getDay tz now + (k - getDay tz now)) with k by lia.
      apply Z.mod_small. lia.
  - rewrite Hday. subst inputDate. rewrite Day_addDays. lia.
Qed.

Lemma next_weekday_lands_on_it_witness :
  getDay 0 (clock 58 0) = 5
  /\ 1 <= Day (localTime 0 (clock 58 0)) - Day (localTime 0 tuesday_nine) <= 7.
Proof.
  apply (next_weekday_lands_on_it 0 (fun _ => None) (fun _ => "Friday") tuesday_nine
           "Next Friday" 5 (clock 58 0) "Friday").
  - vm_compute. reflexivity.
  - vm_compute. reflexivity.
  - vm_compute. reflexivity.
  - intros h m pm H. vm_compute in H. discriminate.
  - vm_compute. reflexivity.
Defined.
End AppointmentServiceFacts.

(* ===================================================================== *)
(** ** Further properties of the chat controller *)
(* ===================================================================== *)

Module ConversationFacts.
Import JsString JsDate AppointmentService ChatController Terms FlowTerms Scenarios.
Import StringFacts SlotManagerFacts SlotManagerBehaviour.
Local Open Scope string_scope.
Local Open Scope Z_scope.

Lemma some_length_not_blank message :
  1 <= length (trim message) -> blank message = false.
Proof.
  intros H. destruct (blank message) eqn:B; [|reflexivity].
  apply trim_empty in B. rewrite B in H. unfold length in H. simpl in H. lia.
Qed.





Section Handler.
Variable tz : Z.
Variable parseDate : string -> option Z.
Variable toLocaleDateString : Z -> string.
Variable uuidv4 : string.
Variable answerQuestion : string -> list ChatMessage -> option string.

Local Abbreviation handle :=
  (handleMessage tz parseDate toLocaleDateString uuidv4 answerQuestion).


Lemma handleMessage_in_flow fuel now c message sid w :
  sid <> "" -> blank message = false -> detectCancelIntent message = false ->
  appointmentState c <> NONE -> appointmentState c <> COMPLETED ->
  handle fuel now (Some c) message (Some sid) w
  = finish sid (handleBooking tz parseDate toLocaleDateString fuel now sid message
                  (push c (user message)) w).
Proof using Type.
  intros Hsid Hb Hc Hn Hd. unfold handleMessage.
  rewrite (not_blank_admitted _ Hb).
  apply String.eqb_neq in Hsid. rewrite Hsid.
  cbn [push appointmentState]. rewrite Hc, andb_false_r.
  destruct (appointmentState c) eqn:E; try congruence; reflexivity.
Qed.







Lemma handleMessage_date fuel now c message sid w date formatted :
  sid <> "" -> appointmentState c = CONFIRMATION ->
  detectCancelIntent message = false -> 3 <= length (trim message) ->
  validateDateTime tz parseDate toLocaleDateString now (trim message)
    = valid date formatted ->
  handle fuel now (Some c) message (Some sid) w
  = finish sid
      (let conversation :=
         setData (push c (user message)) (dated (appointmentData c) date formatted) in
       match SlotManager.checkAvailability tz fuel now (bookedSlots w) date with
       | None => running
       | Some (promise, booked) =>
           match SlotManager.await promise with
           | SlotManager.Unavailable _ text suggestedSlots =>
               replied (Suggest text suggestedSlots) CONFIRMATION conversation
                       (setBookedSlots w booked)
           | SlotManager.AvailableAt _ _ _ =>
               replied (Ask (ConfirmDetails
                               (setSlotKey (dated (appointmentData c) date formatted)
                                           (SlotManager.getSlotKey tz date))))
                       COMPLETED
                       (setState
                          (setData conversation
                             (setSlotKey (dated (appointmentData c) date formatted)
                                         (SlotManager.getSlotKey tz date)))
                          COMPLETED)
                       {| bookedSlots :=
                            <[SlotManager.getSlotKey tz date :=
                                SlotManager.reserved sid (now + 300000) date]> booked;
                          timers := timers w ++
                            [(now, {| SlotManager.delay := 300000;
                                      SlotManager.timerSlotKey := SlotManager.getSlotKey tz date;
                                      SlotManager.timerSessionId := sid |})];
                          appointments := appointments w |}
           end
       end).
Proof using Type.
  intros Hsid Hs Hc Hl Hv.
  rewrite handleMessage_in_flow;
    [|assumption|apply some_length_not_blank; lia|assumption|congruence|congruence].
  unfold handleBooking, processBookingResponse.
  cbn [push appointmentState appointmentData]. rewrite Hs.
  destruct (Z.ltb_spec (length (trim message)) 3); [lia|].
  rewrite Hv.
  cbn [accepted isValid negb data setData appointmentState isConfirmation appointmentDate].
  cbn [push appointmentState]. rewrite Hs. cbn [isConfirmation].
  destruct (SlotManager.checkAvailability tz fuel now (bookedSlots w) date)
    as [[promise booked]|]; [|reflexivity].
  destruct (SlotManager.await promise); [reflexivity|].
  unfold SlotManager.reserveSlot, askNext.
  cbn [setData setState push appointmentState appointmentData]. rewrite Hs.
  reflexivity.
Qed.


(** X15. A date outside the business hours gets no reply.  When the
    conversation waits for the date and the message resolves to an
    instant at which the clinic is closed, the handler's call of
    [checkAvailability] does not return, so neither a reply is sent
    nor the conversation saved. *)
Theorem date_outside_hours_gets_no_reply now c message sid w date formatted :
  sid <> "" ->
  appointmentState c = CONFIRMATION ->
  detectCancelIntent message = false ->
  3 <= length (trim message) ->
  validateDateTime tz parseDate toLocaleDateString now (trim message)
    = valid date formatted ->
  SlotManager.isBusinessHour (SlotManager.getDayName tz date)
                             (SlotManager.getTimeString tz date) = false ->
  forall fuel, handle fuel now (Some c) message (Some sid) w = None.
Proof using Type.
  intros Hsid Hs Hc Hl Hv Hclosed fuel.
  rewrite (handleMessage_date fuel now c message sid w date formatted) by assumption.
  cbv zeta.
  rewrite checkAvailability_closed; [reflexivity|].
  left. rewrite checks_closed by exact Hclosed. reflexivity.
Qed.

(** X16. A date that is not available is asked for again, without
    suggestions.  When the check returns and does not find the
    instant free, the reply is the refusal text alone, the state
    stays at the date step, the draft already carries the refused
    date, and no hold is taken. *)
Theorem unavailable_date_is_asked_again fuel now c message sid w date formatted o :
  sid <> "" ->
  appointmentState c = CONFIRMATION ->
  detectCancelIntent message = false ->
  3 <= length (trim message) ->
  validateDateTime tz parseDate toLocaleDateString now (trim message)
    = valid date formatted ->
  fst (SlotManager.checks tz now (bookedSlots w) date) <> SlotManager.free ->
  handle fuel now (Some c) message (Some sid) w = Some o ->
  exists text saved',
    response o = json sid (Suggest text []) CONFIRMATION
    /\ (text = SlotManager.AlreadyBooked \/ text = SlotManager.TooClose)
    /\ saved o = Some saved'
    /\ appointmentState saved' = CONFIRMATION
    /\ appointmentData saved' = dated (appointmentData c) date formatted
    /\ timers (world o) = timers w
    /\ appointments (world o) = appointments w
    /\ forall k b, bookedSlots (world o) !! k = Some b -> bookedSlots w !! k = Some b.
Proof using Type.
  intros Hsid Hs Hc Hl Hv Hnf H.
  rewrite (handleMessage_date fuel now c message sid w date formatted) in H by assumption.
  cbv zeta in H.
  destruct (SlotManager.checkAvailability tz fuel now (bookedSlots w) date)
    as [[promise booked]|] eqn:E; [|discriminate].
  pose proof (checkAvailability_only_drops _ _ _ _ _ _ _ E) as Hdrop.
  apply checkAvailability_cases in E.
  destruct E as [[_ Hf]|[[Ha _]|[Ha _]]]; [contradiction| |];
    rewrite Ha in H; injection H as <-; cbn [response saved world];
    eexists _, _; (split; [reflexivity|]).
  - split; [left; reflexivity|]. split; [reflexivity|].
    split; [exact Hs|]. repeat split; try reflexivity. exact Hdrop.
  - split; [right; reflexivity|]. split; [reflexivity|].
    split; [exact Hs|]. repeat split; try reflexivity. exact Hdrop.
Qed.

(** X17. Outside the date step and the yes-or-no step the handler
    leaves the shared state alone: the map of booked slots, the
    scheduled releases and the stored appointments come out as they
    went in, whatever the message. *)
Theorem world_changes_only_at_date_and_confirmation fuel now found message provided w o :
  (forall c, found = Some c ->
             appointmentState c <> CONFIRMATION /\ appointmentState c <> COMPLETED) ->
  handleMessage tz parseDate toLocaleDateString uuidv4 answerQuestion
    fuel now found message provided w = Some o ->
  world o = w.
Proof using Type.
  intros Hst H. unfold handleMessage in H.
  destruct (String.eqb message "" || (length (trim message) =? 0));
    [injection H as <-; reflexivity|].
  cbv zeta in H.
  set (sid := match provided with
              | Some s => if String.eqb s "" then uuidv4 else s
              | None => uuidv4
              end) in *.
  set (c := match found with
            | Some c => c
            | None => {| sessionId := sid; messages := [];
                         appointmentState := NONE; appointmentData := noData |}
            end) in *.
  assert (Hc : appointmentState c <> CONFIRMATION /\ appointmentState c <> COMPLETED).
  { subst c. destruct found as [c0|]; [apply Hst; reflexivity|].
    split; discriminate. }
  destruct Hc as [Hc1 Hc2].
  cbn [push appointmentState] in H.
  destruct (negb (isNone (appointmentState c)) && negb (isCompleted (appointmentState c))
            && detectCancelIntent message);
    [injection H as <-; reflexivity|].
  destruct (appointmentState c) eqn:Es; try congruence;
    cbn [isNone isCompleted negb] in H.
  - destruct (detectBookingIntent message).
    + cbn in H. injection H as <-. reflexivity.
    + destruct (answerQuestion _ _); injection H as <-; reflexivity.
  - unfold handleBooking, processBookingResponse in H.
    cbn [push appointmentState appointmentData] in H. rewrite Es in H.
    cbn in H. unfold askNext in H. cbn in H. rewrite Es in H. cbn in H.
    injection H as <-. reflexivity.
  - unfold handleBooking, processBookingResponse in H.
    cbn [push appointmentState appointmentData] in H. rewrite Es in H.
    destruct (length (trim message) <? 2).
    + cbn in H. injection H as <-. reflexivity.
    + cbn in H. unfold askNext in H. cbn in H. rewrite Es in H. cbn in H.
      injection H as <-. reflexivity.
  - unfold handleBooking, processBookingResponse in H.
    cbn [push appointmentState appointmentData] in H. rewrite Es in H.
    destruct (length (trim message) <? 1).
    + cbn in H. injection H as <-. reflexivity.
    + cbn in H. unfold askNext in H. cbn in H. rewrite Es in H. cbn in H.
      injection H as <-. reflexivity.
  - unfold handleBooking, processBookingResponse in H.
    cbn [push appointmentState appointmentData] in H. rewrite Es in H.
    destruct (validatePhone message).
    + cbn in H. unfold askNext in H. cbn in H. rewrite Es in H. cbn in H.
      injection H as <-. reflexivity.
    + cbn in H. injection H as <-. reflexivity.
Qed.



End Handler.

Lemma date_outside_hours_gets_no_reply_witness :
  handleMessage 0 (fun _ => None) (fun _ => "Wednesday") "fresh" (fun _ _ => None)
    7 tuesday_nine
    (Some {| sessionId := "s1"; messages := [];
             appointmentState := CONFIRMATION; appointmentData := noData |})
    "tomorrow at 8pm" (Some "s1") emptyWorld = None.
Proof.
  apply (date_outside_hours_gets_no_reply 0 (fun _ => None) (fun _ => "Wednesday")
           "fresh" (fun _ _ => None) tuesday_nine
           {| sessionId := "s1"; messages := [];
              appointmentState := CONFIRMATION; appointmentData := noData |}
           "tomorrow at 8pm" "s1" emptyWorld (clock 20 0) "Wednesday").
  - discriminate.
  - reflexivity.
  - vm_compute. reflexivity.
  - vm_compute. discriminate.
  - vm_compute. reflexivity.
  - vm_compute. reflexivity.
Defined.


Lemma unavailable_date_is_asked_again_witness :
  let c := {| sessionId := "s2"; messages := [];
              appointmentState := CONFIRMATION; appointmentData := noData |} in
  let w := {| bookedSlots := staleHold; timers := []; appointments := [] |} in
  let o := {| response := json "s2" (Suggest SlotManager.TooClose []) CONFIRMATION;
              saved := Some {| sessionId := "s2";
                               messages := [user "today at 3pm";
                                            bot (Suggest SlotManager.TooClose [])];
                               appointmentState := CONFIRMATION;
                               appointmentData := dated noData (clock 15 0) "Wednesday" |};
              world := {| bookedSlots := ∅; timers := []; appointments := [] |} |} in
  exists text saved',
    response o = json "s2" (Suggest text []) CONFIRMATION
    /\ (text = SlotManager.AlreadyBooked \/ text = SlotManager.TooClose)
    /\ saved o = Some saved'
    /\ appointmentState saved' = CONFIRMATION
    /\ appointmentData saved' = dated (appointmentData c) (clock 15 0) "Wednesday"
    /\ timers (world o) = timers w
    /\ appointments (world o) = appointments w
    /\ forall k b, bookedSlots (world o) !! k = Some b -> bookedSlots w !! k = Some b.
Proof.
  intros c w o.
  apply (unavailable_date_is_asked_again 0 (fun _ => None) (fun _ => "Wednesday")
           "fresh" (fun _ _ => None) 2%nat (clock 14 30) c "today at 3pm" "s2" w
           (clock 15 0) "Wednesday" o).
  - discriminate.
  - reflexivity.
  - vm_compute. reflexivity.
  - vm_compute. discriminate.
  - vm_compute. reflexivity.
  - vm_compute. discriminate.
  - vm_compute. reflexivity.
Defined.

Lemma world_changes_only_at_date_and_confirmation_witness :
  world {| response := json "s1" (Ask BestPhoneNumber) ASK_DATE_TIME;
           saved := Some {| sessionId := "s1";
                            messages := [user "Rex"; bot (Ask BestPhoneNumber)];
                            appointmentState := ASK_DATE_TIME;
                            appointmentData :=
                              {| ownerName := None; petName := Some "Rex"; phone := None;
                                 preferredDateTime := None; appointmentDate := None;
                                 slotKey := None |} |};
           world := emptyWorld |} = emptyWorld.
Proof.
  apply (world_changes_only_at_date_and_confirmation 0 (fun _ => None) (fun _ => "")
           "fresh" (fun _ _ => None) 0%nat tuesday_nine
           (Some {| sessionId := "s1"; messages := [];
                    appointmentState := ASK_PHONE; appointmentData := noData |})
           "Rex" (Some "s1") emptyWorld).
  - intros c [= <-]. split; discriminate.
  - vm_compute. reflexivity.
Defined.

Lemma validateDateTime_messages tz parseDate toLocaleDateString now text m :
  validateDateTime tz parseDate toLocaleDateString now text = invalid m ->
  m = ProvideValidDate \/ m = SelectFutureDate \/ m = UpToSixMonths.
Proof.
  unfold validateDateTime. cbv zeta.
  match goal with
  | |- match ?d with Some _ => _ | None => _ end = _ -> _ => destruct d as [d0|]
  end; [|intros [= <-]; tauto].
  destruct (d0 <=? now); [intros [= <-]; tauto|].
  destruct (_ <? d0); [intros [= <-]; tauto|discriminate].
Qed.

Lemma processBookingResponse_pet_name tz parseDate toLocaleDateString now state message d :
  errorMessage (processBookingResponse tz parseDate toLocaleDateString now state message d)
    = Some ProvidePetName ->
  state = ASK_PHONE /\ length (trim message) < 1.
Proof.
  unfold processBookingResponse. destruct state; cbn [accepted errorMessage];
    try discriminate.
  - destruct (length (trim message) <? 2); cbn; discriminate.
  - destruct (Z.ltb_spec (length (trim message)) 1); cbn; [tauto|discriminate].
  - destruct (validatePhone message) as [c|m] eqn:E; cbn; [discriminate|].
    unfold validatePhone in E. destruct (negb _); [|discriminate].
    injection E as <-. discriminate.
  - destruct (length (trim message) <? 3); cbn; [discriminate|].
    destruct (validateDateTime _ _ _ _ _) as [m|date f] eqn:E; cbn; [|discriminate].
    apply validateDateTime_messages in E. intros [= ->].
    destruct E as [E|[E|E]]; discriminate.
  - destruct (_ || _ || _); cbn; [discriminate|].
    destruct (_ || _ || _); cbn; discriminate.
Qed.

Lemma handleCompleted_reply now sid message c w b s c' w' :
  handleCompleted now sid message c w = replied b s c' w' ->
  b = AppointmentBooked \/ b = BookingCancelledAtConfirmation \/ b = PleaseTypeYesOrNo.
Proof.
  unfold handleCompleted. cbv zeta.
  destruct (_ || _ || _).
  - destruct (match slotKey _ with Some _ => _ | None => _ end); [|discriminate].
    destruct (newAppointment _ _); [|discriminate]. intros [= <- _ _ _]. tauto.
  - destruct (_ || _ || _); intros [= <- _ _ _]; tauto.
Qed.

Lemma askNext_reply c w b s c' w' :
  askNext c w = replied b s c' w' -> exists q, b = Ask q.
Proof.
  unfold askNext. destruct (getNextQuestion _ _) as [[q n]|]; [|discriminate].
  intros [= <- _ _ _]. eauto.
Qed.

Section Replies.
Variable tz : Z.
Variable parseDate : string -> option Z.
Variable toLocaleDateString : Z -> string.
Variable uuidv4 : string.
Variable answerQuestion : string -> list ChatMessage -> option string.


Lemma handleBooking_reply fuel now sid message c w b s c' w' :
  handleBooking tz parseDate toLocaleDateString fuel now sid message c w
    = replied b s c' w' ->
  (exists q, b = Ask q) \/ (exists text slots, b = Suggest text slots)
  \/ b = Invalid (errorMessage
                    (processBookingResponse tz parseDate toLocaleDateString now
                       (appointmentState c) message (appointmentData c))).
Proof using Type.
  unfold handleBooking. cbv zeta.
  destruct (negb (isValid _)); [intros [= <- _ _ _]; right; right; reflexivity|].
  destruct (isConfirmation _);
    [|intros H; apply askNext_reply in H; left; exact H].
  destruct (appointmentDate _) as [date|];
    [|intros H; apply askNext_reply in H; left; exact H].
  destruct (SlotManager.checkAvailability _ _ _ _ _) as [[promise booked]|];
    [|discriminate].
  destruct (SlotManager.await promise).
  - intros [= <- _ _ _]. right. left. eauto.
  - unfold SlotManager.reserveSlot. intros H. apply askNext_reply in H. left. exact H.
Qed.

(** X27. The pet-name error is never sent.  A message that is empty
    or blank is refused with status 400 before the flow is looked at,
    so the step that takes the pet name accepts every message that
    reaches it: no response of the handler carries the text asking
    for the pet's name again. *)
Theorem pet_name_error_is_never_sent fuel now found message provided w o :
  handleMessage tz parseDate toLocaleDateString uuidv4 answerQuestion
    fuel now found message provided w = Some o ->
  forall sid state, response o <> json sid (Invalid (Some ProvidePetName)) state.
Proof using Type.
  intros H sid state. unfold handleMessage in H.
  destruct (String.eqb message "" || (length (trim message) =? 0)) eqn:G;
    [injection H as <-; discriminate|].
  apply orb_false_iff in G. destruct G as [_ G]. apply Z.eqb_neq in G.
  assert (Hlen : 0 <= length (trim message)) by (unfold length; lia).
  cbv zeta in H.
  match type of H with
  | (if ?b then _ else _) = _ => destruct b
  end; [injection H as <-; discriminate|].
  match type of H with
  | match ?h with running => _ | threw _ => _ | replied _ _ _ _ => _ end = _ =>
      destruct h as [b s c' w'| |] eqn:Eh
  end; [|injection H as <-; discriminate|discriminate].
  injection H as <-. cbn [response]. intros [= _ Hb _].
  match type of Eh with
  | (if negb (isNone ?st) then _ else _) = _ => destruct (negb (isNone st))
  end.
  - match type of Eh with
    | (if isCompleted ?st then _ else _) = _ => destruct (isCompleted st)
    end.
    + apply handleCompleted_reply in Eh. destruct Eh as [->|[->| ->]]; discriminate.
    + apply handleBooking_reply in Eh.
      destruct Eh as [[q ->]|[(text & slots & ->)| ->]]; try discriminate.
      injection Hb as Hb. apply processBookingResponse_pet_name in Hb. lia.
  - destruct (detectBookingIntent message).
    + cbn in Eh. injection Eh as <- _ _ _. discriminate.
    + destruct (answerQuestion _ _); [|discriminate].
      injection Eh as <- _ _ _. discriminate.
Qed.
End Replies.

Lemma pet_name_error_is_never_sent_witness :
  response {| response := json "s1" (Ask BestPhoneNumber) ASK_DATE_TIME;
              saved := Some {| sessionId := "s1";
                               messages := [user " R "; bot (Ask BestPhoneNumber)];
                               appointmentState := ASK_DATE_TIME;
                               appointmentData :=
                                 {| ownerName := None; petName := Some "R"; phone := None;
                                    preferredDateTime := None; appointmentDate := None;
                                    slotKey := None |} |};
              world := emptyWorld |}
  <> json "s1" (Invalid (Some ProvidePetName)) ASK_PHONE.
Proof.
  apply (pet_name_error_is_never_sent 0 (fun _ => None) (fun _ => "")
           "fresh" (fun _ _ => None) 0%nat tuesday_nine
           (Some {| sessionId := "s1"; messages := [];
                    appointmentState := ASK_PHONE; appointmentData := noData |})
           " R " (Some "s1") emptyWorld).
  vm_compute. reflexivity.
Defined.
End ConversationFacts.

(* ===================================================================== *)
(** ** Further properties of the cache *)
(* ===================================================================== *)

Module SimilarityBounds.
Import CacheService Levenshtein Terms LevenshteinFacts SimilarityFacts.
Local Open Scope nat_scope.

Local Abbreviation lev := levenshtein_distance.

Lemma edits_none s t : edits s t 0 -> s = t.
Proof.
  intros H. remember 0 as n eqn:En. induction H; try discriminate.
  - reflexivity.
  - f_equal. auto.
Qed.

Lemma edits_substitute_all s : forall t, length s <= length t -> edits s t (length t).
Proof.
  induction s as [|a s IH]; intros t Hl.
  - induction t as [|b t IHt]; [constructor|]. cbn [length]. apply edits_insert.
    apply IHt. cbn [length]. lia.
  - destruct t as [|b t]; [cbn [length] in Hl; lia|].
    cbn [length] in *. apply edits_substitute. apply IH. lia.
Qed.

Lemma lev_bound s t : lev s t <= Nat.max (length s) (length t).
Proof.
  destruct (Nat.le_ge_cases (length s) (length t)) as [H|H].
  - rewrite Nat.max_r by exact H. apply lev_least. apply edits_substitute_all. exact H.
  - rewrite Nat.max_l by exact H. rewrite lev_sym.
    apply lev_least. apply edits_substitute_all. exact H.
Qed.

Lemma lev_zero s t : lev s t = 0 -> s = t.
Proof. intros H. apply edits_none. rewrite <- H. apply lev_edits. Qed.

Lemma list_ascii_inj a b : list_ascii_of_string a = list_ascii_of_string b -> a = b.
Proof.
  intros H. rewrite <- (string_of_list_ascii_of_string a),
    <- (string_of_list_ascii_of_string b), H. reflexivity.
Qed.

(** The similarity as a fraction, for two strings that are not empty. *)
Lemma similarity_fraction (a b : string) :
  a <> EmptyString -> b <> EmptyString ->
  let d := Z.of_nat (lev (list_ascii_of_string a) (list_ascii_of_string b)) in
  let m := Z.of_nat (Nat.max (length (list_ascii_of_string a))
                             (length (list_ascii_of_string b))) in
  (0 < m)%Z /\ (0 <= d <= m)%Z
  /\ (calculateSimilarity a b == (m - d) # Z.to_pos m)%Q.
Proof.
  intros Ha Hb d m.
  assert (Hla : length (list_ascii_of_string a) <> 0)
    by (intros E; apply Ha, empty_string_length; exact E).
  assert (Hm : (0 < m)%Z) by (subst m; lia).
  pose proof (lev_bound (list_ascii_of_string a) (list_ascii_of_string b)) as Hbound.
  split; [exact Hm|]. split; [subst d m; lia|].
  rewrite calculateSimilarity_nonempty by assumption.
  rewrite Qred_correct. fold d.
  assert (Hp : Pos.of_nat (Nat.max (length (list_ascii_of_string a))
                                   (length (list_ascii_of_string b))) = Z.to_pos m).
  { subst m. destruct (Nat.max _ _) as [|n'] eqn:E; [lia|].
    cbn [Z.of_nat Z.to_pos]. symmetry. apply Pos.of_nat_succ. }
  rewrite Hp. unfold Qeq, Qminus, Qplus, Qopp. cbn [Qnum Qden].
  rewrite Z2Pos.id by exact Hm.
  rewrite Pos2Z.inj_mul, Z2Pos.id by exact Hm. ring.
Qed.

Lemma above_threshold (a b : string) :
  Qle_bool (calculateSimilarity a b) threshold = false <->
  a <> EmptyString /\ b <> EmptyString
  /\ 5 * lev (list_ascii_of_string a) (list_ascii_of_string b)
     < Nat.max (length (list_ascii_of_string a)) (length (list_ascii_of_string b)).
Proof.
  assert (Hq : forall x, Qle_bool x threshold = false <-> (threshold < x)%Q).
  { intros x. destruct (Qle_bool x threshold) eqn:E.
    - apply Qle_bool_iff in E. split; [discriminate|]. intros H.
      exfalso. apply (Qlt_not_le _ _ H E).
    - split; [intros _|reflexivity]. apply Qnot_le_lt. intros H.
      apply Qle_bool_iff in H. congruence. }
  rewrite Hq. unfold threshold.
  destruct (string_dec a EmptyString) as [Ea|Ea].
  { rewrite (calculateSimilarity_empty a b) by (left; exact Ea).
    split; [discriminate|]. intros H; exfalso; tauto. }
  destruct (string_dec b EmptyString) as [Eb|Eb].
  { rewrite (calculateSimilarity_empty a b) by (right; exact Eb).
    split; [discriminate|]. intros H; exfalso; tauto. }
  destruct (similarity_fraction a b Ea Eb) as (Hm & Hd & Hs).
  rewrite Hs. unfold Qlt. cbn [Qnum Qden].
  rewrite Z2Pos.id by exact Hm.
  split; [intros H; split; [exact Ea|]; split; [exact Eb|]; lia|].
  intros (_ & _ & H). lia.
Qed.

(** X19. The similarity is a number between 0 and 1; it is 1 for
    equal strings only; and it exceeds the threshold 0.8 of the fuzzy
    match exactly when the two strings are fewer edits apart than a
    fifth of the longer length. *)
Theorem calculateSimilarity_range (a b : string) :
  (0 <= calculateSimilarity a b <= 1)%Q
  /\ ((calculateSimilarity a b == 1)%Q <-> a = b /\ a <> EmptyString)
  /\ ((8 # 10 < calculateSimilarity a b)%Q <->
      a <> EmptyString /\ b <> EmptyString
      /\ 5 * lev (list_ascii_of_string a) (list_ascii_of_string b)
         < Nat.max (length (list_ascii_of_string a)) (length (list_ascii_of_string b))).
Proof.
  destruct (string_dec a EmptyString) as [Ea|Ea].
  { rewrite (calculateSimilarity_empty a b) by (left; exact Ea).
    split; [split; [apply Qle_refl|discriminate]|].
    split; split; try discriminate; intros H; exfalso; tauto. }
  destruct (string_dec b EmptyString) as [Eb|Eb].
  { rewrite (calculateSimilarity_empty a b) by (right; exact Eb).
    split; [split; [apply Qle_refl|discriminate]|].
    split; split; try discriminate; intros H; exfalso.
    - destruct H as [-> _]. contradiction.
    - tauto. }
  destruct (similarity_fraction a b Ea Eb) as (Hm & Hd & Hs).
  set (d := Z.of_nat (lev (list_ascii_of_string a) (list_ascii_of_string b))) in *.
  set (m := Z.of_nat (Nat.max (length (list_ascii_of_string a))
                              (length (list_ascii_of_string b)))) in *.
  rewrite Hs. unfold Qle, Qlt, Qeq. cbn [Qnum Qden].
  rewrite Z2Pos.id by exact Hm.
  split; [split; lia|]. split.
  - split.
    + intros H. assert (Hz : d = 0%Z) by lia.
      split; [|exact Ea]. apply list_ascii_inj, lev_zero. subst d. lia.
    + intros [<- _]. subst d. rewrite lev_refl. lia.
  - split.
    + intros H. split; [exact Ea|]. split; [exact Eb|]. subst d m. lia.
    + intros (_ & _ & H). subst d m. lia.
Qed.
End SimilarityBounds.

Module CacheBehaviour.
Import CacheService Terms Scenarios CacheFacts.
Local Open Scope string_scope.
Local Open Scope list_scope.
Local Open Scope Z_scope.

Section Tiers.
Variable Value : Type.
Variable Failure : Type.
Variable Key : Type.
Variable generateKey : Key -> string.

Local Abbreviation Entry := (Entry Value).
Local Abbreviation Layer := (Layer Value).
Local Abbreviation Cache := (Cache Value).

Lemma mapSet_In (m : Layer) k e k' e' :
  In (k', e') (mapSet m k e) -> (k' = k /\ e' = e) \/ In (k', e') m.
Proof.
  induction m as [|[a x] m IH]; simpl.
  - intros [H|[]]. inversion H. left. split; reflexivity.
  - destruct (String.eqb_spec a k) as [->|Hne]; simpl.
    + intros [H|H]; [inversion H; left; split; reflexivity|right; right; exact H].
    + intros [H|H]; [right; left; exact H|].
      destruct (IH H) as [?|?]; [left; assumption|right; right; assumption].
Qed.

Lemma mapDelete_In (m : Layer) k x : In x (mapDelete m k) -> In x m.
Proof.
  induction m as [|[a y] m IH]; simpl; [tauto|].
  destruct (String.eqb a k); simpl; [tauto|]. intros [H|H]; [left; exact H|right; auto].
Qed.

Lemma mapSet_length_le (m : Layer) k e :
  (List.length (mapSet m k e) <= S (List.length m))%nat.
Proof.
  induction m as [|[a x] m IH]; simpl; [lia|].
  destruct (String.eqb a k); simpl; lia.
Qed.

Lemma mapDelete_length (m : Layer) k :
  mapGet m k <> None -> S (List.length (mapDelete m k)) = List.length m.
Proof.
  induction m as [|[a x] m IH]; simpl; [congruence|].
  destruct (String.eqb a k); simpl; [reflexivity|]. intros H. rewrite IH; auto.
Qed.

Lemma keysTruthy_mapSet (m : Layer) k e :
  keysTruthy m -> k <> "" -> keysTruthy (mapSet m k e).
Proof.
  intros Hm Hk k' e' H. apply mapSet_In in H.
  destruct H as [[-> _]|H]; [exact Hk|eapply Hm; eauto].
Qed.

Lemma keysTruthy_mapDelete (m : Layer) k : keysTruthy m -> keysTruthy (mapDelete m k).
Proof. intros Hm k' e' H. apply mapDelete_In in H. eapply Hm; eauto. Qed.

Lemma scanLRU_total (m : Layer) k0 t0 : exists r, scanLRU m (Some k0) (Some t0) = Some r.
Proof.
  revert k0 t0. induction m as [|[a x] m IH]; simpl; intros k0 t0; [eauto|].
  destruct (lastAccessed x <? t0); apply IH.
Qed.

(** On a layer that is not empty the scan picks one of its keys. *)
Lemma scanLRU_picks (m : Layer) :
  m <> [] -> exists k e, scanLRU m None None = Some k /\ In (k, e) m.
Proof.
  destruct m as [|[a x] m]; [congruence|]. intros _. simpl.
  destruct (scanLRU_total m a (lastAccessed x)) as [r Hr].
  rewrite Hr. apply scanLRU_from in Hr.
  destruct Hr as [->|[e He]]; [exists a, x|exists r, e]; split; auto.
Qed.

Lemma truthyKey_picks (m : Layer) :
  m <> [] -> keysTruthy m ->
  exists k e, truthyKey (scanLRU m None None) = Some k /\ In (k, e) m.
Proof.
  intros Hm Hk. destruct (scanLRU_picks m Hm) as (k & e & Hs & Hin).
  exists k, e. split; [|exact Hin]. rewrite Hs. unfold truthyKey.
  destruct (String.eqb_spec k ""); [|reflexivity].
  exfalso. eapply Hk; eauto.
Qed.

Lemma evictLRU2_bounds (c : Cache) :
  keysTruthy (l2 c) -> l2MaxSize < mapSize (l2 c) ->
  mapSize (l2 (evictLRU2 c)) = mapSize (l2 c) - 1
  /\ keysTruthy (l2 (evictLRU2 c)).
Proof.
  intros Hk Hfull. unfold evictLRU2.
  destruct (truthyKey_picks (l2 c)) as (k & e & Hs & Hin); [|exact Hk|].
  { intros E. rewrite E in Hfull. unfold mapSize, l2MaxSize in Hfull. simpl in Hfull. lia. }
  rewrite Hs. cbn [l2]. split.
  - unfold mapSize. rewrite <- (mapDelete_length (l2 c) k); [lia|].
    eapply mapGet_In; eauto.
  - apply keysTruthy_mapDelete. exact Hk.
Qed.

Lemma evictLRU_L1_bounds (c : Cache) :
  keysTruthy (l1 c) -> keysTruthy (l2 c) ->
  mapSize (l1 c) <= l1MaxSize + 1 -> l1MaxSize < mapSize (l1 c) ->
  mapSize (l2 c) <= l2MaxSize ->
  inBounds (evictLRU L1 c).
Proof.
  intros Hk1 Hk2 Hs1 Hfull Hs2. unfold evictLRU.
  destruct (truthyKey_picks (l1 c)) as (k & e & Hs & Hin); [|exact Hk1|].
  { intros E. rewrite E in Hfull. unfold mapSize, l1MaxSize in Hfull. simpl in Hfull. lia. }
  rewrite Hs.
  assert (Hget : mapGet (l1 c) k <> None) by (eapply mapGet_In; eauto).
  destruct (mapGet (l1 c) k) as [entry|] eqn:E; [|congruence].
  assert (Hk : k <> "") by (eapply Hk1; eauto).
  set (c1 := {| l1 := l1 c; l2 := mapSet (l2 c) k entry; stats := stats c |}).
  assert (Hl2 : mapSize (l2 c1) <= l2MaxSize + 1).
  { subst c1. cbn [l2]. unfold mapSize in *.
    pose proof (mapSet_length_le (l2 c) k entry). lia. }
  assert (Hk2' : keysTruthy (l2 c1)).
  { subst c1. cbn [l2]. apply keysTruthy_mapSet; assumption. }
  assert (Hc2 : forall c2 : Cache,
             c2 = (if l2MaxSize <? mapSize (l2 c1) then evictLRU2 c1 else c1) ->
             l1 c2 = l1 c /\ mapSize (l2 c2) <= l2MaxSize /\ keysTruthy (l2 c2)).
  { intros c2 ->. destruct (Z.ltb_spec l2MaxSize (mapSize (l2 c1))) as [Hf|Hf].
    - destruct (evictLRU2_bounds c1 Hk2' Hf) as [Hsz Hkt].
      rewrite evictLRU2_l1. split; [reflexivity|]. split; [lia|exact Hkt].
    - split; [reflexivity|]. split; [lia|exact Hk2']. }
  destruct (Hc2 _ eq_refl) as (H1 & H2 & H3).
  unfold inBounds. cbn [l1 l2]. rewrite H1.
  split; [|split; [exact H2|split; [apply keysTruthy_mapDelete; exact Hk1|exact H3]]].
  unfold mapSize in *. rewrite <- (mapDelete_length (l1 c) k) in Hs1 by congruence.
  lia.
Qed.

Lemma inBounds_set key v ttl' now (c : Cache) :
  inBounds c -> key <> "" -> inBounds (set key v ttl' now c).
Proof.
  intros (H1 & H2 & H3 & H4) Hk. unfold set. cbv zeta.
  set (entry := {| value := v; timestamp := now; ttl := ttl'; hits := 0;
                   lastAccessed := now |}).
  pose proof (mapSet_length_le (l1 c) key entry) as Hlen.
  pose proof (keysTruthy_mapSet (l1 c) key entry H3 Hk) as Hkt.
  cbn [l1].
  destruct (Z.ltb_spec l1MaxSize (mapSize (mapSet (l1 c) key entry))) as [Hf|Hf].
  - apply evictLRU_L1_bounds; cbn [l1 l2]; try assumption.
    unfold mapSize in *. lia.
  - unfold inBounds. cbn [l1 l2]. repeat split; assumption.
Qed.

Lemma inBounds_promote key e (c : Cache) :
  inBounds c -> key <> "" -> inBounds (promote key e c).
Proof.
  intros (H1 & H2 & H3 & H4) Hk. unfold promote.
  destruct ((5 <? hits e) && negb (mapHas (l1 c) key));
    [|unfold inBounds; repeat split; assumption].
  pose proof (mapSet_length_le (l1 c) key e) as Hlen.
  pose proof (keysTruthy_mapSet (l1 c) key e H3 Hk) as Hkt.
  pose proof (keysTruthy_mapDelete (l2 c) key H4) as Hkd.
  assert (Hd : mapSize (mapDelete (l2 c) key) <= l2MaxSize).
  { unfold mapSize in *. destruct (mapGet (l2 c) key) eqn:E.
    - rewrite <- (mapDelete_length (l2 c) key) in H2 by congruence. lia.
    - assert (mapDelete (l2 c) key = l2 c) as ->; [|exact H2].
      clear -E. induction (l2 c) as [|[a x] m IH]; simpl in *; [reflexivity|].
      destruct (String.eqb a key); [discriminate|]. rewrite IH; auto. }
  cbn [l1].
  destruct (Z.ltb_spec l1MaxSize (mapSize (mapSet (l1 c) key e))) as [Hf|Hf].
  - apply evictLRU_L1_bounds; cbn [l1 l2]; try assumption.
    unfold mapSize in *. lia.
  - unfold inBounds. cbn [l1 l2]. repeat split; assumption.
Qed.

Lemma mapSet_In_present (m : Layer) k e k' e' :
  mapGet m k <> None -> In (k', e') (mapSet m k e) -> exists e0, In (k', e0) m.
Proof.
  intros Hp H. apply mapSet_In in H. destruct H as [[-> ->]|H]; [|eauto].
  clear -Hp. induction m as [|[a x] m IH]; simpl in *; [congruence|].
  destruct (String.eqb_spec a k) as [->|Hne]; [exists x; left; reflexivity|].
  destruct (IH Hp) as [e0 H0]. exists e0. right. exact H0.
Qed.

Lemma inBounds_checkLayers key now (c : Cache) :
  inBounds c -> inBounds (snd (checkLayers key now c)).
Proof.
  intros (H1 & H2 & H3 & H4). unfold checkLayers.
  destruct (mapGet (l1 c) key) as [e|] eqn:E1.
  - cbn [snd]. unfold inBounds. cbn [l1 l2].
    split; [unfold mapSize in *; rewrite (mapSet_present _ _ _ _ _ E1); exact H1|].
    split; [exact H2|]. split; [|exact H4].
    intros k' e' H. apply mapSet_In_present in H; [|congruence].
    destruct H as [e0 H]. eapply H3; eauto.
  - destruct (mapGet (l2 c) key) as [e|] eqn:E2; cbn [snd];
      [|unfold inBounds; repeat split; assumption].
    unfold inBounds. cbn [l1 l2].
    split; [exact H1|].
    split; [unfold mapSize in *; rewrite (mapSet_present _ _ _ _ _ E2); exact H2|].
    split; [exact H3|].
    intros k' e' H. apply mapSet_In_present in H; [|congruence].
    destruct H as [e0 H]. eapply H4; eauto.
Qed.

(** X20. The tiers stay within their capacity.  On a cache whose hot
    tier holds at most 100 entries and whose warm tier at most 500,
    with no empty key, every way [get] can go (a hit with its
    promotion, a miss, the store after the generator) and [set] and
    [promote] themselves leave such a cache again, provided the key
    is not the empty string. *)
Theorem capacity_is_kept (c : Cache) key optionsTtl now :
  inBounds c ->
  generateKey key <> "" ->
  (forall v ttl' later, inBounds (set (generateKey key) v ttl' later c))
  /\ (forall e, inBounds (promote (generateKey key) e c))
  /\ match get (Failure := Failure) generateKey c key optionsTtl now with
     | returned _ c' => inBounds c'
     | awaitGenerator c' resume =>
         inBounds c'
         /\ forall c2 later settled,
              inBounds c2 -> inBounds (snd (resume c2 later settled))
     end.
Proof using Type.
  intros Hb Hk.
  split; [intros; apply inBounds_set; assumption|].
  split; [intros; apply inBounds_promote; assumption|].
  unfold get. cbv zeta.
  pose proof (inBounds_checkLayers (generateKey key) now c Hb) as Hc.
  destruct (checkLayers (generateKey key) now c) as [cached c1]. cbn [snd] in Hc.
  assert (Hc' : forall st, inBounds {| l1 := l1 c1; l2 := l2 c1; stats := st |}).
  { intros st. exact Hc. }
  destruct cached as [entry|].
  - destruct (isExpired now entry).
    + split; [apply Hc'|]. intros c2 later [v|err] H2; cbn [snd];
        [apply inBounds_set; assumption|exact H2].
    + apply inBounds_promote; [apply Hc'|exact Hk].
  - split; [apply Hc'|]. intros c2 later [v|err] H2; cbn [snd];
      [apply inBounds_set; assumption|exact H2].
Qed.

Lemma mapGet_mapSet_other (m : Layer) k e k' :
  k' <> k -> mapGet (mapSet m k e) k' = mapGet m k'.
Proof.
  intros Hne. induction m as [|[a x] m IH]; simpl.
  - destruct (String.eqb_spec k k'); [congruence|reflexivity].
  - destruct (String.eqb_spec a k) as [->|Hak]; simpl.
    + destruct (String.eqb_spec k k'); [congruence|reflexivity].
    + rewrite IH. reflexivity.
Qed.

Lemma mapGet_not_In (m : Layer) k : ~ In k (map fst m) -> mapGet m k = None.
Proof.
  induction m as [|[a x] m IH]; simpl; [reflexivity|].
  intros H. destruct (String.eqb_spec a k) as [->|Hne]; [tauto|]. apply IH. tauto.
Qed.

Lemma mapGet_mapDelete_same (m : Layer) k :
  distinctKeys m -> mapGet (mapDelete m k) k = None.
Proof.
  unfold distinctKeys. induction m as [|[a x] m IH]; simpl; [reflexivity|].
  intros H. inversion H as [|? ? Hn Hd]; subst.
  destruct (String.eqb_spec a k) as [->|Hne].
  - apply mapGet_not_In. exact Hn.
  - simpl. destruct (String.eqb_spec a k); [contradiction|]. apply IH. exact Hd.
Qed.

Lemma map_fst_mapSet (m : Layer) k e k' :
  In k' (map fst (mapSet m k e)) -> k' = k \/ In k' (map fst m).
Proof.
  induction m as [|[a x] m IH]; simpl.
  - intros [H|[]]. left. congruence.
  - destruct (String.eqb_spec a k) as [->|Hne]; simpl.
    + intros [H|H]; [right; left; exact H|right; right; exact H].
    + intros [H|H]; [right; left; exact H|].
      destruct (IH H); [left; assumption|right; right; assumption].
Qed.

Lemma distinctKeys_mapSet (m : Layer) k e : distinctKeys m -> distinctKeys (mapSet m k e).
Proof.
  unfold distinctKeys. induction m as [|[a x] m IH]; simpl.
  - intros _. constructor; [simpl; tauto|constructor].
  - intros H. inversion H as [|? ? Hn Hd]; subst.
    destruct (String.eqb_spec a k) as [->|Hne]; simpl.
    + constructor; assumption.
    + constructor; [|apply IH; exact Hd].
      intros Hin. apply map_fst_mapSet in Hin. destruct Hin; [congruence|contradiction].
Qed.

(** X21. An entry pushed out of the hot tier is kept in the warm
    tier.  While the warm tier has room, storing a value leaves every
    other key cached with the entry it had: the one the hot tier
    evicts is found in the warm tier afterwards. *)
Theorem set_keeps_the_other_entries key v ttl' now (c : Cache) k :
  distinctKeys (l1 c) ->
  mapSize (l2 c) < l2MaxSize ->
  k <> key ->
  cachedEntry (set key v ttl' now c) k = cachedEntry c k.
Proof using Type.
  intros Hd Hroom Hne. unfold set. cbv zeta.
  set (entry := {| value := v; timestamp := now; ttl := ttl'; hits := 0;
                   lastAccessed := now |}).
  set (c1 := {| l1 := mapSet (l1 c) key entry; l2 := l2 c; stats := stats c |}).
  assert (H1 : cachedEntry c1 k = cachedEntry c k).
  { unfold cachedEntry. subst c1. cbn [l1 l2].
    rewrite mapGet_mapSet_other by exact Hne. reflexivity. }
  assert (Hd1 : distinctKeys (l1 c1)) by (apply distinctKeys_mapSet; exact Hd).
  rewrite <- H1.
  destruct (l1MaxSize <? mapSize (l1 c1)); [|reflexivity].
  unfold evictLRU.
  destruct (truthyKey (scanLRU (l1 c1) None None)) as [lruKey|]; [|reflexivity].
  destruct (mapGet (l1 c1) lruKey) as [victim|] eqn:Ev.
  - assert (Hfit : (l2MaxSize <? mapSize (mapSet (l2 c1) lruKey victim)) = false).
    { apply Z.ltb_ge. subst c1. cbn [l2]. unfold mapSize in *.
      pose proof (mapSet_length_le (l2 c) lruKey victim). lia. }
    cbn [l1 l2 stats]. rewrite Hfit. cbn [l1 l2 stats].
    unfold cachedEntry. cbn [l1 l2].
    destruct (String.eqb_spec lruKey k) as [->|Hk].
    + rewrite mapGet_mapDelete_same by exact Hd1.
      rewrite mapGet_mapSet_same, Ev. reflexivity.
    + rewrite mapGet_mapDelete_other by exact Hk.
      rewrite mapGet_mapSet_other by congruence. reflexivity.
  - unfold cachedEntry. cbn [l1 l2].
    destruct (String.eqb_spec lruKey k) as [->|Hk].
    + rewrite mapGet_mapDelete_same by exact Hd1. rewrite Ev. reflexivity.
    + rewrite mapGet_mapDelete_other by exact Hk. reflexivity.
Qed.

(** X22. Promotion on the sixth read.  A fresh entry that lies in
    the warm tier only is served from there without calling the
    generator; the read counts as a hit, and when the entry had been
    read five times or more before, it is moved to the hot tier. *)
Theorem warm_hit_is_promoted (c : Cache) key optionsTtl now e :
  mapGet (l1 c) (generateKey key) = None ->
  mapGet (l2 c) (generateKey key) = Some e ->
  isExpired now e = false ->
  mapSize (l1 c) < l1MaxSize ->
  exists c',
    get (Failure := Failure) generateKey c key optionsTtl now = returned (value e) c'
    /\ stats c' = countHit (stats c)
    /\ (5 <= hits e ->
        mapGet (l1 c') (generateKey key) = Some (touch now e)
        /\ (distinctKeys (l2 c) -> mapGet (l2 c') (generateKey key) = None))
    /\ (hits e < 5 ->
        l1 c' = l1 c /\ mapGet (l2 c') (generateKey key) = Some (touch now e)).
Proof using Type.
  intros H1 H2 Hf Hroom. unfold get, checkLayers. cbv zeta.
  rewrite H1, H2. rewrite isExpired_touch, Hf.
  assert (Ht : hits (touch now e) = hits e + 1) by reflexivity.
  assert (Hv : value (touch now e) = value e) by reflexivity.
  rewrite Hv. generalize dependent (touch now e). intros t Ht _.
  unfold promote, mapHas. cbn [l1 l2 stats]. rewrite H1. cbn [negb].
  rewrite andb_true_r, Ht.
  destruct (Z.ltb_spec 5 (hits e + 1)) as [Hh|Hh].
  - assert (Hfit : (l1MaxSize <? mapSize (mapSet (l1 c) (generateKey key) t)) = false).
    { apply Z.ltb_ge. unfold mapSize in *.
      pose proof (mapSet_length_le (l1 c) (generateKey key) t). lia. }
    rewrite Hfit.
    eexists. split; [reflexivity|]. cbn [l1 l2 stats].
    split; [reflexivity|]. split; [|lia].
    intros _. split; [apply mapGet_mapSet_same|].
    intros Hd. apply mapGet_mapDelete_same. apply distinctKeys_mapSet. exact Hd.
  - eexists. split; [reflexivity|]. cbn [l1 l2 stats].
    split; [reflexivity|]. split; [lia|].
    intros _. split; [reflexivity|apply mapGet_mapSet_same].
Qed.

Lemma mapGet_Some_In (m : Layer) k e : mapGet m k = Some e -> In (k, e) m.
Proof.
  induction m as [|[a x] m IH]; simpl; [discriminate|].
  destruct (String.eqb_spec a k) as [->|Hne].
  - intros [= ->]. left. reflexivity.
  - intros H. right. auto.
Qed.

(** X23. After [cleanup] neither tier holds an expired entry and
    every other entry is where it was; the counters are untouched; a
    second run at the same time changes nothing; and a read at that
    time of any key still cached is answered from the cache, without
    the generator. *)
Theorem cleanup_leaves_fresh_entries now (c : Cache) :
  (forall k e, In (k, e) (l1 (cleanup now c))
               <-> In (k, e) (l1 c) /\ isExpired now e = false)
  /\ (forall k e, In (k, e) (l2 (cleanup now c))
                  <-> In (k, e) (l2 c) /\ isExpired now e = false)
  /\ stats (cleanup now c) = stats c
  /\ cleanup now (cleanup now c) = cleanup now c
  /\ (forall key optionsTtl e,
        cachedEntry (cleanup now c) (generateKey key) = Some e ->
        exists c', get (Failure := Failure) generateKey (cleanup now c) key optionsTtl now
                   = returned (value e) c').
Proof using Type.
  assert (F : forall (m : Layer) k e,
             In (k, e) (List.filter (fun ke : string * Entry =>
                                       negb (isExpired now (snd ke))) m)
             <-> In (k, e) m /\ isExpired now e = false).
  { intros m k e. rewrite filter_In. cbn [snd]. rewrite negb_true_iff. reflexivity. }
  assert (I : forall (m : Layer),
             List.filter (fun ke : string * Entry => negb (isExpired now (snd ke)))
               (List.filter (fun ke : string * Entry => negb (isExpired now (snd ke))) m)
             = List.filter (fun ke : string * Entry => negb (isExpired now (snd ke))) m).
  { intros m. induction m as [|[a x] m IH]; [reflexivity|]. cbn [List.filter snd].
    destruct (isExpired now x) eqn:E; cbn [negb]; [exact IH|].
    cbn [List.filter snd]. rewrite E. cbn [negb]. rewrite IH. reflexivity. }
  split; [intros; apply F|]. split; [intros; apply F|].
  split; [reflexivity|].
  split; [unfold cleanup; cbn [l1 l2 stats]; rewrite !I; reflexivity|].
  intros key optionsTtl e He.
  apply get_fresh; [exact He|].
  unfold cachedEntry in He.
  destruct (mapGet (l1 (cleanup now c)) (generateKey key)) as [e1|] eqn:E1.
  - injection He as <-. apply mapGet_Some_In in E1. apply F in E1. tauto.
  - apply mapGet_Some_In in He. apply F in He. tauto.
Qed.
End Tiers.


Lemma capacity_is_kept_witness :
  (forall v ttl' later, inBounds (set (identity "k") v ttl' later agedCache))
  /\ (forall e, inBounds (promote (identity "k") e agedCache))
  /\ match get (Failure := string) identity agedCache "k" None 500 with
     | returned _ c' => inBounds c'
     | awaitGenerator c' resume =>
         inBounds c'
         /\ forall c2 later settled,
              inBounds c2 -> inBounds (snd (resume c2 later settled))
     end.
Proof.
  apply (capacity_is_kept string string string identity agedCache "k" None 500).
  - unfold inBounds, keysTruthy.
    split; [vm_compute; discriminate|]. split; [vm_compute; discriminate|].
    split.
    + intros k e [H|[]]. injection H as <- _. discriminate.
    + intros k e [].
  - discriminate.
Defined.

Lemma set_keeps_the_other_entries_witness :
  cachedEntry (set "q" "new" 1000 5000 agedCache) "k" = cachedEntry agedCache "k".
Proof.
  apply (set_keeps_the_other_entries string "q" "new" 1000 5000 agedCache "k").
  - unfold distinctKeys. cbn. constructor; [cbn; tauto|constructor].
  - vm_compute. reflexivity.
  - discriminate.
Defined.

Lemma warm_hit_is_promoted_witness :
  exists c',
    get (Failure := string) identity warmCache "k" None 500
      = returned (value {| value := "warm"; timestamp := 0; ttl := 1000;
                           hits := 5; lastAccessed := 400 |}) c'
    /\ stats c' = countHit (stats warmCache)
    /\ (5 <= 5 ->
        mapGet (l1 c') (identity "k")
          = Some (touch 500 {| value := "warm"; timestamp := 0; ttl := 1000;
                               hits := 5; lastAccessed := 400 |})
        /\ (distinctKeys (l2 warmCache) -> mapGet (l2 c') (identity "k") = None))
    /\ (5 < 5 ->
        l1 c' = l1 warmCache
        /\ mapGet (l2 c') (identity "k")
           = Some (touch 500 {| value := "warm"; timestamp := 0; ttl := 1000;
                                hits := 5; lastAccessed := 400 |})).
Proof.
  apply (warm_hit_is_promoted string string string identity warmCache "k" None 500
           {| value := "warm"; timestamp := 0; ttl := 1000;
              hits := 5; lastAccessed := 400 |}).
  - reflexivity.
  - reflexivity.
  - vm_compute. reflexivity.
  - vm_compute. reflexivity.
Defined.

Section Similar.
Variable Value : Type.
Variable questionOf : Value -> option string.

Local Abbreviation find := (findSimilar questionOf).

Lemma firstSome_Some {A B} (f : A -> option B) l b :
  firstSome f l = Some b -> exists a, In a l /\ f a = Some b.
Proof.
  induction l as [|a l IH]; simpl; [discriminate|].
  destruct (f a) as [b'|] eqn:E.
  - intros [= <-]. exists a. split; [left; reflexivity|exact E].
  - intros H. destruct (IH H) as (a' & Hin & Ha). exists a'. split; [right|]; assumption.
Qed.

(** X24. [findSimilar] reads the cache and only counts.  Both tiers
    come out as they went in (an entry it serves is not marked as
    accessed); the counters move, by one hit and one saved call,
    exactly when an answer is given; and the fixed texts come first:
    a question that contains "vaccination schedule", "emergency
    signs" or "toxic foods", in any letter case, gets the fixed text
    whatever the cache holds. *)
Theorem findSimilar_reads_only now (c : Cache Value) question :
  let normalized := JsString.trim (JsString.toLowerCase question) in
  let result := find now c question in
  l1 (snd result) = l1 c /\ l2 (snd result) = l2 c
  /\ (fst result = noneSimilar -> snd result = c)
  /\ (fst result <> noneSimilar -> stats (snd result) = countHit (stats c))
  /\ ((exists response, fst result = preloaded response)
      <-> JsString.includes normalized "vaccination schedule"
          || JsString.includes normalized "emergency signs"
          || JsString.includes normalized "toxic foods" = true).
Proof using Type.
  intros normalized result. subst result. unfold findSimilar. fold normalized.
  assert (P : (exists response, firstPreloaded normalized = Some response)
              <-> JsString.includes normalized "vaccination schedule"
                  || JsString.includes normalized "emergency signs"
                  || JsString.includes normalized "toxic foods" = true).
  { unfold firstPreloaded, preloadedResponses. cbn [List.find fst snd].
    destruct (JsString.includes normalized "vaccination schedule");
      [split; [reflexivity|intros _; eexists; reflexivity]|].
    destruct (JsString.includes normalized "emergency signs");
      [split; [reflexivity|intros _; eexists; reflexivity]|].
    destruct (JsString.includes normalized "toxic foods");
      [split; [reflexivity|intros _; eexists; reflexivity]|].
    split; [intros [r Hr]; discriminate|discriminate]. }
  destruct (firstPreloaded normalized) as [response|].
  { cbn [fst snd l1 l2 stats]. repeat split; try discriminate; try reflexivity.
    - intros _. apply P. eexists; reflexivity.
    - intros _. eexists; reflexivity. }
  assert (Q : JsString.includes normalized "vaccination schedule"
              || JsString.includes normalized "emergency signs"
              || JsString.includes normalized "toxic foods" = false).
  { destruct (_ || _ || _); [|reflexivity].
    destruct (proj2 P eq_refl) as [r Hr]. discriminate. }
  rewrite Q.
  destruct (firstSome (patternHit now c normalized) patterns) as [v|].
  { cbn [fst snd l1 l2 stats]. repeat split; try discriminate; try reflexivity.
    intros [r Hr]. discriminate. }
  destruct (firstSome (fuzzyHit questionOf normalized) (l1 c)) as [v|].
  { cbn [fst snd l1 l2 stats]. repeat split; try discriminate; try reflexivity.
    intros [r Hr]. discriminate. }
  cbn [fst snd]. repeat split; try discriminate; try reflexivity.
  - intros H. congruence.
  - intros [r Hr]. discriminate.
Qed.

(** X25. What the fuzzy match serves.  An answer taken from a cached
    question belongs to an entry of the hot tier whose question, in
    lower case, is fewer edits away from the trimmed lower-case input
    than a fifth of the longer of the two; the age of the entry plays
    no part: when no fixed text and no pattern applies, an entry of
    the hot tier whose question is the input is served at every time,
    also after it has expired. *)
Theorem fuzzy_match_serves now (c : Cache Value) question :
  let normalized := JsString.trim (JsString.toLowerCase question) in
  (forall v, fst (find now c question) = responseOf v ->
     exists k e q,
       In (k, e) (l1 c) /\ value e = v /\ questionOf v = Some q
       /\ (5 * Levenshtein.levenshtein_distance
                 (list_ascii_of_string normalized)
                 (list_ascii_of_string (JsString.toLowerCase q))
           < Nat.max (List.length (list_ascii_of_string normalized))
                     (List.length (list_ascii_of_string (JsString.toLowerCase q))))%nat)
  /\ (forall k e rest q,
        l1 c = (k, e) :: rest ->
        questionOf (value e) = Some q ->
        JsString.toLowerCase q = normalized ->
        normalized <> "" ->
        firstPreloaded normalized = None ->
        (forall p, In p patterns -> fst p normalized = false) ->
        forall later, fst (find later c question) = responseOf (value e)).
Proof using Type.
  intros normalized. split.
  - intros v H. unfold findSimilar in H. fold normalized in H.
    destruct (firstPreloaded normalized); [discriminate|].
    destruct (firstSome (patternHit now c normalized) patterns); [discriminate|].
    destruct (firstSome (fuzzyHit questionOf normalized) (l1 c)) as [v'|] eqn:E;
      [|discriminate].
    cbn [fst] in H. injection H as ->.
    apply firstSome_Some in E. destruct E as ([k e] & Hin & Hf).
    unfold fuzzyHit in Hf. cbn [snd] in Hf.
    destruct (questionOf (value e)) as [q|] eqn:Eq; [|discriminate].
    destruct (Qle_bool _ _) eqn:Et; [discriminate|].
    injection Hf as <-. exists k, e, q.
    split; [exact Hin|]. split; [reflexivity|]. split; [exact Eq|].
    apply SimilarityBounds.above_threshold in Et. tauto.
  - intros k e rest q Hl Hq Hn Hne Hpre Hpat later.
    unfold findSimilar. fold normalized. rewrite Hpre.
    assert (Hp : firstSome (patternHit later c normalized) patterns = None).
    { clear -Hpat. induction patterns as [|p ps IH]; [reflexivity|].
      cbn [firstSome]. unfold patternHit at 1.
      rewrite (Hpat p) by (left; reflexivity).
      apply IH. intros p' Hp'. apply Hpat. right. exact Hp'. }
    rewrite Hp, Hl. cbn [firstSome]. unfold fuzzyHit. cbn [snd].
    rewrite Hq, Hn.
    assert (Ht : Qle_bool (calculateSimilarity normalized normalized) threshold = false).
    { apply SimilarityBounds.above_threshold. split; [exact Hne|]. split; [exact Hne|].
      rewrite LevenshteinFacts.lev_refl.
      destruct (list_ascii_of_string normalized) eqn:E.
      - exfalso. apply Hne. apply SimilarityFacts.empty_string_length.
        rewrite E. reflexivity.
      - cbn [List.length]. lia. }
    rewrite Ht. reflexivity.
Qed.
End Similar.
End CacheBehaviour.

Module CacheKeyFacts.
Import JsString CacheService Terms StringFacts.
Local Open Scope string_scope.

Lemma lowerChar_idem c : lowerChar (lowerChar c) = lowerChar c.
Proof. destruct c as [[] [] [] [] [] [] [] []]; reflexivity. Qed.

Lemma toLowerCase_idem s : toLowerCase (toLowerCase s) = toLowerCase s.
Proof.
  induction s as [|c s IH]; [reflexivity|]. cbn [toLowerCase].
  rewrite lowerChar_idem, IH. reflexivity.
Qed.

Lemma toLowerCase_trimStart s : toLowerCase (trimStart s) = trimStart (toLowerCase s).
Proof.
  induction s as [|c s IH]; [reflexivity|]. cbn [trimStart toLowerCase].
  rewrite lowerChar_whiteSpace. destruct (isWhiteSpace c); [exact IH|reflexivity].
Qed.

Lemma toLowerCase_trimEnd s : toLowerCase (trimEnd s) = trimEnd (toLowerCase s).
Proof.
  induction s as [|c s IH]; [reflexivity|]. cbn [trimEnd toLowerCase].
  rewrite <- IH, lowerChar_whiteSpace.
  destruct (trimEnd s); cbn [toLowerCase]; [|reflexivity].
  destruct (isWhiteSpace c); reflexivity.
Qed.

Lemma toLowerCase_collapseFrom b s :
  toLowerCase (collapseFrom b s) = collapseFrom b (toLowerCase s).
Proof.
  revert b. induction s as [|c s IH]; intros b; [reflexivity|].
  cbn [collapseFrom toLowerCase]. rewrite lowerChar_whiteSpace.
  destruct (isWhiteSpace c).
  - destruct b; [apply IH|]. cbn [toLowerCase]. rewrite IH. reflexivity.
  - cbn [toLowerCase]. rewrite IH. reflexivity.
Qed.

Lemma trimStart_headKept s : headKept (trimStart s).
Proof.
  induction s as [|c s IH]; [exact I|]. cbn [trimStart].
  destruct (isWhiteSpace c) eqn:E; [exact IH|exact E].
Qed.

Lemma headKept_trimStart s : headKept s -> trimStart s = s.
Proof. destruct s as [|c s]; [reflexivity|]. cbn. intros ->. reflexivity. Qed.

Lemma headKept_trimEnd s : headKept s -> headKept (trimEnd s).
Proof.
  destruct s as [|c s]; [exact id|]. cbn [headKept trimEnd]. intros H.
  destruct (trimEnd s); [rewrite H|]; exact H.
Qed.

Lemma trimEnd_idem s : trimEnd (trimEnd s) = trimEnd s.
Proof.
  induction s as [|c s IH]; [reflexivity|]. cbn [trimEnd].
  destruct (trimEnd s) as [|d r] eqn:E.
  - destruct (isWhiteSpace c) eqn:W; [reflexivity|]. cbn [trimEnd]. rewrite W. reflexivity.
  - cbn [trimEnd] in *. rewrite IH. reflexivity.
Qed.

Lemma trimEnd_fixed_tail c s :
  trimEnd (String c s) = String c s ->
  (s = "" /\ isWhiteSpace c = false) \/ (s <> "" /\ trimEnd s = s).
Proof.
  cbn [trimEnd]. destruct (trimEnd s) as [|d r] eqn:E.
  - destruct (isWhiteSpace c); [discriminate|]. intros [= <-]. left. split; reflexivity.
  - intros [= <-]. right. split; [discriminate|reflexivity].
Qed.

Lemma collapseFrom_not_empty b s :
  trimEnd s = s -> s <> "" -> collapseFrom b s <> "".
Proof.
  revert b. induction s as [|c s IH]; intros b Hs Hne; [congruence|].
  cbn [collapseFrom]. destruct (isWhiteSpace c) eqn:W; [|discriminate].
  destruct (trimEnd_fixed_tail c s Hs) as [[_ Hc]|[Hn Ht]]; [congruence|].
  destruct b; [apply IH; assumption|discriminate].
Qed.

Lemma trimEnd_cons_not_empty c r : r <> "" -> trimEnd r = r -> trimEnd (String c r) = String c r.
Proof.
  intros Hne Hr. cbn [trimEnd]. rewrite Hr. destruct r; [congruence|reflexivity].
Qed.

Lemma trimEnd_collapseFrom b s :
  trimEnd s = s -> trimEnd (collapseFrom b s) = collapseFrom b s.
Proof.
  revert b. induction s as [|c s IH]; intros b Hs; [reflexivity|].
  destruct (trimEnd_fixed_tail c s Hs) as [[-> Hc]|[Hn Ht]].
  - cbn [collapseFrom]. rewrite Hc. cbn [trimEnd]. rewrite Hc. reflexivity.
  - cbn [collapseFrom]. destruct (isWhiteSpace c).
    + destruct b; [apply IH; exact Ht|].
      apply trimEnd_cons_not_empty; [apply collapseFrom_not_empty; assumption|].
      apply IH. exact Ht.
    + apply trimEnd_cons_not_empty; [apply collapseFrom_not_empty; assumption|].
      apply IH. exact Ht.
Qed.

Lemma headKept_collapse s : headKept s -> headKept (collapseFrom false s).
Proof.
  destruct s as [|c s]; [exact id|]. cbn [headKept collapseFrom]. intros H.
  rewrite H. exact H.
Qed.

Lemma collapseFrom_idem b s : collapseFrom b (collapseFrom b s) = collapseFrom b s.
Proof.
  revert b. induction s as [|c s IH]; intros b; [reflexivity|].
  cbn [collapseFrom]. destruct (isWhiteSpace c) eqn:W.
  - destruct b; [apply IH|].
    cbn [collapseFrom]. change (isWhiteSpace " ") with true. cbn iota.
    rewrite IH. reflexivity.
  - cbn [collapseFrom]. rewrite W, IH. reflexivity.
Qed.

(** X26. The text of a cache key is normalised once and for all:
    normalising again changes nothing, so a question and its
    normalised form, and two questions that differ in letter case
    only, get the same key. *)
Theorem normalizeInput_is_a_projection (md5 : string -> string) s :
  normalizeInput (normalizeInput s) = normalizeInput s
  /\ normalizeInput (toLowerCase s) = normalizeInput s
  /\ generateKey md5 (textKey (normalizeInput s)) = generateKey md5 (textKey s)
  /\ generateKey md5 (textKey (toLowerCase s)) = generateKey md5 (textKey s).
Proof.
  assert (I : normalizeInput (normalizeInput s) = normalizeInput s).
  { unfold normalizeInput, collapseWhiteSpace, trim.
    rewrite toLowerCase_collapseFrom, toLowerCase_trimEnd, toLowerCase_trimStart,
      toLowerCase_idem.
    set (t := trimEnd (trimStart (toLowerCase s))).
    assert (Hh : headKept t) by (apply headKept_trimEnd, trimStart_headKept).
    assert (He : trimEnd t = t) by apply trimEnd_idem.
    rewrite (headKept_trimStart _ (headKept_collapse _ Hh)).
    rewrite (trimEnd_collapseFrom false t He).
    apply collapseFrom_idem. }
  assert (L : normalizeInput (toLowerCase s) = normalizeInput s).
  { unfold normalizeInput. rewrite toLowerCase_idem. reflexivity. }
  split; [exact I|]. split; [exact L|].
  cbn [generateKey]. rewrite I, L. split; reflexivity.
Qed.
End CacheKeyFacts.
